(** * Coil Builder: the calculation engine of [src/index.js]

    A shallow embedding of the numeric core of the [CoilBuilder] component
    (material catalog, wire length, cross-section area, resistance, the
    wrap search, current and power, the exported profile and its text)
    together with the properties stated about it.

    JavaScript numbers are IEEE 754 binary64 values; they are modelled by
    Rocq's primitive [float]s, whose operations are the same binary64
    operations.  A call either returns a value or throws; this is the
    [completion] type below. *)

From Stdlib Require Import ZArith Lia List String Ascii Bool Floats.
Import ListNotations.

Set Warnings "-inexact-float".

Local Open Scope float_scope.

(** ** The host language *)

Module JS.

(** *** Completions: a call returns normally or throws *)

Inductive error : Type :=
| TypeError.

Inductive completion (A : Type) : Type :=
| Normal (a : A)
| Throw (e : error).

Arguments Normal {A} a.
Arguments Throw {A} e.

Definition bind {A B : Type} (c : completion A) (k : A -> completion B)
  : completion B :=
  match c with
  | Normal a => k a
  | Throw e => Throw e
  end.

Definition returns {A : Type} (c : completion A) : Prop :=
  exists a, c = Normal a.

Definition throws {A : Type} (c : completion A) : Prop :=
  exists e, c = Throw e.

(** *** Numbers *)

Definition number : Type := float.

(** [Math.PI], the binary64 value nearest to pi. *)
Definition Math_PI : number := 0x1.921fb54442d18p+1.

(** [Math.pow(x, 2)]: both call sites of the source pass the literal
    exponent 2; the square is modelled by the binary64 product of the
    base with itself. *)
Definition Math_pow2 (x : number) : number := x * x.

(** [x >= y] and [x > y] on numbers (false as soon as one side is NaN). *)
Definition ge (x y : number) : bool := y <=? x.
Definition gt (x y : number) : bool := y <? x.

(** [ToBoolean] on a number: [0], [-0] and [NaN] are falsy. *)
Definition ToBoolean (x : number) : bool :=
  negb (is_zero x || is_nan x).

(** [x || y] on numbers. *)
Definition or_else (x y : number) : number :=
  if ToBoolean x then x else y.

(** [Math.min(a, b)] and [Math.max(a, b)]: NaN if an argument is NaN,
    and [-0] is smaller than [+0]. *)
Definition Math_min (a b : number) : number :=
  if is_nan a || is_nan b then nan
  else if b <? a then b
  else if a <? b then a
  else if get_sign a then a else b.

Definition Math_max (a b : number) : number :=
  if is_nan a || is_nan b then nan
  else if a <? b then b
  else if b <? a then a
  else if get_sign a then b else a.

(** The number of an integer (exact up to [2^53]). *)
Definition of_Z (n : Z) : number :=
  SF2Prim (binary_normalize prec emax n 0 false).

(** [Math.round(x)]: the integral number nearest to [x], the one closer
    to [+Infinity] on a tie; the sign of [x] is kept when the result is
    zero; NaN, infinities, zeros and integral numbers are returned as
    they are. *)
Definition Math_round (x : number) : number :=
  match Prim2SF x with
  | S754_finite s m e =>
      if (0 <=? e)%Z then x
      else
        let den := Z.shiftl 1 (Z.opp e) in
        let num := if s then Z.opp (Z.pos m) else Z.pos m in
        let n := ((2 * num + den) / (2 * den))%Z in
        if (n =? 0)%Z then (if s then neg_zero else zero) else of_Z n
  | _ => x
  end.

End JS.

Import JS.

Notation "x <- c ;; k" := (JS.bind c (fun x => k))
  (at level 61, c at next level, right associativity).

Local Open Scope string_scope.

(** ** The material catalog (lines 8-14) *)

Record Material : Type := mkMaterial {
  rho_mm2_per_m : number;
  note : string
}.

(** The own properties of the [materials] object literal, in source order. *)
Definition materials : list (string * Material) :=
  [ ("Kanthal A1",
      mkMaterial 1.45 "Kanthal A1 (good for wattage, not for TC)");
    ("Nichrome (Ni80)",
      mkMaterial 1.09 "Nichrome — high resistivity, not for TC typically");
    ("SS316L",
      mkMaterial 0.75 "Stainless Steel 316L — works with TC and VW");
    ("Ni200",
      mkMaterial 0.70 "Nickel 200 — TC only, fragile");
    ("Titanium (Ti)",
      mkMaterial 0.42 "Titanium — TC only, use with care") ].

(** [Object.keys(materials)]. *)
Definition material_keys : list string := map fst materials.

Fixpoint own_property (key : string) (props : list (string * Material))
  : option Material :=
  match props with
  | [] => None
  | (k, m) :: rest => if String.eqb key k then Some m else own_property key rest
  end.

(** [materials] is an object literal, so a property read that finds no own
    property continues in [Object.prototype].  These are its property
    names; their values are functions (or the prototype itself), none of
    which has a [rho_mm2_per_m] or a [note]. *)
Definition Object_prototype_names : list string :=
  [ "constructor"; "hasOwnProperty"; "isPrototypeOf";
    "propertyIsEnumerable"; "toLocaleString"; "toString"; "valueOf";
    "__proto__"; "__defineGetter__"; "__defineSetter__";
    "__lookupGetter__"; "__lookupSetter__" ].

(** The value of the expression [materials[key]]. *)
Inductive lookup : Type :=
| Entry (m : Material)      (* an entry of the catalog *)
| Inherited                 (* a member of [Object.prototype] *)
| Undefined.                (* [undefined] *)

Definition materials_get (key : string) : lookup :=
  match own_property key materials with
  | Some m => Entry m
  | None =>
      if existsb (String.eqb key) Object_prototype_names
      then Inherited else Undefined
  end.

(** [mat.rho_mm2_per_m] used as a number: reading a property of
    [undefined] throws a TypeError; a missing property reads as
    [undefined], which arithmetic converts to NaN. *)
Definition get_rho (mat : lookup) : completion number :=
  match mat with
  | Entry m => Normal (rho_mm2_per_m m)
  | Inherited => Normal nan
  | Undefined => Throw TypeError
  end.

(** [mat.note.includes(...)] needs [mat.note] to be a string. *)
Definition get_note (mat : lookup) : completion string :=
  match mat with
  | Entry m => Normal (note m)
  | Inherited => Throw TypeError
  | Undefined => Throw TypeError
  end.

(** ** Geometry and resistance (lines 38-59) *)

Definition mmToMeters (x : number) : completion number :=
  Normal (x / 1000)%float.

(** compute coil length: circumference*wraps + legs *)
Definition computeLengthMeters (wrapsCount coilIDmm legsMm : number)
  : completion number :=
  let circMm := (Math_PI * coilIDmm)%float in
  let lengthMm := (circMm * wrapsCount + legsMm)%float in
  mmToMeters lengthMm.

Definition areaMm2 (diameterMm : number) : completion number :=
  Normal (Math_PI * Math_pow2 (diameterMm / 2))%float.

Definition computeResistanceOhm (materialKey : string)
  (wireDiameterMm wrapsCount coilIDmm legsMm : number) : completion number :=
  let mat := materials_get materialKey in
  rho <- get_rho mat ;;
  Lm <- computeLengthMeters wrapsCount coilIDmm legsMm ;;
  A_mm2 <- areaMm2 wireDiameterMm ;;
  let R := ((rho * Lm) / A_mm2)%float in
  Normal R.

(** ** The wrap search (lines 61-68) *)

Record WrapSolution : Type := mkWrapSolution {
  wraps : Z;
  resistance : number
}.

Section WrapSearch.

Variable materialKey : string.
Variables wireDiameterMm coilIDmm legsMm targetOhm : number.

(** The [for] loop, started at [w] with [n] iterations left: [Some] is
    the [return] inside the loop, [None] is leaving the loop.  The counter
    takes integer values, which binary64 represents exactly up to [2^53];
    it is an integer here and is converted where it is used as a number. *)
Fixpoint scan_wraps (n : nat) (w : Z) : completion (option WrapSolution) :=
  match n with
  | O => Normal None
  | S n' =>
      r <- computeResistanceOhm materialKey wireDiameterMm (of_Z w)
             coilIDmm legsMm ;;
      if ge r targetOhm then Normal (Some (mkWrapSolution w r))
      else scan_wraps n' (w + 1)
  end.

Definition findWrapsForTarget (maxWraps : Z) : completion WrapSolution :=
  found <- scan_wraps (Z.to_nat maxWraps) 1 ;;
  match found with
  | Some sol => Normal sol
  | None =>
      r <- computeResistanceOhm materialKey wireDiameterMm (of_Z maxWraps)
             coilIDmm legsMm ;;
      Normal (mkWrapSolution maxWraps r)
  end.

End WrapSearch.

(** The default value of the parameter [maxWraps]. *)
Definition default_maxWraps : Z := 60.

(** ** Current and power (lines 74-76, 172) *)

Definition epsilon : number := 0.000001%float.

Definition currentAtTarget (voltage calcResistance : number) : number :=
  (voltage / or_else calcResistance epsilon)%float.

Definition powerAtTarget (voltage calcResistance : number) : number :=
  (Math_pow2 (currentAtTarget voltage calcResistance)
   * or_else calcResistance epsilon)%float.

Definition exceedsSafetyLimit (voltage calcResistance safetyLimitAmp : number)
  : bool :=
  gt (currentAtTarget voltage calcResistance) safetyLimitAmp.

(** ** Numbers as text *)

Module NumberText.

Local Open Scope Z_scope.

Definition digit_char (d : Z) : ascii :=
  ascii_of_nat (48 + Z.to_nat (d mod 10)).

(** The decimal digits of a natural number, most significant first;
    [n] bounds the number of digits produced. *)
Fixpoint decimal_fuel (n : nat) (v : Z) (acc : string) : string :=
  match n with
  | O => acc
  | S n' =>
      let acc' := String (digit_char v) acc in
      if v / 10 =? 0 then acc' else decimal_fuel n' (v / 10) acc'
  end.

Definition decimal (v : Z) : string :=
  decimal_fuel (S (Z.to_nat (Z.log2 v))) v EmptyString.

(** The last [f] decimal digits of [v], zero-padded. *)
Fixpoint fraction_digits (f : nat) (v : Z) (acc : string) : string :=
  match f with
  | O => acc
  | S f' => fraction_digits f' (v / 10) (String (digit_char v) acc)
  end.

Fixpoint zeros (n : nat) : string :=
  match n with
  | O => EmptyString
  | S n' => String "0"%char (zeros n')
  end.

(** A positive finite number [m * 2^e] as a fraction of integers. *)
Definition numerator (m : positive) (e : Z) : Z :=
  if 0 <=? e then Z.pos m * 2 ^ e else Z.pos m.
Definition denominator (e : Z) : Z :=
  if 0 <=? e then 1 else 2 ^ (- e).

(** *** [Number::toString] (radix 10)

    The digits are the shortest decimal [s * 10^(n-k)], with [k] digits,
    that converts back to the number; among several with the same [k]
    the one nearest to the number. *)

Section Shortest.

Variables (m : positive) (e : Z).

(** The rounding interval of [m * 2^e], in units of [2^(e-2)]. *)
Definition interval_lo : Z :=
  4 * Z.pos m - (if (Z.pos m =? 2 ^ 52) && (FloatOps.emin <? e) then 1 else 2).
Definition interval_hi : Z := 4 * Z.pos m + 2.
Definition interval_closed : bool := Z.even (Z.pos m).

(** [compare (s * 10^p) (b * 2^(e-2))] on exact values. *)
Definition compare_decimal (s p b : Z) : comparison :=
  let q := e - 2 in
  (s * 10 ^ (Z.max p 0) * 2 ^ (Z.max (- q) 0))
  ?= (b * 2 ^ (Z.max q 0) * 10 ^ (Z.max (- p) 0)).

Definition in_interval (s p : Z) : bool :=
  match compare_decimal s p interval_lo, compare_decimal s p interval_hi with
  | Gt, Lt => true
  | Eq, Lt | Gt, Eq => interval_closed
  | _, _ => false
  end.

(** [floor (m * 2^e / 10^p)]. *)
Definition scaled_floor (p : Z) : Z :=
  (numerator m e * 10 ^ (Z.max (- p) 0))
  / (denominator e * 10 ^ (Z.max p 0)).

(** The least [n] with [m * 2^e < 10^n], searched upwards from [n0]. *)
Fixpoint magnitude_from (fuel : nat) (n0 : Z) : Z :=
  match fuel with
  | O => n0
  | S fuel' =>
      if scaled_floor n0 =? 0 then n0 else magnitude_from fuel' (n0 + 1)
  end.

Definition magnitude : Z :=
  magnitude_from 700 (-330).

(** Twice the distance of [s * 10^p] to the number, as a fraction over
    a denominator that depends on [p] only. *)
Definition distance (s p : Z) : Z :=
  Z.abs (s * 10 ^ (Z.max p 0) * denominator e
         - numerator m e * 10 ^ (Z.max (- p) 0)).

(** The candidates with [k] digits: for each admissible [n], the two
    multiples of [10^(n-k)] around the number. *)
Definition candidates (k : Z) : list (Z * Z) :=
  let n0 := magnitude in
  filter
    (fun sn => let '(s, n) := sn in
               (10 ^ (k - 1) <=? s) && (s <? 10 ^ k) && in_interval s (n - k))
    [ (scaled_floor (n0 - k), n0); (scaled_floor (n0 - k) + 1, n0);
      (scaled_floor (n0 + 1 - k) + 1, n0 + 1) ].

(** Distances of candidates with different [n] are compared over the
    common denominator. *)
Definition closer (k : Z) (a b : Z * Z) : Z * Z :=
  let scale n := 10 ^ (Z.max (- (n - k)) 0) in
  let da := distance (fst a) (snd a - k) * scale (snd b) in
  let db := distance (fst b) (snd b - k) * scale (snd a) in
  if da <? db then a
  else if db <? da then b
  else if Z.even (fst a) then a else b.

Definition best (k : Z) : option (Z * Z) :=
  match candidates k with
  | [] => None
  | c :: cs => Some (fold_left (closer k) cs c)
  end.

Fixpoint shortest_from (fuel : nat) (k : Z) : Z * Z * Z :=
  match fuel with
  | O => (k, scaled_floor (magnitude - k), magnitude)
  | S fuel' =>
      match best k with
      | Some (s, n) => (k, s, n)
      | None => shortest_from fuel' (k + 1)
      end
  end.

(** [(k, s, n)] of the specification of [Number::toString]. *)
Definition shortest : Z * Z * Z := shortest_from 17 1.

End Shortest.

Definition exponent_text (n : Z) : string :=
  String "e" (String (if 0 <=? n - 1 then "+"%char else "-"%char)
                (decimal (Z.abs (n - 1)))).

Definition positive_toString (m : positive) (e : Z) : string :=
  let '(k, s, n) := shortest m e in
  let digits := decimal s in
  if (k <=? n) && (n <=? 21) then
    (digits ++ zeros (Z.to_nat (n - k)))%string
  else if (0 <? n) && (n <=? 21) then
    (substring 0 (Z.to_nat n) digits ++ "."
     ++ substring (Z.to_nat n) (Z.to_nat (k - n)) digits)%string
  else if (-6 <? n) && (n <=? 0) then
    ("0." ++ zeros (Z.to_nat (- n)) ++ digits)%string
  else if k =? 1 then
    (digits ++ exponent_text n)%string
  else
    (substring 0 1 digits ++ "." ++ substring 1 (Z.to_nat (k - 1)) digits
     ++ exponent_text n)%string.

(** [String(x)] and [`${x}`] for a number [x]. *)
Definition Number_toString (x : number) : string :=
  match Prim2SF x with
  | S754_nan => "NaN"
  | S754_zero _ => "0"
  | S754_infinity s => if s then "-Infinity" else "Infinity"
  | S754_finite s m e =>
      ((if s then "-" else "") ++ positive_toString m e)%string
  end.

(** [x.toFixed(f)] for [0 <= f <= 100]: [f] digits after the point,
    rounding half away from zero on the exact value; numbers that are
    not finite or not below [10^21] in magnitude are printed by
    [Number::toString]. *)
Definition toFixed (x : number) (f : nat) : string :=
  match Prim2SF x with
  | S754_finite s m e =>
      let num := numerator m e in
      let den := denominator e in
      if 10 ^ 21 * den <=? num then Number_toString x
      else
        let n := (2 * num * 10 ^ Z.of_nat f + den) / (2 * den) in
        let int_part := decimal (n / 10 ^ Z.of_nat f) in
        let frac_part := fraction_digits f n EmptyString in
        ((if s then "-" else "") ++ int_part
         ++ (match f with O => "" | S _ => "." end) ++ frac_part)%string
  | S754_zero _ =>
      ("0" ++ (match f with O => "" | S _ => "." end) ++ zeros f)%string
  | _ => Number_toString x
  end.

End NumberText.

Import NumberText.

(** [s.includes(needle)]. *)
Fixpoint String_includes (s needle : string) : bool :=
  String.prefix needle s
  || match s with
     | EmptyString => false
     | String _ s' => String_includes s' needle
     end.

(** helper format: [fmt = (v, n=3) => Number(v).toFixed(n)] *)
Definition fmt (v : number) (n : nat) : string := toFixed v n.

(** ** The exported profile (lines 213-223) *)

Record Profile : Type := mkProfile {
  Name : string;
  Mode : string;
  Temperature : option number;      (* [None] is [undefined] *)
  Power : number;
  PreheatPower : number;
  PreheatTime : number;
  Cutoff : number;
  Resistance : string
}.

(** The object literal [profile], for the selected [material] and the
    component's [powerAtTarget] and [calcResistance]. *)
Definition buildProfile (material : string) (powerAtTarget calcResistance : number)
  : completion Profile :=
  note <- get_note (materials_get material) ;;
  Normal
    {| Name := "DAB-CUSTOM";
       Mode :=
         if String_includes note "TC" || String_includes material "SS"
            || String_includes material "Ni"
         then (if String.eqb material "SS316L" || String.eqb material "Ni200"
                  || String_includes material "Ti"
               then "TC-SS" else "Power")
         else "Power";
       Temperature := if String.eqb material "SS316L" then Some 220%float else None;
       Power := Math_min 50 (Math_round powerAtTarget);
       PreheatPower :=
         Math_round (Math_min 80 (Math_max 20 (powerAtTarget * 1.4)%float));
       PreheatTime := 1;
       Cutoff := 8;
       Resistance := fmt calcResistance 4 |}.

Definition newline : string := String (ascii_of_nat 10) EmptyString.

(** The conditional [profile.Temperature ? ... : ''] of the template. *)
Definition temperature_text (t : option number) : string :=
  match t with
  | Some v =>
      if ToBoolean v then "Temperature=" ++ Number_toString v ++ newline
      else ""
  | None => ""
  end.

(** The template literal [text]. *)
Definition serialize (profile : Profile) : string :=
  "; Generated by trhacknon Coil Builder" ++ newline
  ++ "[ProfileCustom]" ++ newline
  ++ "Name=" ++ Name profile ++ newline
  ++ "Mode=" ++ Mode profile ++ newline
  ++ temperature_text (Temperature profile)
  ++ "Power=" ++ Number_toString (Power profile) ++ newline
  ++ "PreheatPower=" ++ Number_toString (PreheatPower profile) ++ newline
  ++ "PreheatTime=" ++ Number_toString (PreheatTime profile) ++ newline
  ++ "Cutoff=" ++ Number_toString (Cutoff profile) ++ newline
  ++ "; EstimatedResistance=" ++ Resistance profile ++ newline.


(** ** The gauge table and the wire diameter in use (lines 16-25, 70) *)

(** AWG: diameter in mm (approx).  The keys of the object literal are the
    texts of the gauges. *)
Definition awgTable : list (string * number) :=
  [ ("20", 0.8128);
    ("22", 0.6438);
    ("24", 0.511);
    ("26", 0.405);
    ("28", 0.321);
    ("30", 0.255);
    ("32", 0.202) ]%float.

(** [Object.keys(awgTable)], the options of the selector. *)
Definition awgTable_keys : list string := map fst awgTable.

Fixpoint own_number (key : string) (props : list (string * number))
  : option number :=
  match props with
  | [] => None
  | (k, v) :: rest => if String.eqb key k then Some v else own_number key rest
  end.

(** [Number(awgTable[awg])] for a number [awg]: the property key is the
    text of the number.  No such text names a member of
    [Object.prototype], so a key outside the table reads [undefined],
    which [Number] turns into [NaN]. *)
Definition awgTable_get (awg : number) : number :=
  match own_number (Number_toString awg) awgTable with
  | Some d => d
  | None => nan
  end.

(** [Number(wireDiameter)], where
    [wireDiameter = useAwg ? awgTable[awg] : Number(wireDiaMm)];
    the argument [wireDiaMm] stands for [Number(wireDiaMm)]. *)
Definition wireDiameter (useAwg : bool) (awg wireDiaMm : number) : number :=
  if useAwg then awgTable_get awg else wireDiaMm.

(** ** The exported text, from the voltage and the computed resistance
    (lines 75-76, 213-223) *)

Definition exportText (material : string) (voltage calcResistance : number)
  : completion string :=
  profile <- buildProfile material (powerAtTarget voltage calcResistance)
               calcResistance ;;
  Normal (serialize profile).

(** The gauges as numbers.  The selector passes [Number(e.target.value)]
    for a key of the table (line 113); these are the numbers whose texts
    are the keys. *)
Definition awgGauges : list number := [20; 22; 24; 26; 28; 30; 32]%float.

(** * The specification's formulas

    The formulas and formats the specification states, on the same
    binary64 operations, to be compared with what the source computes. *)

Definition wireLength (wraps innerDiameterMm legLengthMm : number) : number :=
  ((Math_PI * innerDiameterMm * wraps + legLengthMm) / 1000)%float.

Definition crossSectionAreaMm2 (diameterMm : number) : number :=
  (Math_PI * ((diameterMm / 2) * (diameterMm / 2)))%float.

Definition resistanceOhm (resistivity lengthMeters area : number) : number :=
  (resistivity * lengthMeters / area)%float.

Definition clamp (x lo hi : number) : number := Math_min hi (Math_max lo x).

(** [lo <= x <= hi]. *)
Definition in_range (x lo hi : number) : bool :=
  (lo <=? x)%float && (x <=? hi)%float.

(** The lines of the exported document, as the specification lists them. *)
Definition temperature_lines (t : option number) : list string :=
  match t with
  | Some v => if ToBoolean v then ["Temperature=" ++ Number_toString v] else []
  | None => []
  end.

Definition profile_lines (p : Profile) : list string :=
  [ "; Generated by trhacknon Coil Builder";
    "[ProfileCustom]";
    "Name=" ++ Name p;
    "Mode=" ++ Mode p ]
  ++ temperature_lines (Temperature p)
  ++ [ "Power=" ++ Number_toString (Power p);
       "PreheatPower=" ++ Number_toString (PreheatPower p);
       "PreheatTime=" ++ Number_toString (PreheatTime p);
       "Cutoff=" ++ Number_toString (Cutoff p);
       "; EstimatedResistance=" ++ Resistance p ].




(** The resistance the source divides the voltage by:
    [calcResistance || 0.000001]. *)
Definition guardedResistance (R : number) : number :=
  if is_zero R || is_nan R then epsilon else R.

(** The text whose lines are [ls], each ended by a line feed. *)
Fixpoint unlines (ls : list string) : string :=
  match ls with
  | [] => ""
  | l :: rest => l ++ newline ++ unlines rest
  end.

(** * Facts about binary64 arithmetic

    The primitive operations are specified by the standard library through
    [Prim2SF], which maps a [float] to its description as a [spec_float];
    the facts below are derived from that specification. *)

Module FloatFacts.

Local Open Scope float_scope.

(** *** Classification *)

Lemma SFcompare_refl (x : spec_float) :
  x <> S754_nan -> SFcompare x x = Some Eq.
Proof.
  destruct x as [[] | [] | | [] m e]; cbn; try congruence; intros _;
    now rewrite Z.compare_refl, Pos.compare_cont_refl.
Qed.

Lemma is_nan_spec (x : float) :
  is_nan x = match Prim2SF x with S754_nan => true | _ => false end.
Proof.
  unfold is_nan. rewrite eqb_spec. unfold SFeqb.
  destruct (Prim2SF x) eqn:E; try reflexivity;
    rewrite SFcompare_refl by discriminate; reflexivity.
Qed.

Lemma is_infinity_spec (x : float) :
  is_infinity x
  = match Prim2SF x with S754_infinity _ => true | _ => false end.
Proof.
  unfold is_infinity. rewrite eqb_spec, abs_spec.
  change (Prim2SF infinity) with (S754_infinity false).
  now destruct (Prim2SF x) as [[] | [] | | [] m e].
Qed.

Lemma is_zero_spec (x : float) :
  is_zero x = match Prim2SF x with S754_zero _ => true | _ => false end.
Proof.
  unfold is_zero. rewrite eqb_spec.
  change (Prim2SF zero) with (S754_zero false).
  now destruct (Prim2SF x) as [[] | [] | | [] m e].
Qed.

Lemma is_finite_spec (x : float) :
  is_finite x
  = match Prim2SF x with
    | S754_nan | S754_infinity _ => false
    | _ => true
    end.
Proof.
  unfold is_finite. rewrite is_nan_spec, is_infinity_spec.
  now destruct (Prim2SF x).
Qed.

(** *** Division by zero

    It is not an error: the quotient is an infinity, or NaN for [0/0]
    and [NaN/0]. *)
Lemma div_zero_not_finite (x : float) : is_finite (x / 0) = false.
Proof.
  rewrite is_finite_spec, div_spec.
  change (Prim2SF 0) with (S754_zero false).
  now destruct (Prim2SF x) as [[] | [] | | [] m e].
Qed.

Lemma div_zero_cases (x : float) :
  x / 0 = infinity \/ x / 0 = neg_infinity \/ x / 0 = nan.
Proof.
  assert (H : Prim2SF (x / 0) = S754_infinity false
              \/ Prim2SF (x / 0) = S754_infinity true
              \/ Prim2SF (x / 0) = S754_nan).
  { rewrite div_spec. change (Prim2SF 0) with (S754_zero false).
    destruct (Prim2SF x) as [[] | [] | | [] m e]; cbn; auto. }
  destruct H as [H | [H | H]]; [left | right; left | right; right];
    apply Prim2SF_inj; rewrite H; reflexivity.
Qed.

Local Open Scope Z_scope.

(** ** Rounding to nearest, ties to even, on fractions *)

Definition RNE (N D : Z) : Z :=
  let m := N / D in
  match 2 * (N mod D) ?= D with
  | Lt => m
  | Eq => if Z.even m then m else m + 1
  | Gt => m + 1
  end.

Lemma RNE_bounds N D : N / D <= RNE N D <= N / D + 1.
Proof.
  unfold RNE. destruct (2 * (N mod D) ?= D); try lia.
  destruct (Z.even (N / D)); lia.
Qed.

Lemma div_le_cross N1 D1 N2 D2 :
  0 < D1 -> 0 < D2 -> N1 * D2 <= N2 * D1 -> N1 / D1 <= N2 / D2.
Proof.
  intros H1 H2 H.
  apply Z.div_le_lower_bound; [lia |].
  pose proof (Z.mul_div_le N1 D1 H1) as Hq.
  (* D2 * (N1/D1) <= N2 *)
  assert (D1 * (D2 * (N1 / D1)) <= D1 * N2) by nia.
  nia.
Qed.

Lemma RNE_mono N1 D1 N2 D2 :
  0 < D1 -> 0 < D2 -> N1 * D2 <= N2 * D1 -> RNE N1 D1 <= RNE N2 D2.
Proof.
  intros H1 H2 H.
  pose proof (div_le_cross _ _ _ _ H1 H2 H) as Hm.
  pose proof (RNE_bounds N1 D1) as B1. pose proof (RNE_bounds N2 D2) as B2.
  destruct (Z.eq_dec (N1 / D1) (N2 / D2)) as [E | NE]; [| lia].
  unfold RNE in *. rewrite <- E in *.
  pose proof (Z.div_mod N1 D1 ltac:(lia)) as E1.
  pose proof (Z.div_mod N2 D2 ltac:(lia)) as E2.
  rewrite <- E in E2.
  pose proof (Z.mod_pos_bound N1 D1 H1) as P1.
  pose proof (Z.mod_pos_bound N2 D2 H2) as P2.
  set (m := N1 / D1) in *. set (r1 := N1 mod D1) in *. set (r2 := N2 mod D2) in *.
  assert (Hr : r1 * D2 <= r2 * D1) by nia.
  destruct (Z.compare_spec (2 * r1) D1) as [C1 | C1 | C1];
  destruct (Z.compare_spec (2 * r2) D2) as [C2 | C2 | C2];
    try destruct (Z.even m); try lia; exfalso; nia.
Qed.

Lemma RNE_ext N1 D1 N2 D2 :
  0 < D1 -> 0 < D2 -> N1 * D2 = N2 * D1 -> RNE N1 D1 = RNE N2 D2.
Proof.
  intros. apply Z.le_antisymm; apply RNE_mono; lia.
Qed.

Lemma RNE_lt_bound N D B :
  0 < D -> N < D * B -> RNE N D <= B.
Proof.
  intros HD H. pose proof (RNE_bounds N D).
  assert (N / D < B) by (apply Z.div_lt_upper_bound; lia). lia.
Qed.

Lemma RNE_ge_bound N D B :
  0 < D -> D * B <= N -> B <= RNE N D.
Proof.
  intros HD H. pose proof (RNE_bounds N D).
  assert (B <= N / D) by (apply Z.div_le_lower_bound; lia). lia.
Qed.

Lemma RNE_nonneg N D : 0 <= N -> 0 < D -> 0 <= RNE N D.
Proof. intros. apply RNE_ge_bound; lia. Qed.

(** ** Rounding a non-negative fraction to 53 significant bits *)

Definition round_int (N D : Z) : Z :=
  let k := Z.max (Z.log2 (N / D) - 52) 0 in
  RNE N (D * 2 ^ k) * 2 ^ k.

Lemma round_int_mono N1 D1 N2 D2 :
  0 <= N1 -> 0 < D1 -> 0 < D2 -> N1 * D2 <= N2 * D1 ->
  round_int N1 D1 <= round_int N2 D2.
Proof.
  intros HN1 H1 H2 H. unfold round_int.
  pose proof (div_le_cross _ _ _ _ H1 H2 H) as Hm.
  pose proof (Z.log2_le_mono _ _ Hm) as Hl.
  assert (0 <= N1 / D1) by (apply Z.div_pos; lia).
  set (F1 := N1 / D1) in *. set (F2 := N2 / D2) in *.
  set (k1 := Z.max (Z.log2 F1 - 52) 0). set (k2 := Z.max (Z.log2 F2 - 52) 0).
  assert (Hk : k1 <= k2) by lia.
  assert (0 <= k1) by lia.
  assert (P1 : 0 < 2 ^ k1) by (apply Z.pow_pos_nonneg; lia).
  assert (P2 : 0 < 2 ^ k2) by (apply Z.pow_pos_nonneg; lia).
  destruct (Z.eq_dec k1 k2) as [E | NE].
  - rewrite <- E. apply Z.mul_le_mono_nonneg_r; [lia |].
    apply RNE_mono; nia.
  - assert (Hk2 : k2 = Z.log2 F2 - 52) by lia.
    assert (HF2 : 0 < F2) by (destruct (Z.eq_dec F2 0) as [Z0|]; [rewrite Z0 in *; cbn in *; lia | lia]).
    (* lower bound on the second *)
    assert (L2 : 2 ^ 52 <= RNE N2 (D2 * 2 ^ k2)).
    { apply RNE_ge_bound; [nia |].
      assert (2 ^ (k2 + 52) <= F2).
      { apply Z.log2_le_pow2; lia. }
      rewrite Z.pow_add_r in * by lia.
      pose proof (Z.mul_div_le N2 D2 H2). fold F2 in H4. nia. }
    (* upper bound on the first *)
    assert (U1 : RNE N1 (D1 * 2 ^ k1) <= 2 ^ 53).
    { apply RNE_lt_bound; [nia |].
      assert (F1 < 2 ^ (k1 + 53)).
      { destruct (Z.eq_dec F1 0) as [Z0 | NZ].
        - rewrite Z0. apply Z.pow_pos_nonneg; lia.
        - apply Z.log2_lt_pow2; lia. }
      rewrite Z.pow_add_r in * by lia.
      assert (N1 < D1 * (F1 + 1)).
      { pose proof (Z.mod_pos_bound N1 D1 H1). pose proof (Z.div_mod N1 D1 ltac:(lia)).
        fold F1 in H6. nia. }
      nia. }
    assert (2 ^ k2 = 2 ^ k1 * 2 ^ (k2 - k1)).
    { rewrite <- Z.pow_add_r by lia. f_equal. lia. }
    assert (2 <= 2 ^ (k2 - k1)).
    { change 2 with (2 ^ 1) at 1. apply Z.pow_le_mono_r; lia. }
    change (2 ^ 53) with (2 * 2 ^ 52) in U1.
    nia.
Qed.

Lemma round_int_ext N1 D1 N2 D2 :
  0 <= N1 -> 0 <= N2 -> 0 < D1 -> 0 < D2 -> N1 * D2 = N2 * D1 ->
  round_int N1 D1 = round_int N2 D2.
Proof.
  intros. apply Z.le_antisymm; apply round_int_mono; lia.
Qed.

(** ** The shift-right records of [SpecFloat] describe fractions *)

Definition loc (N D : Z) : location :=
  if N mod D =? 0 then loc_Exact else loc_Inexact (2 * (N mod D) ?= D).

Definition rec (N D : Z) : shr_record := shr_record_of_loc (N / D) (loc N D).

Ltac zbool :=
  repeat match goal with
         | |- context [?a =? ?b] => destruct (Z.eqb_spec a b)
         | |- context [?a <=? ?b] => destruct (Z.leb_spec a b)
         | |- context [?a <? ?b] => destruct (Z.ltb_spec a b)
         | |- context [?a ?= ?b] => destruct (Z.compare_spec a b)
         end.

Lemma rec_bits N D :
  0 < D ->
  rec N D
  = Build_shr_record (N / D) (D <=? 2 * (N mod D))
      (negb (N mod D =? 0) && negb (2 * (N mod D) =? D)).
Proof.
  intros HD. unfold rec, loc. pose proof (Z.mod_pos_bound N D HD).
  zbool; cbn; try reflexivity; try lia.
Qed.

Lemma shr_m_rec N D : shr_m (rec N D) = N / D.
Proof. unfold rec. now destruct (loc N D) as [| []]. Qed.

Lemma loc_of_rec N D : loc_of_shr_record (rec N D) = loc N D.
Proof. unfold rec. now destruct (loc N D) as [| []]. Qed.

Lemma round_nearest_even_rec N D :
  0 < D ->
  round_nearest_even (shr_m (rec N D)) (loc_of_shr_record (rec N D)) = RNE N D.
Proof.
  intros HD. rewrite shr_m_rec, loc_of_rec. unfold loc, RNE, round_nearest_even.
  pose proof (Z.mod_pos_bound N D HD).
  destruct (Z.eqb_spec (N mod D) 0) as [E | NE].
  - destruct (Z.compare_spec (2 * (N mod D)) D); lia.
  - destruct (2 * (N mod D) ?= D); reflexivity.
Qed.

Lemma rec_exact m : rec m 1 = shr_record_of_loc m loc_Exact.
Proof. unfold rec, loc. now rewrite Z.mod_1_r, Z.div_1_r. Qed.

Lemma shr_1_nonneg m r s :
  0 <= m ->
  shr_1 (Build_shr_record m r s) = Build_shr_record (m / 2) (Z.odd m) (r || s).
Proof.
  intros Hm. rewrite <- Z.div2_div.
  destruct m as [| [p | p |] |]; try reflexivity. lia.
Qed.

Lemma shr_1_rec N D :
  0 <= N -> 0 < D -> shr_1 (rec N D) = rec N (2 * D).
Proof.
  intros HN HD.
  assert (Hq : N / (2 * D) = (N / D) / 2).
  { rewrite (Z.mul_comm 2 D). now rewrite Z.div_div by lia. }
  assert (Hr : N mod (2 * D) = N mod D + D * ((N / D) mod 2)).
  { rewrite (Z.mul_comm 2 D). apply Z.rem_mul_r; lia. }
  pose proof (Z.mod_pos_bound N D HD) as Hb.
  assert (Hm : 0 <= N / D) by (apply Z.div_pos; lia).
  rewrite (rec_bits N (2 * D)) by lia. rewrite (rec_bits N D) by lia.
  rewrite shr_1_nonneg by assumption.
  rewrite Hq, Hr. rewrite (Zmod_odd (N / D)).
  f_equal; destruct (Z.odd (N / D)); zbool; cbn; try reflexivity; lia.
Qed.

Lemma pow2_xO p : 2 ^ Z.pos p~0 = 2 ^ Z.pos p * 2 ^ Z.pos p.
Proof. rewrite <- Z.pow_add_r by lia. f_equal. lia. Qed.

Lemma pow2_xI p : 2 ^ Z.pos p~1 = 2 * (2 ^ Z.pos p * 2 ^ Z.pos p).
Proof.
  rewrite <- Z.pow_add_r by lia. rewrite <- (Z.pow_succ_r 2) by lia.
  f_equal. lia.
Qed.

Lemma iter_pos_shr_1_rec p N D :
  0 <= N -> 0 < D ->
  iter_pos shr_1 p (rec N D) = rec N (D * 2 ^ Z.pos p).
Proof.
  intros HN. revert D.
  induction p as [p IH | p IH |]; intros D HD; cbn [iter_pos].
  - assert (0 < 2 ^ Z.pos p) by (apply Z.pow_pos_nonneg; lia).
    rewrite shr_1_rec, IH, IH by nia.
    f_equal. rewrite pow2_xI. ring.
  - assert (0 < 2 ^ Z.pos p) by (apply Z.pow_pos_nonneg; lia).
    rewrite IH, IH by nia.
    f_equal. rewrite pow2_xO. ring.
  - rewrite shr_1_rec by assumption. f_equal. change (2 ^ 1) with 2. ring.
Qed.

(** Shifting by [n] binary places (not at all when [n <= 0]). *)
Lemma shr_rec N D e n :
  0 <= N -> 0 < D ->
  shr (rec N D) e n = (rec N (D * 2 ^ Z.max n 0), e + Z.max n 0).
Proof.
  intros HN HD. destruct n as [| p | p]; cbn [shr Z.max Z.compare].
  - now rewrite Z.mul_1_r, Z.add_0_r.
  - rewrite iter_pos_shr_1_rec by assumption.
    replace (Z.max (Z.pos p) 0) with (Z.pos p) by lia. reflexivity.
  - replace (Z.max (Z.neg p) 0) with 0 by lia.
    now rewrite Z.mul_1_r, Z.add_0_r.
Qed.

(** ** Digits *)

Lemma digits2_pos_size p : digits2_pos p = Pos.size p.
Proof. induction p; cbn; congruence. Qed.

Lemma Zdigits2_log2 m : 0 < m -> Zdigits2 m = Z.log2 m + 1.
Proof.
  destruct m as [| p |]; try lia. intros _. cbn [Zdigits2].
  rewrite digits2_pos_size.
  destruct p; cbn; rewrite ?Pos2Z.inj_succ; lia.
Qed.

Lemma Zdigits2_0 : Zdigits2 0 = 0.
Proof. reflexivity. Qed.

Lemma fexp_eq g : fexp prec emax g = Z.max (g - 53) (-1074).
Proof. reflexivity. Qed.

(** The value of a non-negative number in units of [2^-1074], the least
    positive number; an infinity counts as [2^1024]. *)
Definition ival (x : spec_float) : Z :=
  match x with
  | S754_zero _ => 0
  | S754_finite _ m e => Z.pos m * 2 ^ (e + 1074)
  | S754_infinity _ => 2 ^ 2098
  | S754_nan => 0
  end.

Definition has_sign (s : bool) (x : spec_float) : Prop :=
  match x with
  | S754_zero s' | S754_infinity s' | S754_finite s' _ _ => s' = s
  | S754_nan => False
  end.

Lemma pow2_pos n : 0 <= n -> 0 < 2 ^ n.
Proof. intros. apply Z.pow_pos_nonneg; lia. Qed.

Lemma pow2_le a b : 0 <= a <= b -> 2 ^ a <= 2 ^ b.
Proof. intros. apply Z.pow_le_mono_r; lia. Qed.

Lemma pow2_lt a b : 0 <= a < b -> 2 ^ a < 2 ^ b.
Proof. intros. apply Z.pow_lt_mono_r; lia. Qed.

Lemma div_lt_bound N D B : 0 < D -> N / D < B -> N < D * B.
Proof.
  intros HD H. pose proof (Z.div_mod N D ltac:(lia)).
  pose proof (Z.mod_pos_bound N D HD). nia.
Qed.

Lemma div_ge_bound N D B : 0 < D -> B <= N / D -> D * B <= N.
Proof.
  intros HD H. pose proof (Z.div_mod N D ltac:(lia)).
  pose proof (Z.mod_pos_bound N D HD). nia.
Qed.

Lemma Zdigits2_lt m : 0 <= m -> m < 2 ^ Zdigits2 m.
Proof.
  intros Hm. destruct (Z.eq_dec m 0) as [-> | NZ]; [cbn; lia |].
  rewrite Zdigits2_log2 by lia. apply Z.log2_spec. lia.
Qed.

Lemma Zdigits2_ge m : 0 < m -> 2 ^ (Zdigits2 m - 1) <= m.
Proof.
  intros Hm. rewrite Zdigits2_log2 by lia.
  replace (Z.log2 m + 1 - 1) with (Z.log2 m) by lia. apply Z.log2_spec. lia.
Qed.

Lemma Zdigits2_nonneg m : 0 <= Zdigits2 m.
Proof. destruct m; cbn; lia. Qed.

Lemma Zdigits2_le_iff m d : 0 < m -> 0 <= d -> (Zdigits2 m <= d <-> m < 2 ^ d).
Proof.
  intros Hm Hd. rewrite Zdigits2_log2 by lia.
  split; intros H.
  - apply Z.log2_lt_pow2; lia.
  - apply Z.log2_lt_pow2 in H; lia.
Qed.

(** What [binary_round_aux] computes on a fraction [N/D] at exponent [e]
    that is not above the exponent of the result. *)
Lemma binary_round_aux_ival s N D e :
  0 <= N -> 0 < D ->
  e <= fexp prec emax (Zdigits2 (N / D) + e) ->
  let e0 := fexp prec emax (Zdigits2 (N / D) + e) in
  let r := binary_round_aux prec emax s (N / D) e (loc N D) in
  has_sign s r
  /\ ival r = Z.min (RNE N (D * 2 ^ (e0 - e)) * 2 ^ (e0 + 1074)) (2 ^ 2098).
Proof.
  intros HN HD Hpre e0 r. subst r.
  assert (Hpre' : e <= e0) by exact Hpre. clear Hpre.
  unfold binary_round_aux, shr_fexp.
  fold (rec N D). fold e0.
  assert (He0def : e0 = Z.max (Zdigits2 (N / D) + e - 53) (-1074)) by reflexivity.
  clearbody e0.
  rewrite shr_rec by assumption.
  replace (Z.max (e0 - e) 0) with (e0 - e) by lia.
  replace (e + (e0 - e)) with e0 by lia.
  set (n := e0 - e) in *. assert (Hn : 0 <= n) by lia.
  pose proof (pow2_pos n Hn) as Hpn.
  set (D0 := D * 2 ^ n) in *. assert (HD0 : 0 < D0) by (unfold D0; nia).
  rewrite round_nearest_even_rec by assumption.
  set (m1 := RNE N D0).
  rewrite <- rec_exact. rewrite shr_rec by (try apply RNE_nonneg; lia).
  rewrite Z.mul_1_l. cbn iota beta. rewrite shr_m_rec.
  rewrite fexp_eq.
  pose proof (Zdigits2_nonneg (N / D)) as Hd0.
  set (d := Zdigits2 (N / D)) in *.
  assert (Hfloor : 0 <= N / D) by (apply Z.div_pos; lia).
  assert (Hm1 : 0 <= m1) by (apply RNE_nonneg; lia).
  assert (He0 : -1074 <= e0) by lia.
  (* the rounded mantissa is at most 2^53 *)
  assert (Hup : m1 <= 2 ^ 53).
  { apply RNE_lt_bound; [assumption |].
    pose proof (Zdigits2_lt (N / D) Hfloor) as Hlt. fold d in Hlt.
    apply div_lt_bound in Hlt; [| assumption].
    assert (2 ^ d <= 2 ^ (n + 53)) by (apply pow2_le; lia).
    rewrite Z.pow_add_r in H by lia. unfold D0. nia. }
  (* in the normal range it is at least 2^52 *)
  assert (Hlow : -1074 < e0 -> 2 ^ 52 <= m1).
  { intros Hnorm. apply RNE_ge_bound; [assumption |].
    assert (Hd : n = d - 53) by lia.
    assert (0 < N / D).
    { destruct (Z.eq_dec (N / D) 0) as [E | NE]; [| lia].
      exfalso. unfold d in *. rewrite E in *. cbn in *. lia. }
    pose proof (Zdigits2_ge (N / D) H) as Hge. fold d in Hge.
    apply div_ge_bound in Hge; [| assumption].
    replace (d - 1) with (n + 52) in Hge by lia.
    rewrite Z.pow_add_r in Hge by lia. unfold D0. nia. }
  pose proof (pow2_pos (e0 + 1074) ltac:(lia)) as Hpe.
  destruct (Z.eq_dec m1 (2 ^ 53)) as [Etop | Ntop].
  - (* carry into the next binade *)
    rewrite Etop.
    change (Zdigits2 (2 ^ 53)) with 54.
    replace (Z.max (Z.max (54 + e0 - 53) (-1074) - e0) 0) with 1 by lia.
    change (2 ^ 53 / 2 ^ 1) with (Z.pos (2 ^ 52)).
    cbn iota beta.
    change (Z.sub emax prec) with 971.
    destruct (Z.leb_spec (e0 + 1) 971) as [Hle | Hgt]; cbn [has_sign ival].
    + split; [reflexivity |].
      replace (e0 + 1 + 1074) with (1 + (e0 + 1074)) by lia.
      rewrite (Z.pow_add_r 2 1) by lia.
      assert (2 ^ (e0 + 1074) <= 2 ^ 2044) by (apply pow2_le; lia).
      change (2 ^ 2098) with (2 ^ 53 * 2 * 2 ^ 2044).
      change (Z.pos (2 ^ 52)) with (2 ^ 52). change (2 ^ 53) with (2 * 2 ^ 52).
      change (2 ^ 1) with 2.
      apply eq_sym. rewrite Z.min_l; [ring | ].
      assert (0 < 2 ^ 52) by (apply pow2_pos; lia). nia.
    + split; [reflexivity |].
      assert (2 ^ 2045 <= 2 ^ (e0 + 1074)) by (apply pow2_le; lia).
      change (2 ^ 2098) with (2 ^ 53 * 2 ^ 2045).
      assert (0 < 2 ^ 53) by (apply pow2_pos; lia).
      rewrite Z.min_r; [reflexivity | nia].
  - assert (Hlt : m1 < 2 ^ 53) by lia.
    assert (Hn2 : Z.max (Z.max (Zdigits2 m1 + e0 - 53) (-1074) - e0) 0 = 0).
    { destruct (Z.eq_dec m1 0) as [-> | NZ]; [cbn; lia |].
      assert (Zdigits2 m1 <= 53) by (apply Zdigits2_le_iff; lia). lia. }
    rewrite Hn2. change (2 ^ 0) with 1. rewrite Z.div_1_r, Z.add_0_r.
    destruct m1 as [| p |] eqn:Em1; [| | lia].
    + cbn [has_sign ival]. split; [reflexivity |].
      rewrite Z.mul_0_l. rewrite Z.min_l; [reflexivity |].
      apply Z.lt_le_incl, pow2_pos; lia.
    + change (Z.sub emax prec) with 971.
      destruct (Z.leb_spec e0 971) as [Hle | Hgt]; cbn [has_sign ival].
      * split; [reflexivity |].
        assert (2 ^ (e0 + 1074) <= 2 ^ 2045) by (apply pow2_le; lia).
        change (2 ^ 2098) with (2 ^ 53 * 2 ^ 2045).
        rewrite Z.min_l; [reflexivity | nia].
      * split; [reflexivity |].
        assert (2 ^ 2046 <= 2 ^ (e0 + 1074)) by (apply pow2_le; lia).
        change (2 ^ 2098) with (2 ^ 52 * 2 ^ 2046).
        specialize (Hlow ltac:(lia)).
        assert (0 < 2 ^ 52) by (apply pow2_pos; lia).
        rewrite Z.min_r; [reflexivity | nia].
Qed.

(** The fraction [N/D * 2^t]. *)
Definition scaleN (N t : Z) : Z := N * 2 ^ Z.max t 0.
Definition scaleD (D t : Z) : Z := D * 2 ^ Z.max (- t) 0.

Lemma scaleD_pos D t : 0 < D -> 0 < scaleD D t.
Proof. intros. unfold scaleD. pose proof (pow2_pos (Z.max (- t) 0)). nia. Qed.

Lemma scaleN_nonneg N t : 0 <= N -> 0 <= scaleN N t.
Proof. intros. unfold scaleN. pose proof (pow2_pos (Z.max t 0)). nia. Qed.

Lemma scale_lt N D t a :
  0 <= a -> 0 <= a + t -> N < D * 2 ^ a -> scaleN N t < scaleD D t * 2 ^ (a + t).
Proof.
  intros Ha Hat H. unfold scaleN, scaleD.
  destruct (Z.le_gt_cases 0 t) as [Ht | Ht].
  - replace (Z.max t 0) with t by lia. replace (Z.max (- t) 0) with 0 by lia.
    rewrite Z.pow_add_r by lia. pose proof (pow2_pos t Ht). change (2 ^ 0) with 1. nia.
  - replace (Z.max t 0) with 0 by lia. replace (Z.max (- t) 0) with (- t) by lia.
    rewrite <- Z.mul_assoc, <- Z.pow_add_r by lia.
    replace (- t + (a + t)) with a by lia. change (2 ^ 0) with 1. lia.
Qed.

Lemma scale_ge N D t a :
  0 <= a -> 0 <= a + t -> D * 2 ^ a <= N -> scaleD D t * 2 ^ (a + t) <= scaleN N t.
Proof.
  intros Ha Hat H. unfold scaleN, scaleD.
  destruct (Z.le_gt_cases 0 t) as [Ht | Ht].
  - replace (Z.max t 0) with t by lia. replace (Z.max (- t) 0) with 0 by lia.
    rewrite Z.pow_add_r by lia. pose proof (pow2_pos t Ht). change (2 ^ 0) with 1. nia.
  - replace (Z.max t 0) with 0 by lia. replace (Z.max (- t) 0) with (- t) by lia.
    rewrite <- Z.mul_assoc, <- Z.pow_add_r by lia.
    replace (- t + (a + t)) with a by lia. change (2 ^ 0) with 1. lia.
Qed.

Lemma scale_cross N D t n :
  0 <= n -> 
  N * (scaleD D t * 2 ^ (n + t)) = scaleN N t * (D * 2 ^ n) \/ n + t < 0.
Proof.
  intros Hn. destruct (Z.le_gt_cases 0 (n + t)) as [Hnt | Hnt]; [left | right; lia].
  unfold scaleN, scaleD.
  destruct (Z.le_gt_cases 0 t) as [Ht | Ht].
  - replace (Z.max t 0) with t by lia. replace (Z.max (- t) 0) with 0 by lia.
    rewrite Z.pow_add_r by lia. change (2 ^ 0) with 1. ring.
  - replace (Z.max t 0) with 0 by lia. replace (Z.max (- t) 0) with (- t) by lia.
    change (2 ^ 0) with 1.
    replace (2 ^ n) with (2 ^ (- t) * 2 ^ (n + t)).
    + ring.
    + rewrite <- Z.pow_add_r by lia. f_equal. lia.
Qed.

(** The rounded mantissa at the exponent of the result is the rounding of
    the scaled fraction. *)
Lemma RNE_round_int N D e :
  0 <= N -> 0 < D ->
  let e0 := Z.max (Zdigits2 (N / D) + e - 53) (-1074) in
  e <= e0 ->
  RNE N (D * 2 ^ (e0 - e)) * 2 ^ (e0 + 1074)
  = round_int (scaleN N (e + 1074)) (scaleD D (e + 1074)).
Proof.
  intros HN HD e0 Hpre.
  set (t := e + 1074).
  pose proof (scaleD_pos D t HD) as HDs. pose proof (scaleN_nonneg N t HN) as HNs.
  assert (Hfloor : 0 <= N / D) by (apply Z.div_pos; lia).
  pose proof (Zdigits2_nonneg (N / D)) as Hd0.
  assert (Hk : Z.max (Z.log2 (scaleN N t / scaleD D t) - 52) 0 = e0 + 1074).
  { set (F := scaleN N t / scaleD D t).
    assert (HF : 0 <= F) by (apply Z.div_pos; lia).
    destruct (Z.eq_dec (N / D) 0) as [E0 | NZ].
    - (* the mantissa is zero: below the least positive number *)
      unfold e0 in *. rewrite E0 in *. cbn [Zdigits2] in *.
      assert (Ht : t <= 0) by lia.
      assert (F = 0).
      { apply Z.div_small. split; [assumption |].
        replace (scaleD D t) with (scaleD D t * 2 ^ ((- t) + t))
          by (replace (- t + t) with 0 by lia; change (2 ^ 0) with 1; ring).
        apply scale_lt; try lia.
        apply div_lt_bound; [assumption |]. rewrite E0. apply pow2_pos. lia. }
      rewrite H. cbn. lia.
    - assert (Hpos : 0 < N / D) by lia.
      pose proof (Zdigits2_lt (N / D) Hfloor) as Hlt.
      pose proof (Zdigits2_ge (N / D) Hpos) as Hge.
      set (d := Zdigits2 (N / D)) in *.
      assert (Hd1 : 1 <= d).
      { unfold d. rewrite Zdigits2_log2 by lia. pose proof (Z.log2_nonneg (N / D)). lia. }
      apply div_lt_bound in Hlt; [| assumption].
      apply div_ge_bound in Hge; [| assumption].
      destruct (Z.le_gt_cases (d + t) 53) as [Hsmall | Hbig].
      + (* subnormal range *)
        assert (F < 2 ^ 53).
        { apply Z.div_lt_upper_bound; [assumption |].
          set (a := Z.max d (- t)).
          assert (N < D * 2 ^ a).
          { assert (2 ^ d <= 2 ^ a) by (apply pow2_le; lia). nia. }
          pose proof (scale_lt N D t a ltac:(lia) ltac:(lia) H) as Hs.
          assert (2 ^ (a + t) <= 2 ^ 53) by (apply pow2_le; lia). nia. }
        assert (Z.log2 F < 53).
        { destruct (Z.eq_dec F 0) as [-> | NZF]; [cbn; lia |].
          apply Z.log2_lt_pow2; lia. }
        unfold e0. lia.
      + assert (Hlog : Z.log2 F = d + t - 1).
        { apply Z.log2_unique; [lia |]. split.
          - apply Z.div_le_lower_bound; [assumption |].
            pose proof (scale_ge N D t (d - 1) ltac:(lia) ltac:(lia) Hge) as Hs.
            replace (d - 1 + t) with (d + t - 1) in Hs by lia. lia.
          - apply Z.div_lt_upper_bound; [assumption |].
            pose proof (scale_lt N D t d ltac:(lia) ltac:(lia) Hlt) as Hs.
            replace (Z.succ (d + t - 1)) with (d + t) by lia. lia. }
        unfold e0. lia. }
  unfold round_int. rewrite Hk. f_equal.
  apply RNE_ext.
  - pose proof (pow2_pos (e0 - e) ltac:(lia)). nia.
  - pose proof (pow2_pos (e0 + 1074) ltac:(unfold e0; lia)). nia.
  - destruct (scale_cross N D t (e0 - e) ltac:(lia)) as [H | H].
    + replace (e0 - e + t) with (e0 + 1074) in H by (unfold t; lia). exact H.
    + unfold t, e0 in H. lia.
Qed.

Lemma binary_round_aux_round_int s N D e :
  0 <= N -> 0 < D ->
  e <= fexp prec emax (Zdigits2 (N / D) + e) ->
  let r := binary_round_aux prec emax s (N / D) e (loc N D) in
  has_sign s r
  /\ ival r
     = Z.min (round_int (scaleN N (e + 1074)) (scaleD D (e + 1074))) (2 ^ 2098).
Proof.
  intros HN HD Hpre r.
  destruct (binary_round_aux_ival s N D e HN HD Hpre) as [Hs Hv].
  split; [exact Hs |]. subst r. rewrite Hv. f_equal.
  rewrite fexp_eq in *. now apply RNE_round_int.
Qed.

Lemma mul_lt_bound a A p P : 0 <= a < A -> 0 < p <= P -> a * p < A * P.
Proof. intros. nia. Qed.

Lemma mul_le_bound a A p P : 0 <= A <= a -> 0 <= P <= p -> A * P <= a * p.
Proof. intros. nia. Qed.

(** ** Valid numbers *)

Lemma valid_finite s m e :
  valid_binary (S754_finite s m e) = true ->
  -1074 <= e <= 971
  /\ Z.pos m < 2 ^ 53
  /\ (-1074 < e -> 2 ^ 52 <= Z.pos m)
  /\ e = Z.max (Zdigits2 (Z.pos m) + e - 53) (-1074).
Proof.
  cbn [valid_binary]. unfold bounded, canonical_mantissa.
  intros H. apply andb_prop in H. destruct H as [Hc Hb].
  apply Z.eqb_eq in Hc. apply Z.leb_le in Hb.
  rewrite fexp_eq in Hc. change (Z.sub emax prec) with 971 in Hb.
  change (Z.pos (digits2_pos m)) with (Zdigits2 (Z.pos m)) in Hc.
  assert (Hd : Zdigits2 (Z.pos m) <= 53) by lia.
  repeat split; try lia.
  - apply Zdigits2_le_iff; lia.
  - intros Hn. assert (Zdigits2 (Z.pos m) = 53) by lia.
    pose proof (Zdigits2_ge (Z.pos m) ltac:(lia)) as Hge.
    rewrite H in Hge. exact Hge.
Qed.

Lemma ival_finite_bounds s m e :
  valid_binary (S754_finite s m e) = true ->
  0 < ival (S754_finite s m e) < 2 ^ 2098.
Proof.
  intros Hv. apply valid_finite in Hv. destruct Hv as (He & Hm & _ & _).
  cbn [ival]. pose proof (pow2_pos (e + 1074) ltac:(lia)).
  assert (2 ^ (e + 1074) <= 2 ^ 2045) by (apply pow2_le; lia).
  change (2 ^ 2098) with (2 ^ 53 * 2 ^ 2045). split.
  - apply Z.mul_pos_pos; lia.
  - apply mul_lt_bound; split; try assumption. apply Pos2Z.is_nonneg.
Qed.

Lemma ival_nonneg x : 0 <= ival x.
Proof.
  destruct x as [s | s | | s m e]; cbn [ival]; lia.
Qed.

(** The order of two valid finite numbers is the order of their values. *)
Lemma finite_compare m1 e1 m2 e2 :
  valid_binary (S754_finite false m1 e1) = true ->
  valid_binary (S754_finite false m2 e2) = true ->
  SFcompare (S754_finite false m1 e1) (S754_finite false m2 e2)
  = Some (ival (S754_finite false m1 e1) ?= ival (S754_finite false m2 e2)).
Proof.
  intros V1 V2. apply valid_finite in V1, V2.
  destruct V1 as (He1 & Hm1 & Hn1 & _). destruct V2 as (He2 & Hm2 & Hn2 & _).
  cbn [SFcompare ival]. f_equal.
  pose proof (pow2_pos (e1 + 1074) ltac:(lia)) as P1.
  pose proof (pow2_pos (e2 + 1074) ltac:(lia)) as P2.
  destruct (Z.compare_spec e1 e2) as [E | L | G].
  - subst e2. rewrite Pos.compare_cont_spec.
    symmetry. destruct (Pos.compare_spec m1 m2) as [E | L | G]; cbn [Pos.switch_Eq].
    + rewrite E. apply Z.compare_refl.
    + apply Z.compare_lt_iff. apply Z.mul_lt_mono_pos_r; lia.
    + apply Z.compare_gt_iff. apply Z.mul_lt_mono_pos_r; lia.
  - symmetry. apply Z.compare_lt_iff.
    specialize (Hn2 ltac:(lia)).
    assert (2 * 2 ^ (e1 + 1074) <= 2 ^ (e2 + 1074)).
    { rewrite <- (Z.pow_succ_r 2) by lia. apply pow2_le. lia. }
    change (2 ^ 53) with (2 * 2 ^ 52) in Hm1. nia.
  - symmetry. apply Z.compare_gt_iff.
    specialize (Hn1 ltac:(lia)).
    assert (2 * 2 ^ (e2 + 1074) <= 2 ^ (e1 + 1074)).
    { rewrite <- (Z.pow_succ_r 2) by lia. apply pow2_le. lia. }
    change (2 ^ 53) with (2 * 2 ^ 52) in Hm2. nia.
Qed.

(** Numbers that are not negative: the sign bit is clear. *)
Definition nonneg (x : spec_float) : Prop := has_sign false x.

Lemma compare_nonneg x y :
  valid_binary x = true -> valid_binary y = true ->
  nonneg x -> nonneg y ->
  SFcompare x y = Some (ival x ?= ival y).
Proof.
  intros Vx Vy Hx Hy.
  destruct x as [[] | [] | | [] mx ex]; cbn in Hx; try discriminate; try contradiction;
  destruct y as [[] | [] | | [] my ey]; cbn in Hy; try discriminate; try contradiction;
    try reflexivity.
  - pose proof (ival_finite_bounds _ _ _ Vy) as B. cbn [SFcompare].
    f_equal. symmetry. apply Z.compare_lt_iff. cbn [ival] in *. lia.
  - pose proof (ival_finite_bounds _ _ _ Vy) as B. cbn [SFcompare].
    f_equal. symmetry. apply Z.compare_gt_iff. cbn [ival] in *. lia.
  - pose proof (ival_finite_bounds _ _ _ Vx) as B. cbn [SFcompare].
    f_equal. symmetry. apply Z.compare_gt_iff. cbn [ival] in *. lia.
  - pose proof (ival_finite_bounds _ _ _ Vx) as B. cbn [SFcompare].
    f_equal. symmetry. apply Z.compare_lt_iff. cbn [ival] in *. lia.
  - now apply finite_compare.
Qed.

Lemma SFleb_nonneg x y :
  valid_binary x = true -> valid_binary y = true ->
  nonneg x -> nonneg y ->
  SFleb x y = (ival x <=? ival y).
Proof.
  intros. unfold SFleb. rewrite compare_nonneg by assumption.
  unfold Z.leb. now destruct (ival x ?= ival y).
Qed.

Lemma SFltb_nonneg x y :
  valid_binary x = true -> valid_binary y = true ->
  nonneg x -> nonneg y ->
  SFltb x y = (ival x <? ival y).
Proof.
  intros. unfold SFltb. rewrite compare_nonneg by assumption.
  unfold Z.ltb. now destruct (ival x ?= ival y).
Qed.

(** If [N * 2^a / (D * 2^b)] is the fraction [N'/D'], and [t = a - b],
    then [N'/D'] is [N/D * 2^t]. *)
Lemma scale_as N D t N' D' a b :
  0 <= a -> 0 <= b -> t = a - b ->
  N * 2 ^ a * D' = N' * (D * 2 ^ b) ->
  scaleN N t * D' = N' * scaleD D t.
Proof.
  intros Ha Hb Ht H. unfold scaleN, scaleD.
  destruct (Z.le_gt_cases 0 t) as [Hs | Hs].
  - replace (Z.max t 0) with t by lia. replace (Z.max (- t) 0) with 0 by lia.
    change (2 ^ 0) with 1. replace a with (t + b) in H by lia.
    rewrite Z.pow_add_r in H by lia.
    pose proof (pow2_pos b Hb).
    apply Z.mul_reg_r with (2 ^ b); [lia |].
    replace (N * 2 ^ t * D' * 2 ^ b) with (N * (2 ^ t * 2 ^ b) * D') by ring.
    rewrite H. ring.
  - replace (Z.max t 0) with 0 by lia. replace (Z.max (- t) 0) with (- t) by lia.
    change (2 ^ 0) with 1. replace b with (a + - t) in H by lia.
    rewrite Z.pow_add_r in H by lia.
    pose proof (pow2_pos a Ha).
    apply Z.mul_reg_r with (2 ^ a); [lia |].
    replace (N * 1 * D' * 2 ^ a) with (N * 2 ^ a * D') by ring.
    rewrite H. ring.
Qed.

Abbreviation F64 := (S754_finite false).

(** *** Multiplication *)

Lemma SFmul_finite sx mx ex sc mc ec :
  valid_binary (S754_finite sx mx ex) = true ->
  valid_binary (S754_finite sc mc ec) = true ->
  let r := SFmul prec emax (S754_finite sx mx ex) (S754_finite sc mc ec) in
  has_sign (xorb sx sc) r
  /\ ival r
     = Z.min (round_int (ival (F64 mx ex) * ival (F64 mc ec)) (2 ^ 1074))
         (2 ^ 2098).
Proof.
  intros Vx Vc r. subst r.
  apply valid_finite in Vx, Vc.
  destruct Vx as (Hex & Hmx & Hnx & _). destruct Vc as (Hec & Hmc & Hnc & _).
  cbn [ival].
  set (N := Z.pos (mx * mc)).
  assert (HN : N = Z.pos mx * Z.pos mc) by reflexivity.
  assert (Hop : SFmul prec emax (S754_finite sx mx ex) (S754_finite sc mc ec)
                = binary_round_aux prec emax (xorb sx sc) (N / 1) (ex + ec)
                    (loc N 1)).
  { cbn [SFmul]. unfold loc. now rewrite Z.mod_1_r, Z.div_1_r. }
  rewrite Hop. clear Hop.
  assert (Hpre : ex + ec <= fexp prec emax (Zdigits2 (N / 1) + (ex + ec))).
  { rewrite fexp_eq, Z.div_1_r.
    destruct (Z.le_gt_cases (ex + ec) (-1074)) as [Hlow | Hhigh]; [lia |].
    assert (2 ^ 52 <= N).
    { destruct (Z.eq_dec ex (-1074)) as [E | NE].
      - specialize (Hnc ltac:(lia)). nia.
      - specialize (Hnx ltac:(lia)). nia. }
    assert (53 <= Zdigits2 N).
    { destruct (Z.le_gt_cases 53 (Zdigits2 N)) as [? | Hlt]; [assumption |].
      assert (Zdigits2 N <= 52) by lia.
      apply Zdigits2_le_iff in H0; lia. }
    lia. }
  destruct (binary_round_aux_round_int (xorb sx sc) N 1 (ex + ec)
              ltac:(lia) ltac:(lia) Hpre) as [Hs Hv].
  split; [exact Hs |]. rewrite Hv. f_equal.
  apply round_int_ext.
  - apply scaleN_nonneg; lia.
  - apply Z.mul_nonneg_nonneg; apply Z.mul_nonneg_nonneg; try lia; apply Z.pow_nonneg; lia.
  - apply scaleD_pos; lia.
  - apply pow2_pos; lia.
  - apply (scale_as N 1 (ex + ec + 1074) _ _ ((ex + 1074) + (ec + 1074)) 1074);
      try lia.
    rewrite HN. rewrite Z.pow_add_r by lia. ring.
Qed.

(** *** Alignment and normalization *)

Lemma iter_xO m d : Z.pos (Pos.iter xO m d) = Z.pos m * 2 ^ Z.pos d.
Proof.
  induction d as [| d IH] using Pos.peano_ind.
  - cbn [Pos.iter]. rewrite Z.pow_1_r. lia.
  - rewrite Pos.iter_succ, Pos2Z.inj_succ, Z.pow_succ_r by lia.
    rewrite Pos2Z.inj_xO, IH. ring.
Qed.

Lemma shl_align_spec m e e' :
  Z.pos (fst (shl_align m e e')) = Z.pos m * 2 ^ Z.max (e - e') 0
  /\ snd (shl_align m e e') = Z.min e e'.
Proof.
  unfold shl_align. destruct (e' - e) as [| d | d] eqn:E; cbn [fst snd].
  - replace (Z.max (e - e') 0) with 0 by lia. change (2 ^ 0) with 1. lia.
  - replace (Z.max (e - e') 0) with 0 by lia. change (2 ^ 0) with 1. lia.
  - rewrite iter_xO. replace (Z.max (e - e') 0) with (Z.pos d) by lia. lia.
Qed.

Lemma Zdigits2_mul_pow2 m k :
  0 < m -> 0 <= k -> Zdigits2 (m * 2 ^ k) = Zdigits2 m + k.
Proof.
  intros Hm Hk. pose proof (pow2_pos k Hk).
  rewrite !Zdigits2_log2 by nia. rewrite Z.log2_mul_pow2 by lia. lia.
Qed.

Lemma binary_round_ival s m e :
  let r := binary_round prec emax s m e in
  has_sign s r
  /\ ival r
     = Z.min (round_int (scaleN (Z.pos m) (e + 1074)) (scaleD 1 (e + 1074)))
         (2 ^ 2098).
Proof.
  intros r. subst r. unfold binary_round.
  set (f := fexp prec emax (Z.pos (digits2_pos m) + e)).
  destruct (shl_align_spec m e f) as [Hm He].
  destruct (shl_align m e f) as [mz ez]. cbn [fst snd] in Hm, He.
  set (k := Z.max (e - f) 0) in *.
  assert (Hk : 0 <= k) by lia.
  assert (Hop : binary_round_aux prec emax s (Z.pos mz) ez loc_Exact
                = binary_round_aux prec emax s (Z.pos mz / 1) ez (loc (Z.pos mz) 1)).
  { unfold loc. now rewrite Z.mod_1_r, Z.div_1_r. }
  rewrite Hop. clear Hop.
  assert (Hpre : ez <= fexp prec emax (Zdigits2 (Z.pos mz / 1) + ez)).
  { rewrite Z.div_1_r, Hm, Zdigits2_mul_pow2 by lia.
    replace (Zdigits2 (Z.pos m) + k + ez) with (Z.pos (digits2_pos m) + e)
      by (cbn [Zdigits2]; lia).
    fold f. lia. }
  destruct (binary_round_aux_round_int s (Z.pos mz) 1 ez ltac:(lia) ltac:(lia) Hpre)
    as [Hs Hv].
  split; [exact Hs |]. rewrite Hv. f_equal.
  apply round_int_ext.
  - apply scaleN_nonneg; lia.
  - apply scaleN_nonneg; lia.
  - apply scaleD_pos; lia.
  - apply scaleD_pos; lia.
  - set (t := e + 1074).
    apply (scale_as (Z.pos mz) 1 (ez + 1074) _ _ (Z.max t 0) (Z.max (- t) 0 + k));
      try lia.
    unfold scaleN, scaleD. rewrite Hm. rewrite (Z.pow_add_r 2 (Z.max (- t) 0) k) by lia.
    ring.
Qed.

(** *** Addition *)

Lemma SFadd_finite mx ex mc ec :
  valid_binary (F64 mx ex) = true -> valid_binary (F64 mc ec) = true ->
  let r := SFadd prec emax (F64 mx ex) (F64 mc ec) in
  nonneg r
  /\ ival r
     = Z.min (round_int (ival (F64 mx ex) + ival (F64 mc ec)) 1) (2 ^ 2098).
Proof.
  intros Vx Vc r. subst r.
  apply valid_finite in Vx, Vc.
  destruct Vx as (Hex & _). destruct Vc as (Hec & _).
  cbn [SFadd cond_Zopp ival].
  set (ez := Z.min ex ec).
  assert (Hez : ez = Z.min ex ec) by reflexivity. clearbody ez.
  destruct (shl_align_spec mx ex ez) as [Hx _].
  destruct (shl_align_spec mc ec ez) as [Hc _].
  set (ax := fst (shl_align mx ex ez)) in *.
  set (ac := fst (shl_align mc ec ez)) in *.
  change (Z.pos ax + Z.pos ac) with (Z.pos (ax + ac)).
  cbn [binary_normalize].
  destruct (binary_round_ival false (ax + ac) ez) as [Hs Hv].
  split; [exact Hs |]. rewrite Hv. f_equal.
  apply round_int_ext.
  - apply scaleN_nonneg; lia.
  - apply Z.add_nonneg_nonneg; apply Z.mul_nonneg_nonneg; try lia; apply Z.pow_nonneg; lia.
  - apply scaleD_pos; lia.
  - lia.
  - unfold scaleN, scaleD.
    replace (Z.max (ez + 1074) 0) with (ez + 1074) by lia.
    replace (Z.max (- (ez + 1074)) 0) with 0 by lia.
    change (2 ^ 0) with 1. rewrite Pos2Z.inj_add, Hx, Hc.
    replace (ex + 1074) with (Z.max (ex - ez) 0 + (ez + 1074)) by lia.
    replace (ec + 1074) with (Z.max (ec - ez) 0 + (ez + 1074)) by lia.
    rewrite (Z.pow_add_r 2 (Z.max (ex - ez) 0) (ez + 1074)) by lia.
    rewrite (Z.pow_add_r 2 (Z.max (ec - ez) 0) (ez + 1074)) by lia.
    ring.
Qed.

(** *** Division *)

Lemma new_location_loc N D : 0 < D -> new_location D (N mod D) = loc N D.
Proof.
  intros HD. pose proof (Z.mod_pos_bound N D HD) as Hb.
  unfold new_location, new_location_even, new_location_odd, loc.
  destruct (Z.even D) eqn:Ev; [reflexivity |].
  destruct (Z.eqb_spec (N mod D) 0); [reflexivity |]. f_equal.
  assert (Hodd : Z.odd D = true) by (rewrite <- Z.negb_even, Ev; reflexivity).
  apply Z.odd_spec in Hodd. destruct Hodd as [k Hk].
  destruct (Z.compare_spec (2 * (N mod D) + 1) D);
    destruct (Z.compare_spec (2 * (N mod D)) D); try reflexivity; lia.
Qed.

Lemma pow2_lt_inv a b : 0 <= b -> 2 ^ a < 2 ^ b -> a < b.
Proof.
  intros Hb H. destruct (Z.le_gt_cases b a) as [Hle | ?]; [| assumption].
  pose proof (pow2_le b a ltac:(lia)). lia.
Qed.

Lemma SFdiv_finite mx ex mc ec :
  valid_binary (F64 mx ex) = true -> valid_binary (F64 mc ec) = true ->
  let r := SFdiv prec emax (F64 mx ex) (F64 mc ec) in
  nonneg r
  /\ ival r
     = Z.min (round_int (ival (F64 mx ex) * 2 ^ 1074) (ival (F64 mc ec)))
         (2 ^ 2098).
Proof.
  intros Vx Vc r. subst r.
  apply valid_finite in Vx, Vc.
  destruct Vx as (Hex & _). destruct Vc as (Hec & _).
  cbn [SFdiv xorb ival]. unfold SFdiv_core_binary.
  rewrite fexp_eq.
  set (d1 := Zdigits2 (Z.pos mx)). set (d2 := Zdigits2 (Z.pos mc)).
  set (g := d1 + ex - (d2 + ec)).
  set (e' := Z.min (Z.max (g - 53) (-1074)) (ex - ec)).
  assert (He' : e' = Z.min (Z.max (g - 53) (-1074)) (ex - ec)) by reflexivity.
  clearbody e'.
  set (s := ex - ec - e'). assert (Hs : 0 <= s) by (unfold s; lia).
  assert (Hsdef : s = ex - ec - e') by reflexivity. clearbody s.
  set (m' := match s with
             | 0 => Z.pos mx
             | Z.pos _ => Z.shiftl (Z.pos mx) s
             | Z.neg _ => 0
             end).
  assert (Hm' : m' = Z.pos mx * 2 ^ s).
  { unfold m'. clear Hsdef.
    destruct s as [| p | p];
      [change (2 ^ 0) with 1; lia | apply Z.shiftl_mul_pow2; lia | lia]. }
  clearbody m'.
  pose proof (pow2_pos s Hs) as Hps.
  assert (Hm'pos : 0 < m') by nia.
  assert (Hde : Z.div_eucl m' (Z.pos mc) = (m' / Z.pos mc, m' mod Z.pos mc)).
  { unfold Z.div, Z.modulo. now destruct (Z.div_eucl m' (Z.pos mc)). }
  rewrite Hde. rewrite new_location_loc by lia.
  (* digits of the operands *)
  pose proof (Zdigits2_lt (Z.pos mx) ltac:(lia)) as Hx1.
  pose proof (Zdigits2_ge (Z.pos mx) ltac:(lia)) as Hx2.
  pose proof (Zdigits2_lt (Z.pos mc) ltac:(lia)) as Hc1.
  pose proof (Zdigits2_ge (Z.pos mc) ltac:(lia)) as Hc2.
  fold d1 in Hx1, Hx2. fold d2 in Hc1, Hc2.
  assert (Hd1 : 1 <= d1).
  { unfold d1. rewrite Zdigits2_log2 by lia. pose proof (Z.log2_nonneg (Z.pos mx)). lia. }
  assert (Hd2 : 1 <= d2).
  { unfold d2. rewrite Zdigits2_log2 by lia. pose proof (Z.log2_nonneg (Z.pos mc)). lia. }
  assert (Hlow' : 2 ^ (d1 - 1 + s) <= m').
  { rewrite Z.pow_add_r by lia. nia. }
  assert (Hpre : e' <= fexp prec emax (Zdigits2 (m' / Z.pos mc) + e')).
  { rewrite fexp_eq.
    assert (Hq : 0 <= m' / Z.pos mc) by (apply Z.div_pos; lia).
    destruct (Z.eq_dec (m' / Z.pos mc) 0) as [E0 | NZ].
    - rewrite E0. cbn [Zdigits2].
      assert (m' < Z.pos mc).
      { pose proof (div_lt_bound m' (Z.pos mc) 1 ltac:(lia) ltac:(lia)). lia. }
      assert (2 ^ (d1 - 1 + s) < 2 ^ d2) by lia.
      apply pow2_lt_inv in H0; lia.
    - set (dq := Zdigits2 (m' / Z.pos mc)).
      assert (Hdq : d1 - d2 + s <= dq).
      { destruct (Z.le_gt_cases (d1 - d2 + s) 1) as [Hsmall | Hbig].
        - unfold dq. rewrite Zdigits2_log2 by lia.
          pose proof (Z.log2_nonneg (m' / Z.pos mc)). lia.
        - destruct (Z.le_gt_cases (d1 - d2 + s) dq) as [? | Hlt]; [assumption |].
          exfalso.
          assert (Hle : dq <= d1 - d2 + s - 1) by lia.
          apply Zdigits2_le_iff in Hle; try lia.
          apply div_lt_bound in Hle; [| lia].
          assert (2 ^ (d1 - 1 + s) = 2 ^ d2 * 2 ^ (d1 - d2 + s - 1)).
          { rewrite <- Z.pow_add_r by lia. f_equal. lia. }
          pose proof (pow2_pos (d1 - d2 + s - 1) ltac:(lia)).
          nia. }
      unfold g in *. lia. }
  destruct (binary_round_aux_round_int false m' (Z.pos mc) e' ltac:(lia) ltac:(lia) Hpre)
    as [Hsg Hv].
  split; [exact Hsg |]. rewrite Hv. f_equal.
  pose proof (pow2_pos (ex + 1074) ltac:(lia)).
  pose proof (pow2_pos (ec + 1074) ltac:(lia)).
  apply round_int_ext.
  - apply scaleN_nonneg; lia.
  - apply Z.mul_nonneg_nonneg; [nia | lia].
  - apply scaleD_pos; lia.
  - nia.
  - set (t := e' + 1074).
    apply (scale_as m' (Z.pos mc) t _ _ (Z.max t 0) (Z.max (- t) 0)); try lia.
    rewrite Hm'.
    assert (2 ^ s * 2 ^ Z.max t 0 * 2 ^ (ec + 1074)
            = 2 ^ (ex + 1074) * 2 ^ 1074 * 2 ^ Z.max (- t) 0).
    { rewrite <- !Z.pow_add_r by lia. f_equal. unfold t. lia. }
    set (A := 2 ^ s) in *. set (B := 2 ^ Z.max t 0) in *.
    set (C := 2 ^ (ec + 1074)) in *. set (E := 2 ^ (ex + 1074)) in *.
    set (G := 2 ^ Z.max (- t) 0) in *. set (K := 2 ^ 1074) in *.
    transitivity (Z.pos mx * Z.pos mc * (A * B * C)); [ring |].
    rewrite H1. ring.
Qed.

Definition INF : Z := 2 ^ 2098.

(** Non-negative and not infinite: [+0] or a positive finite number. *)
Definition finite_nn (x : spec_float) : Prop :=
  match x with
  | S754_zero false | S754_finite false _ _ => True
  | _ => False
  end.

Lemma finite_nn_nonneg x : finite_nn x -> nonneg x.
Proof. destruct x as [[] | [] | | [] m e]; cbn; tauto. Qed.

Lemma RNE_1 m : RNE m 1 = m.
Proof.
  unfold RNE. rewrite Z.mod_1_r, Z.div_1_r. reflexivity.
Qed.

Lemma round_int_0 D : 0 < D -> round_int 0 D = 0.
Proof.
  intros HD. unfold round_int. rewrite Z.div_0_l by lia. cbn [Z.log2 Z.max Z.sub Z.opp Z.add Z.compare].
  change (Z.max (0 - 52) 0) with 0. change (2 ^ 0) with 1.
  unfold RNE. rewrite Z.mod_0_l, Z.div_0_l by lia.
  destruct (Z.compare_spec (2 * 0) (D * 1)); lia.
Qed.

(** A valid number is its own rounding. *)
Lemma round_int_exact m e :
  valid_binary (F64 m e) = true ->
  round_int (ival (F64 m e)) 1 = ival (F64 m e).
Proof.
  intros V. apply valid_finite in V. destruct V as (He & Hm & Hn & Hc).
  cbn [ival]. unfold round_int. rewrite Z.div_1_r.
  rewrite Z.log2_mul_pow2 by lia.
  rewrite Zdigits2_log2 in Hc by lia.
  replace (Z.max (e + 1074 + Z.log2 (Z.pos m) - 52) 0) with (e + 1074) by lia.
  rewrite Z.mul_1_l.
  pose proof (pow2_pos (e + 1074) ltac:(lia)).
  rewrite (RNE_ext _ _ (Z.pos m) 1) by lia.
  now rewrite RNE_1.
Qed.

Lemma min_INF_mono a b : a <= b -> Z.min a INF <= Z.min b INF.
Proof. lia. Qed.

Section NonNegative.

Variables x c : spec_float.
Hypothesis Vx : valid_binary x = true.
Hypothesis Vc : valid_binary c = true.

Lemma SFmul_nn :
  finite_nn x -> finite_nn c ->
  nonneg (SFmul prec emax x c)
  /\ ival (SFmul prec emax x c)
     = Z.min (round_int (ival x * ival c) (2 ^ 1074)) INF.
Proof.
  intros Hx Hc.
  destruct x as [[] | [] | | [] mx ex]; cbn in Hx; try contradiction;
  destruct c as [[] | [] | | [] mc ec]; cbn in Hc; try contradiction.
  - cbn [SFmul xorb ival nonneg has_sign]. rewrite Z.mul_0_l.
    rewrite round_int_0 by (apply pow2_pos; lia). split; reflexivity.
  - cbn [SFmul xorb ival nonneg has_sign]. rewrite Z.mul_0_l.
    rewrite round_int_0 by (apply pow2_pos; lia). split; reflexivity.
  - cbn [SFmul xorb ival nonneg has_sign]. rewrite Z.mul_0_r.
    rewrite round_int_0 by (apply pow2_pos; lia). split; reflexivity.
  - now apply (SFmul_finite false mx ex false mc ec).
Qed.

Lemma SFadd_nn :
  finite_nn x -> finite_nn c ->
  nonneg (SFadd prec emax x c)
  /\ ival (SFadd prec emax x c)
     = Z.min (round_int (ival x + ival c) 1) INF.
Proof.
  intros Hx Hc.
  destruct x as [[] | [] | | [] mx ex]; cbn in Hx; try contradiction;
  destruct c as [[] | [] | | [] mc ec]; cbn in Hc; try contradiction.
  - cbn. split; reflexivity.
  - cbn [SFadd nonneg has_sign]. split; [reflexivity |].
    change (ival (S754_zero false)) with 0. rewrite Z.add_0_l.
    rewrite (round_int_exact _ _ Vc).
    pose proof (ival_finite_bounds _ _ _ Vc). unfold INF in *. lia.
  - cbn [SFadd nonneg has_sign]. split; [reflexivity |].
    change (ival (S754_zero false)) with 0. rewrite Z.add_0_r.
    rewrite (round_int_exact _ _ Vx).
    pose proof (ival_finite_bounds _ _ _ Vx). unfold INF in *. lia.
  - now apply SFadd_finite.
Qed.

Lemma SFdiv_nn :
  finite_nn x -> finite_nn c -> 0 < ival c ->
  nonneg (SFdiv prec emax x c)
  /\ ival (SFdiv prec emax x c)
     = Z.min (round_int (ival x * 2 ^ 1074) (ival c)) INF.
Proof.
  intros Hx Hc Hpos.
  destruct x as [[] | [] | | [] mx ex]; cbn in Hx; try contradiction;
  destruct c as [[] | [] | | [] mc ec]; cbn in Hc; try contradiction;
    try (cbn in Hpos; lia).
  - cbn [SFdiv xorb nonneg has_sign]. split; [reflexivity |].
    change (ival (S754_zero false)) with 0. rewrite Z.mul_0_l.
    rewrite round_int_0 by assumption. reflexivity.
  - now apply SFdiv_finite.
Qed.

(** Signs: an operation on non-negative numbers gives a non-negative
    number or NaN. *)
Lemma SFmul_sign :
  nonneg x -> nonneg c -> SFmul prec emax x c <> S754_nan ->
  nonneg (SFmul prec emax x c).
Proof.
  intros Hx Hc Hn.
  destruct x as [[] | [] | | [] mx ex]; cbn in Hx; try discriminate; try contradiction;
  destruct c as [[] | [] | | [] mc ec]; cbn in Hc; try discriminate; try contradiction;
    try reflexivity; try (exfalso; apply Hn; reflexivity).
  now apply (SFmul_finite false mx ex false mc ec).
Qed.

Lemma SFadd_sign :
  nonneg x -> nonneg c -> nonneg (SFadd prec emax x c).
Proof.
  intros Hx Hc.
  destruct x as [[] | [] | | [] mx ex]; cbn in Hx; try discriminate; try contradiction;
  destruct c as [[] | [] | | [] mc ec]; cbn in Hc; try discriminate; try contradiction;
    try reflexivity.
  now apply SFadd_finite.
Qed.

Lemma SFdiv_sign :
  nonneg x -> nonneg c -> SFdiv prec emax x c <> S754_nan ->
  nonneg (SFdiv prec emax x c).
Proof.
  intros Hx Hc Hn.
  destruct x as [[] | [] | | [] mx ex]; cbn in Hx; try discriminate; try contradiction;
  destruct c as [[] | [] | | [] mc ec]; cbn in Hc; try discriminate; try contradiction;
    try reflexivity; try (exfalso; apply Hn; reflexivity).
  now apply SFdiv_finite.
Qed.

End NonNegative.

(** A square is not negative. *)
Lemma SFmul_square_sign x :
  valid_binary x = true -> x <> S754_nan -> nonneg (SFmul prec emax x x).
Proof.
  intros V Hn. destruct x as [s | s | | s m e]; try congruence.
  - cbn. now destruct s.
  - cbn. now destruct s.
  - destruct (SFmul_finite s m e s m e V V) as [Hs _].
    unfold nonneg. now rewrite xorb_nilpotent in Hs.
Qed.

(** ** The primitive numbers *)

Definition fval (x : float) : Z := ival (Prim2SF x).

(** The sign bit is clear and the number is not NaN. *)
Definition Nonneg (x : float) : Prop := nonneg (Prim2SF x).

(** Non-negative and finite. *)
Definition Fin (x : float) : Prop := finite_nn (Prim2SF x).

Lemma Fin_Nonneg x : Fin x -> Nonneg x.
Proof. apply finite_nn_nonneg. Qed.

Lemma fval_range x : 0 <= fval x <= INF.
Proof.
  unfold fval. pose proof (Prim2SF_valid x) as V.
  destruct (Prim2SF x) as [s | s | | s m e] eqn:E; cbn [ival]; unfold INF; try lia.
  pose proof (ival_finite_bounds s m e V) as B. cbn [ival] in B. lia.
Qed.

Lemma Nonneg_cases x : Nonneg x -> Fin x \/ Prim2SF x = S754_infinity false.
Proof.
  unfold Nonneg, Fin. destruct (Prim2SF x) as [[] | [] | | [] m e]; cbn; auto;
    try discriminate; try contradiction.
Qed.

Lemma Fin_lt_INF x : Nonneg x -> fval x < INF -> Fin x.
Proof.
  intros Hn Hlt. destruct (Nonneg_cases x Hn) as [H | H]; [exact H |].
  unfold fval in Hlt. rewrite H in Hlt. cbn [ival] in Hlt. unfold INF in Hlt. lia.
Qed.

Lemma Fin_fval x : Fin x -> fval x < INF.
Proof.
  unfold Fin, fval. pose proof (Prim2SF_valid x) as V.
  destruct (Prim2SF x) as [[] | [] | | [] m e]; cbn [finite_nn]; try contradiction;
    intros _.
  - cbn [ival]. unfold INF. apply pow2_pos. lia.
  - pose proof (ival_finite_bounds _ _ _ V). unfold INF. lia.
Qed.

Lemma is_nan_false x : is_nan x = false <-> Prim2SF x <> S754_nan.
Proof.
  rewrite is_nan_spec. destruct (Prim2SF x); split; congruence.
Qed.

(** Comparisons of non-negative numbers are comparisons of values. *)
Lemma leb_fval x y :
  Nonneg x -> Nonneg y -> (x <=? y)%float = (fval x <=? fval y).
Proof.
  intros Hx Hy. rewrite leb_spec. apply SFleb_nonneg; auto using Prim2SF_valid.
Qed.

Lemma ltb_fval x y :
  Nonneg x -> Nonneg y -> (x <? y)%float = (fval x <? fval y).
Proof.
  intros Hx Hy. rewrite ltb_spec. apply SFltb_nonneg; auto using Prim2SF_valid.
Qed.

(** *** Signs *)

Lemma mul_Nonneg x c :
  Nonneg x -> Nonneg c -> is_nan (x * c) = false -> Nonneg (x * c).
Proof.
  unfold Nonneg. rewrite is_nan_false, mul_spec.
  intros. apply SFmul_sign; auto using Prim2SF_valid.
Qed.

Lemma add_Nonneg x c : Nonneg x -> Nonneg c -> Nonneg (x + c).
Proof.
  unfold Nonneg. rewrite add_spec.
  intros. apply SFadd_sign; auto using Prim2SF_valid.
Qed.

Lemma div_Nonneg x c :
  Nonneg x -> Nonneg c -> is_nan (x / c) = false -> Nonneg (x / c).
Proof.
  unfold Nonneg. rewrite is_nan_false, div_spec.
  intros. apply SFdiv_sign; auto using Prim2SF_valid.
Qed.

Lemma square_Nonneg x : is_nan x = false -> Nonneg (x * x).
Proof.
  unfold Nonneg. rewrite is_nan_false, mul_spec.
  intros. apply SFmul_square_sign; auto using Prim2SF_valid.
Qed.

(** *** Values of finite operations *)

Lemma mul_fval x c :
  Fin x -> Fin c ->
  Nonneg (x * c)
  /\ fval (x * c) = Z.min (round_int (fval x * fval c) (2 ^ 1074)) INF.
Proof.
  unfold Fin, Nonneg, fval. rewrite mul_spec.
  intros. apply SFmul_nn; auto using Prim2SF_valid.
Qed.

Lemma add_fval x c :
  Fin x -> Fin c ->
  Nonneg (x + c)
  /\ fval (x + c) = Z.min (round_int (fval x + fval c) 1) INF.
Proof.
  unfold Fin, Nonneg, fval. rewrite add_spec.
  intros. apply SFadd_nn; auto using Prim2SF_valid.
Qed.

Lemma div_fval x c :
  Fin x -> Fin c -> 0 < fval c ->
  Nonneg (x / c)
  /\ fval (x / c) = Z.min (round_int (fval x * 2 ^ 1074) (fval c)) INF.
Proof.
  unfold Fin, Nonneg, fval. rewrite div_spec.
  intros. apply SFdiv_nn; auto using Prim2SF_valid.
Qed.

(** *** Monotonicity *)

(** The result of an operation is [Infinity]. *)
Definition is_inf (x : float) : Prop := Prim2SF x = S754_infinity false.

Lemma is_inf_fval x : is_inf x -> Nonneg x /\ fval x = INF.
Proof. unfold is_inf, Nonneg, fval. intros ->. split; reflexivity. Qed.

Lemma inf_of_fval x : Nonneg x -> INF <= fval x -> is_inf x.
Proof.
  intros Hn Hv. destruct (Nonneg_cases x Hn) as [H | H]; [| exact H].
  apply Fin_fval in H. lia.
Qed.

Lemma mul_mono x x' c c' :
  Nonneg x -> Nonneg x' -> Nonneg c -> Nonneg c' ->
  fval x <= fval x' -> fval c <= fval c' ->
  is_nan (x * c) = false -> is_nan (x' * c') = false ->
  fval (x * c) <= fval (x' * c').
Proof.
  intros Hx Hx' Hc Hc' Lx Lc Nn Nn'.
  pose proof (fval_range x) as Rx. pose proof (fval_range c) as Rc.
  destruct (Nonneg_cases x' Hx') as [Fx' | Ix'];
  destruct (Nonneg_cases c' Hc') as [Fc' | Ic'].
  - pose proof (Fin_fval _ Fx'). pose proof (Fin_fval _ Fc').
    assert (Fx : Fin x) by (apply Fin_lt_INF; [assumption | lia]).
    assert (Fc : Fin c) by (apply Fin_lt_INF; [assumption | lia]).
    destruct (mul_fval x c Fx Fc) as [_ ->].
    destruct (mul_fval x' c' Fx' Fc') as [_ ->].
    apply min_INF_mono. apply round_int_mono.
    + apply Z.mul_nonneg_nonneg; lia.
    + apply pow2_pos; lia.
    + apply pow2_pos; lia.
    + apply Z.mul_le_mono_nonneg_r; [apply Z.lt_le_incl, pow2_pos; lia |].
      apply Z.mul_le_mono_nonneg; lia.
  - assert (is_inf (x' * c')).
    { apply is_nan_false in Nn'. unfold is_inf. rewrite mul_spec in *.
      unfold Fin in Fx'. rewrite Ic' in *.
      destruct (Prim2SF x') as [[] | [] | | [] m e]; cbn in *; try contradiction;
        congruence. }
    apply is_inf_fval in H. destruct H as [_ ->]. apply fval_range.
  - assert (is_inf (x' * c')).
    { apply is_nan_false in Nn'. unfold is_inf. rewrite mul_spec in *.
      unfold Fin in Fc'. rewrite Ix' in *.
      destruct (Prim2SF c') as [[] | [] | | [] m e]; cbn in *; try contradiction;
        congruence. }
    apply is_inf_fval in H. destruct H as [_ ->]. apply fval_range.
  - assert (is_inf (x' * c')).
    { unfold is_inf. rewrite mul_spec, Ix', Ic'. reflexivity. }
    apply is_inf_fval in H. destruct H as [_ ->]. apply fval_range.
Qed.

Lemma add_mono x x' c c' :
  Nonneg x -> Nonneg x' -> Nonneg c -> Nonneg c' ->
  fval x <= fval x' -> fval c <= fval c' ->
  fval (x + c) <= fval (x' + c').
Proof.
  intros Hx Hx' Hc Hc' Lx Lc.
  pose proof (fval_range x) as Rx. pose proof (fval_range c) as Rc.
  destruct (Nonneg_cases x' Hx') as [Fx' | Ix'];
  destruct (Nonneg_cases c' Hc') as [Fc' | Ic'].
  - pose proof (Fin_fval _ Fx'). pose proof (Fin_fval _ Fc').
    assert (Fx : Fin x) by (apply Fin_lt_INF; [assumption | lia]).
    assert (Fc : Fin c) by (apply Fin_lt_INF; [assumption | lia]).
    destruct (add_fval x c Fx Fc) as [_ ->].
    destruct (add_fval x' c' Fx' Fc') as [_ ->].
    apply min_INF_mono. apply round_int_mono; lia.
  - assert (is_inf (x' + c')).
    { unfold is_inf. rewrite add_spec. unfold Fin in Fx'. rewrite Ic'.
      destruct (Prim2SF x') as [[] | [] | | [] m e]; cbn in *; try contradiction;
        reflexivity. }
    apply is_inf_fval in H. destruct H as [_ ->]. apply fval_range.
  - assert (is_inf (x' + c')).
    { unfold is_inf. rewrite add_spec. unfold Fin in Fc'. rewrite Ix'.
      destruct (Prim2SF c') as [[] | [] | | [] m e]; cbn in *; try contradiction;
        reflexivity. }
    apply is_inf_fval in H. destruct H as [_ ->]. apply fval_range.
  - assert (is_inf (x' + c')).
    { unfold is_inf. rewrite add_spec, Ix', Ic'. reflexivity. }
    apply is_inf_fval in H. destruct H as [_ ->]. apply fval_range.
Qed.

Lemma div_mono x x' c c' :
  Nonneg x -> Nonneg x' -> Nonneg c -> Nonneg c' ->
  fval x <= fval x' -> fval c' <= fval c ->
  is_nan (x / c) = false -> is_nan (x' / c') = false ->
  fval (x / c) <= fval (x' / c').
Proof.
  intros Hx Hx' Hc Hc' Lx Lc Nn Nn'.
  pose proof (fval_range x) as Rx. pose proof (fval_range c') as Rc'.
  destruct (Nonneg_cases x' Hx') as [Fx' | Ix'].
  - pose proof (Fin_fval _ Fx').
    assert (Fx : Fin x) by (apply Fin_lt_INF; [assumption | lia]).
    destruct (Nonneg_cases c Hc) as [Fc | Ic].
    + pose proof (Fin_fval _ Fc).
      assert (Fc' : Fin c') by (apply Fin_lt_INF; [assumption | lia]).
      destruct (Z.eq_dec (fval c') 0) as [Z0 | NZ].
      * (* division by zero *)
        assert (is_inf (x' / c')).
        { apply is_nan_false in Nn'. unfold is_inf. rewrite div_spec in *.
          unfold Fin, fval in *.
          pose proof (Prim2SF_valid c') as Vc'.
          destruct (Prim2SF c') as [[] | [] | | [] mc ec]; cbn [finite_nn] in Fc';
            try contradiction.
          - destruct (Prim2SF x') as [[] | [] | | [] m e]; cbn in *;
              try contradiction; congruence.
          - pose proof (ival_finite_bounds _ _ _ Vc'). lia. }
        apply is_inf_fval in H1. destruct H1 as [_ ->]. apply fval_range.
      * destruct (div_fval x c Fx Fc ltac:(lia)) as [_ ->].
        destruct (div_fval x' c' Fx' Fc' ltac:(lia)) as [_ ->].
        apply min_INF_mono.
        pose proof (pow2_pos 1074 ltac:(lia)).
        assert (fval x * fval c' <= fval x' * fval c)
          by (apply Z.mul_le_mono_nonneg; lia).
        apply round_int_mono; [apply Z.mul_nonneg_nonneg; lia | lia | lia |].
        replace (fval x * 2 ^ 1074 * fval c')
          with (2 ^ 1074 * (fval x * fval c')) by ring.
        replace (fval x' * 2 ^ 1074 * fval c)
          with (2 ^ 1074 * (fval x' * fval c)) by ring.
        apply Z.mul_le_mono_nonneg_l; lia.
    + (* a finite number divided by Infinity is zero *)
      assert (fval (x / c) = 0).
      { unfold fval. rewrite div_spec, Ic. unfold Fin in Fx.
        destruct (Prim2SF x) as [[] | [] | | [] m e]; cbn in *; try contradiction;
          reflexivity. }
      rewrite H0. apply fval_range.
  - assert (is_inf (x' / c')).
    { apply is_nan_false in Nn'. unfold is_inf. rewrite div_spec in *.
      rewrite Ix' in *. unfold Nonneg in Hc'.
      destruct (Prim2SF c') as [[] | [] | | [] m e]; cbn in *; try contradiction;
        try discriminate; congruence. }
    apply is_inf_fval in H. destruct H as [_ ->]. apply fval_range.
Qed.

(** *** NaN is contagious *)

Lemma mul_not_nan x y :
  is_nan (x * y) = false -> is_nan x = false /\ is_nan y = false.
Proof.
  rewrite !is_nan_false, mul_spec.
  destruct (Prim2SF x) as [[] | [] | | [] m e]; destruct (Prim2SF y) as [[] | [] | | [] m' e'];
    cbn; intros H; split; congruence.
Qed.

Lemma add_not_nan x y :
  is_nan (x + y) = false -> is_nan x = false /\ is_nan y = false.
Proof.
  rewrite !is_nan_false, add_spec.
  destruct (Prim2SF x) as [[] | [] | | [] m e]; destruct (Prim2SF y) as [[] | [] | | [] m' e'];
    cbn; intros H; split; congruence.
Qed.

Lemma div_not_nan x y :
  is_nan (x / y) = false -> is_nan x = false /\ is_nan y = false.
Proof.
  rewrite !is_nan_false, div_spec.
  destruct (Prim2SF x) as [[] | [] | | [] m e]; destruct (Prim2SF y) as [[] | [] | | [] m' e'];
    cbn; intros H; split; congruence.
Qed.

Lemma Nonneg_not_nan x : Nonneg x -> is_nan x = false.
Proof.
  unfold Nonneg. rewrite is_nan_false.
  destruct (Prim2SF x); cbn; congruence.
Qed.

(** *** From comparisons to values *)

Lemma ltb_Nonneg a x :
  Nonneg a -> (a <? x)%float = true -> Nonneg x /\ fval a < fval x.
Proof.
  intros Ha H.
  assert (Hx : Nonneg x).
  { rewrite ltb_spec in H. unfold Nonneg in *. unfold SFltb in H.
    destruct (Prim2SF a) as [[] | [] | | [] m e]; cbn in Ha; try contradiction;
      try discriminate;
      destruct (Prim2SF x) as [[] | [] | | [] m' e']; cbn in H |- *;
      try discriminate; reflexivity. }
  split; [exact Hx |]. rewrite ltb_fval in H by assumption. now apply Z.ltb_lt.
Qed.

Lemma leb_Nonneg a x :
  Nonneg a -> 0 < fval a -> (a <=? x)%float = true ->
  Nonneg x /\ fval a <= fval x.
Proof.
  intros Ha Hpos H.
  assert (Hx : Nonneg x).
  { rewrite leb_spec in H. unfold Nonneg, fval in *. unfold SFleb in H.
    destruct (Prim2SF a) as [[] | [] | | [] m e]; cbn in Ha; try contradiction;
      try discriminate; cbn [ival] in Hpos; try lia;
      destruct (Prim2SF x) as [[] | [] | | [] m' e']; cbn in H |- *;
      try discriminate; reflexivity. }
  split; [exact Hx |]. rewrite leb_fval in H by assumption. now apply Z.leb_le.
Qed.

(** [0 <= x] holds for [-0] too, which behaves as [+0] in a sum. *)
Lemma leb_zero_cases x :
  (0 <=? x)%float = true -> Nonneg x \/ Prim2SF x = S754_zero true.
Proof.
  rewrite leb_spec. change (Prim2SF 0) with (S754_zero false).
  unfold Nonneg, SFleb.
  destruct (Prim2SF x) as [[] | [] | | [] m e]; cbn; intros H;
    try discriminate; auto.
Qed.

Lemma add_neg_zero x z :
  Nonneg x -> Prim2SF z = S754_zero true -> (x + z)%float = x.
Proof.
  intros Hx Hz. apply Prim2SF_inj. rewrite add_spec, Hz. unfold Nonneg in Hx.
  destruct (Prim2SF x) as [[] | [] | | [] m e]; cbn in *; try contradiction;
    try discriminate; reflexivity.
Qed.

Lemma positive_finite x :
  Nonneg x -> 0 < fval x < INF ->
  (0 <? x)%float = true /\ is_finite x = true.
Proof.
  intros Hx Hv. split.
  - rewrite ltb_fval; [| reflexivity | assumption].
    change (fval 0) with 0. apply Z.ltb_lt. lia.
  - rewrite is_finite_spec. unfold Nonneg, fval, INF in *.
    destruct (Prim2SF x) as [[] | [] | | [] m e]; cbn in *; try contradiction;
      try reflexivity; lia.
Qed.

(** ** Ordered pairs of non-negative numbers *)

Definition le_nn (x y : float) : Prop :=
  Nonneg x /\ Nonneg y /\ fval x <= fval y.

Lemma le_nn_refl x : Nonneg x -> le_nn x x.
Proof. intros H. repeat split; trivial. lia. Qed.

Lemma le_nn_trans x y z : le_nn x y -> le_nn y z -> le_nn x z.
Proof. intros (Hx & _ & H1) (_ & Hz & H2). repeat split; trivial. lia. Qed.

Lemma le_nn_leb x y : le_nn x y -> (x <=? y)%float = true.
Proof.
  intros (Hx & Hy & H). rewrite leb_fval by assumption. now apply Z.leb_le.
Qed.

Lemma le_nn_of_leb a x :
  Nonneg a -> 0 < fval a -> (a <=? x)%float = true -> le_nn a x.
Proof.
  intros Ha Hpos H. destruct (leb_Nonneg a x Ha Hpos H) as [Hx Hv].
  repeat split; assumption.
Qed.

Lemma le_nn_of_leb_r x b :
  Nonneg x -> Nonneg b -> (x <=? b)%float = true -> le_nn x b.
Proof.
  intros Hx Hb H. repeat split; trivial.
  rewrite leb_fval in H by assumption. now apply Z.leb_le.
Qed.

Lemma le_nn_mul x x' c c' :
  le_nn x x' -> le_nn c c' ->
  is_nan (x * c) = false -> is_nan (x' * c') = false ->
  le_nn (x * c) (x' * c').
Proof.
  intros (Hx & Hx' & Lx) (Hc & Hc' & Lc) N N'.
  repeat split; try (apply mul_Nonneg; assumption).
  now apply mul_mono.
Qed.

Lemma le_nn_add x x' c c' :
  le_nn x x' -> le_nn c c' -> le_nn (x + c) (x' + c').
Proof.
  intros (Hx & Hx' & Lx) (Hc & Hc' & Lc).
  repeat split; try (apply add_Nonneg; assumption).
  now apply add_mono.
Qed.

Lemma le_nn_div x x' c c' :
  le_nn x x' -> le_nn c' c ->
  is_nan (x / c) = false -> is_nan (x' / c') = false ->
  le_nn (x / c) (x' / c').
Proof.
  intros (Hx & Hx' & Lx) (Hc' & Hc & Lc) N N'.
  repeat split; try (apply div_Nonneg; assumption).
  now apply div_mono.
Qed.


(** *** Finite operands: the result is never NaN *)

Lemma Fin_le x hi : le_nn x hi -> Fin hi -> Fin x.
Proof.
  intros (Hx & _ & L) F. apply Fin_lt_INF; [assumption |].
  apply Fin_fval in F. lia.
Qed.

Lemma le_nn_mul_fin x x' c c' :
  le_nn x x' -> le_nn c c' -> Fin x' -> Fin c' -> le_nn (x * c) (x' * c').
Proof.
  intros Hx Hc Fx' Fc'.
  pose proof (Fin_le _ _ Hx Fx') as Fx. pose proof (Fin_le _ _ Hc Fc') as Fc.
  apply le_nn_mul; trivial; apply Nonneg_not_nan; now apply mul_fval.
Qed.

Lemma le_nn_div_fin x x' c c' :
  le_nn x x' -> le_nn c' c -> Fin x' -> Fin c -> 0 < fval c' ->
  le_nn (x / c) (x' / c').
Proof.
  intros Hx Hc Fx' Fc Hpos.
  pose proof (Fin_le _ _ Hx Fx') as Fx. pose proof (Fin_le _ _ Hc Fc) as Fc'.
  assert (0 < fval c) by (destruct Hc as (_ & _ & L); lia).
  apply le_nn_div; trivial; apply Nonneg_not_nan; now apply div_fval.
Qed.

(** ** Intervals *)

Definition between (lo x hi : float) : Prop := le_nn lo x /\ le_nn x hi.

Lemma between_const c : Nonneg c -> between c c c.
Proof. intros H. split; now apply le_nn_refl. Qed.

Lemma between_of_leb lo x hi :
  Nonneg lo -> 0 < fval lo -> Nonneg hi ->
  (lo <=? x)%float = true -> (x <=? hi)%float = true -> between lo x hi.
Proof.
  intros Hlo Hpos Hhi H1 H2.
  pose proof (le_nn_of_leb lo x Hlo Hpos H1) as L1.
  split; [exact L1 |]. apply le_nn_of_leb_r; [apply L1 | exact Hhi | exact H2].
Qed.

Lemma between_mul a x b c y d :
  between a x b -> between c y d -> Fin b -> Fin d ->
  between (a * c) (x * y) (b * d).
Proof.
  intros [H1 H2] [H3 H4] Fb Fd. split.
  - apply le_nn_mul_fin; trivial; eapply Fin_le; eassumption.
  - now apply le_nn_mul_fin.
Qed.

Lemma between_div a x b c y d :
  between a x b -> between c y d -> Fin b -> Fin d -> 0 < fval c ->
  between (a / d) (x / y) (b / c).
Proof.
  intros [H1 H2] [H3 H4] Fb Fd Hpos. split.
  - apply le_nn_div_fin; trivial.
    + eapply Fin_le; eassumption.
    + destruct H3 as (_ & _ & L). lia.
  - apply le_nn_div_fin; trivial. eapply Fin_le; eassumption.
Qed.

Lemma add_zero_r a : Nonneg a -> (a + 0)%float = a.
Proof.
  intros Ha. apply Prim2SF_inj. rewrite add_spec.
  change (Prim2SF 0) with (S754_zero false). unfold Nonneg in Ha.
  destruct (Prim2SF a) as [[] | [] | | [] m e]; cbn in *; try contradiction;
    try discriminate; reflexivity.
Qed.

(** A sum with a number [l], [0 <= l <= hi], which may be [-0]. *)
Lemma between_add_legs a x b l hi :
  between a x b -> (0 <=? l)%float = true -> (l <=? hi)%float = true ->
  Nonneg hi ->
  between (a + 0) (x + l) (b + hi).
Proof.
  intros [H1 H2] Hl Hhi Hnh.
  assert (Hz : Nonneg 0%float) by reflexivity.
  destruct (leb_zero_cases l Hl) as [Hn | Hneg].
  - assert (L0 : le_nn 0 l).
    { repeat split; trivial. change (fval 0) with 0. apply fval_range. }
    assert (L1 : le_nn l hi) by now apply le_nn_of_leb_r.
    split; now apply le_nn_add.
  - rewrite (add_neg_zero x l) by (try apply H1; assumption).
    rewrite add_zero_r by apply H1. split; [exact H1 |].
    eapply le_nn_trans; [exact H2 |].
    rewrite <- (add_zero_r b) at 1 by apply H2.
    apply le_nn_add; [apply le_nn_refl, H2 |].
    repeat split; trivial. change (fval 0) with 0. apply fval_range.
Qed.

(** ** Numbers that are not negative: non-negative or NaN *)

Definition not_negative (x : float) : Prop := Nonneg x \/ is_nan x = true.

Lemma not_negative_mul x y :
  not_negative x -> not_negative y -> not_negative (x * y).
Proof.
  intros Hx Hy. destruct (is_nan (x * y)) eqn:E; [now right | left].
  destruct (mul_not_nan _ _ E) as [Nx Ny].
  destruct Hx as [Hx | Hx]; [| congruence].
  destruct Hy as [Hy | Hy]; [| congruence].
  now apply mul_Nonneg.
Qed.

Lemma not_negative_div x y :
  not_negative x -> not_negative y -> not_negative (x / y).
Proof.
  intros Hx Hy. destruct (is_nan (x / y)) eqn:E; [now right | left].
  destruct (div_not_nan _ _ E) as [Nx Ny].
  destruct Hx as [Hx | Hx]; [| congruence].
  destruct Hy as [Hy | Hy]; [| congruence].
  now apply div_Nonneg.
Qed.

Lemma not_negative_add_legs x l :
  not_negative x -> (0 <=? l)%float = true -> not_negative (x + l).
Proof.
  intros Hx Hl. destruct (is_nan (x + l)) eqn:E; [now right | left].
  destruct (add_not_nan _ _ E) as [Nx Nl].
  destruct Hx as [Hx | Hx]; [| congruence].
  destruct (leb_zero_cases l Hl) as [Hn | Hz].
  - now apply add_Nonneg.
  - now rewrite add_neg_zero.
Qed.

Lemma not_negative_square x : not_negative (x * x).
Proof.
  destruct (is_nan (x * x)) eqn:E; [now right | left].
  destruct (mul_not_nan _ _ E) as [Nx _]. now apply square_Nonneg.
Qed.

Lemma not_negative_ltb x : not_negative x -> (x <? 0)%float = false.
Proof.
  intros [H | H].
  - rewrite ltb_fval; [| assumption | reflexivity].
    change (fval 0) with 0. apply Z.ltb_ge. apply fval_range.
  - rewrite ltb_spec. rewrite is_nan_spec in H.
    destruct (Prim2SF x); try discriminate. reflexivity.
Qed.

Lemma positive_Nonneg x : (0 <? x)%float = true -> Nonneg x /\ 0 < fval x.
Proof.
  intros H. apply (ltb_Nonneg 0 x) in H; [| reflexivity].
  exact H.
Qed.

(** ** The results of rounding are valid numbers *)

Lemma valid_finite_intro s m e :
  -1074 <= e <= 971 -> Z.pos m < 2 ^ 53 ->
  (-1074 < e -> 2 ^ 52 <= Z.pos m) ->
  valid_binary (S754_finite s m e) = true.
Proof.
  intros He Hm Hn. cbn [valid_binary]. unfold bounded, canonical_mantissa.
  apply andb_true_intro. split.
  - apply Z.eqb_eq. rewrite fexp_eq.
    change (Z.pos (digits2_pos m)) with (Zdigits2 (Z.pos m)).
    assert (Zdigits2 (Z.pos m) <= 53) by (apply Zdigits2_le_iff; lia).
    destruct (Z.eq_dec e (-1074)) as [-> | NE]; [lia |].
    specialize (Hn ltac:(lia)).
    assert (~ Zdigits2 (Z.pos m) <= 52).
    { intros H52. apply Zdigits2_le_iff in H52; lia. }
    lia.
  - apply Z.leb_le. change (Z.sub emax prec) with 971. lia.
Qed.

Lemma binary_round_aux_valid s N D e :
  0 <= N -> 0 < D ->
  e <= fexp prec emax (Zdigits2 (N / D) + e) ->
  valid_binary (binary_round_aux prec emax s (N / D) e (loc N D)) = true.
Proof.
  intros HN HD Hpre.
  set (e0 := fexp prec emax (Zdigits2 (N / D) + e)) in *.
  assert (Hpre' : e <= e0) by exact Hpre. clear Hpre.
  unfold binary_round_aux, shr_fexp.
  fold (rec N D). fold e0.
  assert (He0def : e0 = Z.max (Zdigits2 (N / D) + e - 53) (-1074)) by reflexivity.
  clearbody e0.
  rewrite shr_rec by assumption.
  replace (Z.max (e0 - e) 0) with (e0 - e) by lia.
  replace (e + (e0 - e)) with e0 by lia.
  set (n := e0 - e) in *. assert (Hn : 0 <= n) by lia.
  pose proof (pow2_pos n Hn) as Hpn.
  set (D0 := D * 2 ^ n) in *. assert (HD0 : 0 < D0) by (unfold D0; nia).
  rewrite round_nearest_even_rec by assumption.
  set (m1 := RNE N D0).
  rewrite <- rec_exact. rewrite shr_rec by (try apply RNE_nonneg; lia).
  rewrite Z.mul_1_l. cbn iota beta. rewrite shr_m_rec.
  rewrite fexp_eq.
  pose proof (Zdigits2_nonneg (N / D)) as Hd0.
  set (d := Zdigits2 (N / D)) in *.
  assert (Hfloor : 0 <= N / D) by (apply Z.div_pos; lia).
  assert (Hm1 : 0 <= m1) by (apply RNE_nonneg; lia).
  assert (He0 : -1074 <= e0) by lia.
  assert (Hup : m1 <= 2 ^ 53).
  { apply RNE_lt_bound; [assumption |].
    pose proof (Zdigits2_lt (N / D) Hfloor) as Hlt. fold d in Hlt.
    apply div_lt_bound in Hlt; [| assumption].
    assert (2 ^ d <= 2 ^ (n + 53)) by (apply pow2_le; lia).
    rewrite Z.pow_add_r in H by lia. unfold D0. nia. }
  assert (Hlow : -1074 < e0 -> 2 ^ 52 <= m1).
  { intros Hnorm. apply RNE_ge_bound; [assumption |].
    assert (Hd : n = d - 53) by lia.
    assert (0 < N / D).
    { destruct (Z.eq_dec (N / D) 0) as [E | NE]; [| lia].
      exfalso. unfold d in *. rewrite E in *. cbn in *. lia. }
    pose proof (Zdigits2_ge (N / D) H) as Hge. fold d in Hge.
    apply div_ge_bound in Hge; [| assumption].
    replace (d - 1) with (n + 52) in Hge by lia.
    rewrite Z.pow_add_r in Hge by lia. unfold D0. nia. }
  destruct (Z.eq_dec m1 (2 ^ 53)) as [Etop | Ntop].
  - rewrite Etop.
    change (Zdigits2 (2 ^ 53)) with 54.
    replace (Z.max (Z.max (54 + e0 - 53) (-1074) - e0) 0) with 1 by lia.
    change (2 ^ 53 / 2 ^ 1) with (Z.pos (2 ^ 52)).
    cbn iota beta.
    change (Z.sub emax prec) with 971.
    destruct (Z.leb_spec (e0 + 1) 971) as [Hle | Hgt]; [| reflexivity].
    apply valid_finite_intro; [lia | reflexivity |]. intros _.
    change (Z.pos (2 ^ 52)) with (2 ^ 52). lia.
  - assert (Hlt : m1 < 2 ^ 53) by lia.
    assert (Hn2 : Z.max (Z.max (Zdigits2 m1 + e0 - 53) (-1074) - e0) 0 = 0).
    { destruct (Z.eq_dec m1 0) as [-> | NZ]; [cbn; lia |].
      assert (Zdigits2 m1 <= 53) by (apply Zdigits2_le_iff; lia). lia. }
    rewrite Hn2. change (2 ^ 0) with 1. rewrite Z.div_1_r, Z.add_0_r.
    destruct m1 as [| p |] eqn:Em1; [reflexivity | | lia].
    change (Z.sub emax prec) with 971.
    destruct (Z.leb_spec e0 971) as [Hle | Hgt]; [| reflexivity].
    apply valid_finite_intro; [lia | exact Hlt | exact Hlow].
Qed.

Lemma binary_round_valid s m e :
  valid_binary (binary_round prec emax s m e) = true.
Proof.
  unfold binary_round.
  set (f := fexp prec emax (Z.pos (digits2_pos m) + e)).
  destruct (shl_align_spec m e f) as [Hm He].
  destruct (shl_align m e f) as [mz ez]. cbn [fst snd] in Hm, He.
  set (k := Z.max (e - f) 0) in *.
  assert (Hk : 0 <= k) by lia.
  assert (Hop : binary_round_aux prec emax s (Z.pos mz) ez loc_Exact
                = binary_round_aux prec emax s (Z.pos mz / 1) ez (loc (Z.pos mz) 1)).
  { unfold loc. now rewrite Z.mod_1_r, Z.div_1_r. }
  rewrite Hop. clear Hop.
  apply binary_round_aux_valid; try lia.
  rewrite Z.div_1_r, Hm, Zdigits2_mul_pow2 by lia.
  replace (Zdigits2 (Z.pos m) + k + ez) with (Z.pos (digits2_pos m) + e)
    by (cbn [Zdigits2]; lia).
  fold f. lia.
Qed.

Lemma binary_normalize_valid n :
  valid_binary (binary_normalize prec emax n 0 false) = true.
Proof. destruct n; cbn [binary_normalize]; auto using binary_round_valid. Qed.

(** ** The number of an integer *)

Definition float_of_Z (n : Z) : float :=
  SF2Prim (binary_normalize prec emax n 0 false).

Lemma Prim2SF_float_of_Z n :
  Prim2SF (float_of_Z n) = binary_normalize prec emax n 0 false.
Proof. apply Prim2SF_SF2Prim, binary_normalize_valid. Qed.

Lemma float_of_Z_fval n :
  0 <= n ->
  Nonneg (float_of_Z n)
  /\ fval (float_of_Z n) = Z.min (round_int (n * 2 ^ 1074) 1) INF.
Proof.
  intros Hn. unfold Nonneg, fval. rewrite Prim2SF_float_of_Z.
  destruct n as [| p | p]; [| | lia].
  - cbn [binary_normalize nonneg has_sign ival]. split; [reflexivity |].
    rewrite Z.mul_0_l, round_int_0 by lia. reflexivity.
  - cbn [binary_normalize].
    destruct (binary_round_ival false p 0) as [Hs Hv].
    split; [exact Hs |]. rewrite Hv. reflexivity.
Qed.

Lemma float_of_Z_mono a b :
  0 <= a <= b -> le_nn (float_of_Z a) (float_of_Z b).
Proof.
  intros H.
  destruct (float_of_Z_fval a ltac:(lia)) as [Ha Va].
  destruct (float_of_Z_fval b ltac:(lia)) as [Hb Vb].
  repeat split; trivial. rewrite Va, Vb. apply min_INF_mono.
  pose proof (pow2_pos 1074 ltac:(lia)).
  apply round_int_mono; try lia; nia.
Qed.

(** Integers below [2^53] are represented exactly. *)
Lemma round_int_small n :
  0 <= n < 2 ^ 53 -> round_int (n * 2 ^ 1074) 1 = n * 2 ^ 1074.
Proof.
  intros Hn. destruct (Z.eq_dec n 0) as [-> | NZ].
  - rewrite Z.mul_0_l. apply round_int_0. lia.
  - unfold round_int. rewrite Z.div_1_r, Z.mul_1_l.
    rewrite Z.log2_mul_pow2 by lia.
    assert (Z.log2 n < 53) by (apply Z.log2_lt_pow2; lia).
    pose proof (Z.log2_nonneg n).
    replace (Z.max (1074 + Z.log2 n - 52) 0) with (Z.log2 n + 1022) by lia.
    set (k := Z.log2 n + 1022).
    assert (E : 2 ^ 1074 = 2 ^ (1074 - k) * 2 ^ k).
    { rewrite <- Z.pow_add_r by lia. f_equal. lia. }
    pose proof (pow2_pos k ltac:(lia)).
    rewrite (RNE_ext _ _ (n * 2 ^ (1074 - k)) 1); try lia.
    + rewrite RNE_1. rewrite E. ring.
    + rewrite E. ring.
Qed.

Lemma float_of_Z_exact n :
  0 <= n < 2 ^ 53 ->
  Nonneg (float_of_Z n) /\ fval (float_of_Z n) = n * 2 ^ 1074.
Proof.
  intros Hn. destruct (float_of_Z_fval n ltac:(lia)) as [H V].
  split; [exact H |]. rewrite V, round_int_small by assumption.
  unfold INF. apply Z.min_l.
  change (2 ^ 2098) with (2 ^ 1024 * 2 ^ 1074).
  apply Z.mul_le_mono_nonneg_r; [apply Z.lt_le_incl, pow2_pos; lia |].
  assert (2 ^ 53 <= 2 ^ 1024) by (apply pow2_le; lia). lia.
Qed.

(** ** Comparisons, whatever the signs *)

Lemma SFcompare_antisym x y :
  SFcompare y x = option_map CompOpp (SFcompare x y).
Proof.
  destruct x as [[] | [] | | [] mx ex]; destruct y as [[] | [] | | [] my ey];
    try reflexivity; cbn [SFcompare option_map]; f_equal;
    rewrite (Z.compare_antisym ex ey);
    destruct (ex ?= ey) eqn:E; cbn [CompOpp]; try reflexivity;
    rewrite !Pos.compare_cont_spec, (Pos.compare_antisym mx my);
    destruct (mx ?= my)%positive; reflexivity.
Qed.

Lemma ltb_leb x y : (x <? y)%float = true -> (x <=? y)%float = true.
Proof.
  rewrite ltb_spec, leb_spec. unfold SFltb, SFleb.
  destruct (SFcompare (Prim2SF x) (Prim2SF y)) as [[] |]; congruence.
Qed.

(** Two numbers are ordered one way or the other, unless one is NaN. *)
Lemma leb_total x y :
  is_nan x = false -> is_nan y = false ->
  (x <? y)%float = false -> (y <=? x)%float = true.
Proof.
  rewrite !is_nan_false, ltb_spec, leb_spec. unfold SFltb, SFleb.
  intros Nx Ny. rewrite (SFcompare_antisym (Prim2SF x) (Prim2SF y)).
  destruct (SFcompare (Prim2SF x) (Prim2SF y)) as [[] |] eqn:E;
    cbn; try congruence.
  exfalso. destruct (Prim2SF x) as [[] | [] | | [] mx ex];
    destruct (Prim2SF y) as [[] | [] | | [] my ey]; cbn in E; congruence.
Qed.

Lemma leb_nan_l x : (nan <=? x)%float = false.
Proof. rewrite leb_spec. reflexivity. Qed.

Lemma leb_not_nan x y :
  (x <=? y)%float = true -> is_nan x = false /\ is_nan y = false.
Proof.
  rewrite leb_spec, !is_nan_false. unfold SFleb.
  destruct (Prim2SF x) as [[] | [] | | [] mx ex];
    destruct (Prim2SF y) as [[] | [] | | [] my ey]; cbn; intros H;
    split; congruence.
Qed.

(** A number below a non-negative number is below every larger one. *)
Lemma leb_le_nn t a b :
  (t <=? a)%float = true -> le_nn a b -> (t <=? b)%float = true.
Proof.
  intros H (Ha & Hb & L).
  pose proof (Prim2SF_valid t) as Vt.
  destruct (Prim2SF t) as [st | st | | st mt et] eqn:Et.
  - (* zero *)
    rewrite leb_spec, Et. unfold Nonneg in Hb.
    destruct (Prim2SF b) as [[] | [] | | [] m e]; cbn in Hb |- *;
      try contradiction; try discriminate; destruct st; reflexivity.
  - destruct st.
    + rewrite leb_spec, Et. unfold Nonneg in Hb.
      destruct (Prim2SF b) as [[] | [] | | [] m e]; cbn in Hb |- *;
        try contradiction; try discriminate; reflexivity.
    + assert (Nt : Nonneg t) by (unfold Nonneg; rewrite Et; reflexivity).
      rewrite leb_fval in H |- * by assumption.
      apply Z.leb_le in H. apply Z.leb_le. lia.
  - rewrite leb_spec, Et in H. discriminate H.
  - destruct st.
    + rewrite leb_spec, Et. unfold Nonneg in Hb.
      destruct (Prim2SF b) as [[] | [] | | [] m e]; cbn in Hb |- *;
        try contradiction; try discriminate; reflexivity.
    + assert (Nt : Nonneg t) by (unfold Nonneg; rewrite Et; reflexivity).
      rewrite leb_fval in H |- * by assumption.
      apply Z.leb_le in H. apply Z.leb_le. lia.
Qed.

(** A number that is not positive is below every non-negative number. *)
Lemma leb_nonpositive t b :
  (t <=? 0)%float = true -> Nonneg b -> (t <=? b)%float = true.
Proof.
  intros H Hb. apply (leb_le_nn t 0 b H).
  repeat split; trivial. change (fval 0) with 0. apply fval_range.
Qed.

(** ** More on comparisons and NaN *)

Lemma ltb_le_nn t a b :
  (t <? a)%float = true -> le_nn a b -> (t <? b)%float = true.
Proof.
  intros H (Ha & Hb & L).
  assert (Hnn : forall u, Nonneg u -> (u <? a)%float = true -> (u <? b)%float = true).
  { intros u Nu Hu. rewrite ltb_fval in Hu |- * by assumption.
    apply Z.ltb_lt in Hu. apply Z.ltb_lt. lia. }
  destruct (Prim2SF t) as [st | st | | st mt et] eqn:Et.
  - destruct st.
    + assert (Z0 : forall y, (t <? y)%float = (0 <? y)%float).
      { intros y. rewrite !ltb_spec, Et. reflexivity. }
      rewrite Z0 in H |- *. apply Hnn; [reflexivity | exact H].
    + apply Hnn; [| exact H]. unfold Nonneg. rewrite Et. reflexivity.
  - destruct st.
    + rewrite ltb_spec, Et. unfold Nonneg in Hb.
      destruct (Prim2SF b) as [[] | [] | | [] m e]; cbn [nonneg] in Hb;
        try contradiction; try discriminate; reflexivity.
    + apply Hnn; [| exact H]. unfold Nonneg. rewrite Et. reflexivity.
  - rewrite ltb_spec, Et in H. discriminate H.
  - destruct st.
    + rewrite ltb_spec, Et. unfold Nonneg in Hb.
      destruct (Prim2SF b) as [[] | [] | | [] m e]; cbn [nonneg] in Hb;
        try contradiction; try discriminate; reflexivity.
    + apply Hnn; [| exact H]. unfold Nonneg. rewrite Et. reflexivity.
Qed.

Lemma leb_zero_not_ltb x : (0 <=? x)%float = true -> (x <? 0)%float = false.
Proof.
  rewrite leb_spec, ltb_spec. change (Prim2SF 0) with (S754_zero false).
  unfold SFleb, SFltb.
  destruct (Prim2SF x) as [[] | [] | | [] m e]; cbn; congruence.
Qed.

Lemma leb_nan_r x y : is_nan y = true -> (x <=? y)%float = false.
Proof.
  rewrite is_nan_spec, leb_spec. unfold SFleb.
  destruct (Prim2SF y); try discriminate. intros _.
  destruct (Prim2SF x) as [[] | [] | | [] m e]; reflexivity.
Qed.

Lemma is_nan_eq x : is_nan x = true -> x = nan.
Proof.
  rewrite is_nan_spec. intros H. apply Prim2SF_inj.
  destruct (Prim2SF x); try discriminate. reflexivity.
Qed.

(** NaN operands give NaN results. *)
Lemma mul_nan_l x y : is_nan x = true -> is_nan (x * y) = true.
Proof.
  intros H. destruct (is_nan (x * y)) eqn:E; [reflexivity |].
  apply mul_not_nan in E. destruct E. congruence.
Qed.

Lemma mul_nan_r x y : is_nan y = true -> is_nan (x * y) = true.
Proof.
  intros H. destruct (is_nan (x * y)) eqn:E; [reflexivity |].
  apply mul_not_nan in E. destruct E. congruence.
Qed.

Lemma div_nan_l x y : is_nan x = true -> is_nan (x / y) = true.
Proof.
  intros H. destruct (is_nan (x / y)) eqn:E; [reflexivity |].
  apply div_not_nan in E. destruct E. congruence.
Qed.

Lemma div_nan_r x y : is_nan y = true -> is_nan (x / y) = true.
Proof.
  intros H. destruct (is_nan (x / y)) eqn:E; [reflexivity |].
  apply div_not_nan in E. destruct E. congruence.
Qed.

(** A positive number is truthy. *)
Lemma positive_truthy x :
  (0 <? x)%float = true -> is_zero x = false /\ is_nan x = false.
Proof.
  rewrite ltb_spec, is_zero_spec, is_nan_spec.
  change (Prim2SF 0) with (S754_zero false). unfold SFltb.
  destruct (Prim2SF x) as [[] | [] | | [] m e]; cbn; intros H; split;
    congruence.
Qed.

(** A finite number divided by a positive one is a number. *)
Lemma div_Fin_positive x c :
  Fin x -> Nonneg c -> 0 < fval c ->
  Nonneg (x / c) /\ Fin (x / c) \/ is_inf (x / c).
Proof.
  intros Fx Hc Hpos. destruct (Nonneg_cases c Hc) as [Fc | Ic].
  - destruct (div_fval x c Fx Fc Hpos) as [Hn Hv].
    destruct (Nonneg_cases _ Hn) as [F | I]; [left; now split | now right].
  - left. unfold Nonneg, Fin. rewrite div_spec, Ic. unfold Fin in Fx.
    destruct (Prim2SF x) as [[] | [] | | [] m e]; cbn in *; try contradiction;
      split; reflexivity.
Qed.

Lemma div_Fin_positive_not_nan x c :
  Fin x -> Nonneg c -> 0 < fval c -> is_nan (x / c) = false.
Proof.
  intros Fx Hc Hpos. apply Nonneg_not_nan.
  destruct (div_Fin_positive x c Fx Hc Hpos) as [[H _] | H]; [exact H |].
  now apply is_inf_fval in H.
Qed.

(** A positive finite number divided by zero is [Infinity], and divided
    by [Infinity] is zero. *)
Lemma div_positive_by_zero x :
  Nonneg x -> 0 < fval x -> (x / 0)%float = infinity.
Proof.
  intros Hx Hpos. apply Prim2SF_inj. rewrite div_spec.
  change (Prim2SF 0) with (S754_zero false).
  change (Prim2SF infinity) with (S754_infinity false).
  unfold Nonneg, fval in *.
  destruct (Prim2SF x) as [[] | [] | | [] m e]; cbn in *; try contradiction;
    try reflexivity; lia.
Qed.

Lemma div_Fin_by_infinity x : Fin x -> (x / infinity)%float = 0%float.
Proof.
  intros Fx. apply Prim2SF_inj. rewrite div_spec.
  change (Prim2SF infinity) with (S754_infinity false).
  change (Prim2SF 0) with (S754_zero false). unfold Fin in Fx.
  destruct (Prim2SF x) as [[] | [] | | [] m e]; cbn in *; try contradiction;
    reflexivity.
Qed.

(** Multiplying by a finite number other than zero keeps a number a
    number. *)
Lemma mul_finite_not_nan x c :
  is_nan x = false -> Fin c -> 0 < fval c -> is_nan (x * c) = false.
Proof.
  rewrite !is_nan_false, mul_spec. unfold Fin, fval.
  intros Hx Fc Hpos.
  pose proof (Prim2SF_valid x) as Vx. pose proof (Prim2SF_valid c) as Vc.
  destruct (Prim2SF c) as [[] | [] | | [] mc ec]; cbn in Fc, Hpos;
    try contradiction; try lia.
  destruct (Prim2SF x) as [sx | sx | | sx mx ex]; try congruence;
    try (cbn; congruence).
  destruct (SFmul_finite sx mx ex false mc ec Vx Vc) as [Hs _].
  unfold SF64mul. intros E. cbv zeta in Hs. rewrite E in Hs. exact Hs.
Qed.

(** The number of an integer is a number. *)
Lemma float_of_Z_not_nan n : is_nan (float_of_Z n) = false.
Proof.
  apply is_nan_false. rewrite Prim2SF_float_of_Z.
  unfold binary_normalize. destruct n as [| p | p]; [discriminate | |].
  - destruct (binary_round_ival false p 0) as [Hs _].
    intros E. cbv zeta in Hs. rewrite E in Hs. exact Hs.
  - destruct (binary_round_ival true p 0) as [Hs _].
    intros E. cbv zeta in Hs. rewrite E in Hs. exact Hs.
Qed.

(** ** Sums with a second term [l], [0 <= l], which may be [-0] *)

Lemma leb_zero_trans l l' :
  (0 <=? l)%float = true -> (l <=? l')%float = true -> (0 <=? l')%float = true.
Proof.
  rewrite !leb_spec. change (Prim2SF 0) with (S754_zero false). unfold SFleb.
  destruct (Prim2SF l) as [[] | [] | | [] m e];
    destruct (Prim2SF l') as [[] | [] | | [] m' e']; cbn; congruence.
Qed.

Lemma nonneg_leb_neg_zero l z :
  Nonneg l -> Prim2SF z = S754_zero true -> (l <=? z)%float = true ->
  l = 0%float.
Proof.
  intros Hl Hz H. apply Prim2SF_inj. rewrite leb_spec, Hz in H.
  change (Prim2SF 0) with (S754_zero false). unfold Nonneg, SFleb in *.
  destruct (Prim2SF l) as [[] | [] | | [] m e]; cbn in *; try contradiction;
    try discriminate; reflexivity.
Qed.

Lemma le_nn_zero l : Nonneg l -> le_nn 0 l.
Proof.
  intros H. repeat split; trivial. change (fval 0) with 0. apply fval_range.
Qed.

Lemma le_nn_add_legs_le x x' l l' :
  le_nn x x' -> (0 <=? l)%float = true -> (l <=? l')%float = true ->
  le_nn (x + l) (x' + l').
Proof.
  intros H Hl Hll. pose proof (leb_zero_trans l l' Hl Hll) as Hl'.
  pose proof H as (Hx & Hx' & L).
  destruct (leb_zero_cases l Hl) as [Hn | Hz];
    destruct (leb_zero_cases l' Hl') as [Hn' | Hz'].
  - apply le_nn_add; [exact H |]. now apply le_nn_of_leb_r.
  - rewrite (nonneg_leb_neg_zero l l' Hn Hz' Hll).
    rewrite add_zero_r by assumption. now rewrite add_neg_zero.
  - rewrite add_neg_zero by assumption.
    rewrite <- (add_zero_r x) by assumption.
    apply le_nn_add; [exact H | now apply le_nn_zero].
  - now rewrite !add_neg_zero.
Qed.

End FloatFacts.
(** * Properties *)

(** ** The catalog *)

Lemma material_keys_eq :
  material_keys
  = ["Kanthal A1"; "Nichrome (Ni80)"; "SS316L"; "Ni200"; "Titanium (Ti)"].
Proof. reflexivity. Qed.

Lemma catalog_key_cases (key : string) :
  In key material_keys ->
  key = "Kanthal A1" \/ key = "Nichrome (Ni80)" \/ key = "SS316L"
  \/ key = "Ni200" \/ key = "Titanium (Ti)".
Proof.
  rewrite material_keys_eq. simpl.
  intros [H | [H | [H | [H | [H | []]]]]]; subst; auto 6.
Qed.

Lemma own_property_of_key (key : string) :
  In key material_keys -> exists m, own_property key materials = Some m.
Proof.
  intros H. apply catalog_key_cases in H.
  destruct H as [H | [H | [H | [H | H]]]]; subst; eexists; reflexivity.
Qed.

Lemma own_property_In (key : string) (m : Material) :
  own_property key materials = Some m <-> In (key, m) materials.
Proof.
  split.
  - unfold materials. cbn [own_property].
    repeat match goal with
           | |- context [String.eqb key ?k] =>
               destruct (String.eqb_spec key k) as [-> | ?]
           end;
      intros [= <-] || intros [=]; cbn; auto 6.
  - cbn. intros H.
    repeat destruct H as [[= <- <-] | H]; try reflexivity. destruct H.
Qed.

Lemma materials_get_entry (key : string) (m : Material) :
  own_property key materials = Some m -> materials_get key = Entry m.
Proof. unfold materials_get. now intros ->. Qed.

(** For a catalog material the resistance is computed without failure, by
    the formula of the source. *)
Lemma computeResistanceOhm_entry (key : string) (m : Material)
  (d w id legs : number) :
  own_property key materials = Some m ->
  computeResistanceOhm key d w id legs
  = Normal (resistanceOhm (rho_mm2_per_m m) (wireLength w id legs)
              (crossSectionAreaMm2 d)).
Proof.
  intros H. unfold computeResistanceOhm.
  rewrite (materials_get_entry _ _ H). reflexivity.
Qed.

(** ** The wrap search *)

Section WrapSearchFacts.

Variable key : string.
Variable m : Material.
Hypothesis Hkey : own_property key materials = Some m.
Variables d id legs target : number.

(** The resistance at [w] wraps. *)
Let R (w : Z) : number :=
  resistanceOhm (rho_mm2_per_m m) (wireLength (of_Z w) id legs)
    (crossSectionAreaMm2 d).

(** What the loop does: it leaves with [None] when no wrap count of the
    scanned range reaches the target, and otherwise returns the first
    one that does. *)
Lemma scan_wraps_spec (n : nat) (w0 : Z) :
  (scan_wraps key d id legs target n w0 = Normal None
   /\ forall w, (w0 <= w < w0 + Z.of_nat n)%Z -> ge (R w) target = false)
  \/ (exists w, (w0 <= w < w0 + Z.of_nat n)%Z
        /\ scan_wraps key d id legs target n w0
           = Normal (Some (mkWrapSolution w (R w)))
        /\ ge (R w) target = true
        /\ forall w', (w0 <= w' < w)%Z -> ge (R w') target = false).
Proof.
  revert w0. induction n as [| n IH]; intros w0.
  - left. split; [reflexivity | intros w Hw; lia].
  - cbn [scan_wraps]. rewrite (computeResistanceOhm_entry _ _ _ _ _ _ Hkey).
    cbn [bind]. fold (R w0).
    destruct (ge (R w0) target) eqn:Hge.
    + right. exists w0. repeat split; trivial; intros; lia.
    + destruct (IH (w0 + 1)%Z) as [[Hnone Hall] | (w & Hw & Hscan & Hhit & Hbefore)].
      * left. split; [exact Hnone |]. intros w Hw.
        destruct (Z.eq_dec w w0) as [-> | Hne]; [exact Hge |].
        apply Hall; lia.
      * right. exists w. repeat split; trivial; try lia.
        intros w' Hw'.
        destruct (Z.eq_dec w' w0) as [-> | Hne]; [exact Hge |].
        apply Hbefore; lia.
Qed.

Lemma findWrapsForTarget_spec (maxWraps : Z) :
  (1 <= maxWraps)%Z ->
  exists sol,
    findWrapsForTarget key d id legs target maxWraps = Normal sol
    /\ resistance sol = R (wraps sol)
    /\ (1 <= wraps sol <= maxWraps)%Z
    /\ ((ge (resistance sol) target = true
         /\ forall w, (1 <= w < wraps sol)%Z -> ge (R w) target = false)
        \/ (wraps sol = maxWraps
            /\ forall w, (1 <= w <= maxWraps)%Z -> ge (R w) target = false)).
Proof.
  intros Hmax. unfold findWrapsForTarget.
  destruct (scan_wraps_spec (Z.to_nat maxWraps) 1)
    as [[Hnone Hall] | (w & Hw & Hscan & Hhit & Hbefore)].
  - rewrite Hnone. cbn [bind].
    rewrite (computeResistanceOhm_entry _ _ _ _ _ _ Hkey). cbn [bind].
    eexists. split; [reflexivity |]. cbn [wraps resistance].
    repeat split; try lia.
    right. split; [reflexivity |]. intros w Hw. apply Hall. lia.
  - rewrite Hscan. cbn [bind].
    eexists. split; [reflexivity |]. cbn [wraps resistance].
    repeat split; try lia.
    left. split; [exact Hhit |]. intros w' Hw'. apply Hbefore. lia.
Qed.

End WrapSearchFacts.

(** *** The defaults of the component

    SS316L, AWG 26 (0.405 mm), 5 wraps on a 3 mm rod with 6 mm of legs,
    a target of 0.25 ohm and 7.4 V. *)

Example computeResistanceOhm_default :
  computeResistanceOhm "SS316L" 0.405 5 3 6 = Normal 0.30927954855240497%float.
Proof. reflexivity. Qed.

Example findWrapsForTarget_default :
  findWrapsForTarget "SS316L" 0.405 3 6 0.25 default_maxWraps
  = Normal {| wraps := 4; resistance := 0.25440986405309085 |}.
Proof. vm_compute. reflexivity. Qed.

Example findWrapsForTarget_saturated :
  findWrapsForTarget "SS316L" 0.405 3 6 100 default_maxWraps
  = Normal {| wraps := 60; resistance := 3.3271121960146819 |}.
Proof. vm_compute. reflexivity. Qed.

Example derive_quarter_ohm :
  currentAtTarget 7.4 0.25 = 29.600000000000001%float
  /\ powerAtTarget 7.4 0.25 = 219.04000000000002%float
  /\ exceedsSafetyLimit 7.4 0.25 30 = false
  /\ exceedsSafetyLimit 7.4 0.25 25 = true.
Proof. repeat split. Qed.

(** ** Unknown materials *)

Lemma own_property_not_key (key : string) :
  ~ In key material_keys -> own_property key materials = None.
Proof.
  intros Hnot. destruct (own_property key materials) as [m |] eqn:E; trivial.
  exfalso. apply Hnot. apply own_property_In in E.
  unfold material_keys. now apply (in_map fst) in E.
Qed.

Lemma materials_get_undefined (key : string) :
  ~ In key material_keys -> ~ In key Object_prototype_names ->
  materials_get key = Undefined.
Proof.
  intros Hk Hp. unfold materials_get. rewrite (own_property_not_key _ Hk).
  destruct (existsb (String.eqb key) Object_prototype_names) eqn:E; trivial.
  exfalso. apply Hp. apply existsb_exists in E. destruct E as (x & Hx & Heq).
  apply String.eqb_eq in Heq. now subst.
Qed.

Lemma materials_get_inherited (key : string) :
  In key Object_prototype_names -> materials_get key = Inherited.
Proof.
  intros Hp. cbn in Hp.
  repeat destruct Hp as [<- | Hp]; try reflexivity. destruct Hp.
Qed.

Lemma scan_wraps_undefined (key : string) (d id legs target : number)
  (n : nat) (w : Z) :
  materials_get key = Undefined ->
  scan_wraps key d id legs target (S n) w = Throw TypeError.
Proof.
  intros H. cbn [scan_wraps]. unfold computeResistanceOhm. now rewrite H.
Qed.

(** ** Text *)

Lemma append_assoc (a b c : string) : ((a ++ b) ++ c = a ++ (b ++ c))%string.
Proof. induction a as [| ch a IH]; cbn; [reflexivity | now rewrite IH]. Qed.

Lemma unlines_app (xs ys : list string) :
  unlines (xs ++ ys) = (unlines xs ++ unlines ys)%string.
Proof.
  induction xs as [| x xs IH]; cbn; [reflexivity |].
  now rewrite IH, !append_assoc.
Qed.


(** ** Resistance as a function of the wrap count *)

Module ResistanceFacts.

Import FloatFacts.

Ltac nonneg_const := vm_compute; reflexivity.
Ltac finite_const := vm_compute; exact I.
Ltac le_const := vm_compute; discriminate.
Ltac lt_const := vm_compute; reflexivity.

Lemma Nonneg_PI : Nonneg Math_PI.
Proof. nonneg_const. Qed.

(** The resistivities of the catalog lie between 0.42 and 1.45. *)
Lemma catalog_rho_between (key : string) (m : Material) :
  In (key, m) materials -> between 0.42 (rho_mm2_per_m m) 1.45.
Proof.
  cbn. intros H.
  repeat destruct H as [[= <- <-] | H]; try contradiction;
    (repeat split; first [nonneg_const | le_const]).
Qed.

(** The area is not negative, whatever the diameter. *)
Lemma area_not_negative (d : number) : not_negative (crossSectionAreaMm2 d).
Proof.
  unfold crossSectionAreaMm2. apply not_negative_mul.
  - left. apply Nonneg_PI.
  - apply not_negative_square.
Qed.

Section Geometry.

Variables rho id legs : number.
Hypothesis Hrho : Nonneg rho.
Hypothesis Hid : (0 <? id)%float = true.
Hypothesis Hlegs : (0 <=? legs)%float = true.

Lemma length_not_negative (W : number) :
  Nonneg W -> not_negative (wireLength W id legs).
Proof.
  intros HW. unfold wireLength.
  apply not_negative_div; [| left; nonneg_const].
  apply not_negative_add_legs; [| exact Hlegs].
  apply not_negative_mul; [| now left].
  apply not_negative_mul; [left; apply Nonneg_PI |].
  left. now apply positive_Nonneg.
Qed.

Lemma resistance_not_negative (d W : number) :
  Nonneg W ->
  not_negative
    (resistanceOhm rho (wireLength W id legs) (crossSectionAreaMm2 d)).
Proof.
  intros HW. unfold resistanceOhm.
  apply not_negative_div; [| apply area_not_negative].
  apply not_negative_mul; [now left | now apply length_not_negative].
Qed.



End Geometry.

(** *** Ordinary magnitudes

    Diameters between a micrometre and a metre, up to a million wraps and
    up to a kilometre of legs: no operation overflows or underflows, and
    the resistance lies between the two bounds below. *)

Definition resistance_lower_bound : number :=
  resistanceOhm 0.42 (wireLength 1 0.001 0) (crossSectionAreaMm2 1000).

Definition resistance_upper_bound : number :=
  resistanceOhm 1.45 (wireLength 1000000 1000 1000000)
    (crossSectionAreaMm2 0.001).

Definition ordinary (x lo hi : number) : Prop := in_range x lo hi = true.

Lemma ordinary_bounds (x lo hi : number) :
  ordinary x lo hi -> (lo <=? x)%float = true /\ (x <=? hi)%float = true.
Proof. intros H. now apply andb_prop in H. Qed.

Lemma resistance_between (rho d W id legs : number) :
  between 0.42 rho 1.45 ->
  ordinary d 0.001 1000 -> ordinary id 0.001 1000 ->
  ordinary W 1 1000000 -> ordinary legs 0 1000000 ->
  between resistance_lower_bound
    (resistanceOhm rho (wireLength W id legs) (crossSectionAreaMm2 d))
    resistance_upper_bound.
Proof.
  intros Hrho Hd Hi HW Hl.
  apply ordinary_bounds in Hd, Hi, HW, Hl.
  destruct Hd as [Hd1 Hd2], Hi as [Hi1 Hi2], HW as [HW1 HW2], Hl as [Hl1 Hl2].
  assert (Bd : between 0.001 d 1000)
    by (apply between_of_leb; trivial; first [nonneg_const | lt_const]).
  assert (Bi : between 0.001 id 1000)
    by (apply between_of_leb; trivial; first [nonneg_const | lt_const]).
  assert (BW : between 1 W 1000000)
    by (apply between_of_leb; trivial; first [nonneg_const | lt_const]).
  unfold resistance_lower_bound, resistance_upper_bound, resistanceOhm,
    wireLength, crossSectionAreaMm2.
  apply between_div; [| | finite_const | finite_const | lt_const].
  - apply between_mul; [exact Hrho | | finite_const | finite_const].
    apply between_div;
      [| apply between_const; nonneg_const | finite_const | finite_const
       | lt_const].
    apply between_add_legs; [| exact Hl1 | exact Hl2 | nonneg_const].
    apply between_mul; [| exact BW | finite_const | finite_const].
    apply between_mul;
      [apply between_const; apply Nonneg_PI | exact Bi | finite_const
      | finite_const].
  - apply between_mul;
      [apply between_const; apply Nonneg_PI | | finite_const | finite_const].
    assert (Bh : between (0.001 / 2) (d / 2) (1000 / 2)).
    { apply between_div;
        [exact Bd | apply between_const; nonneg_const | finite_const
        | finite_const | lt_const]. }
    apply between_mul; [exact Bh | exact Bh | finite_const | finite_const].
Qed.

Lemma resistance_bounds_positive_finite :
  (0 < fval resistance_lower_bound /\ fval resistance_upper_bound < INF)%Z.
Proof. split; vm_compute; reflexivity. Qed.

Lemma resistance_positive_finite (rho d W id legs : number) :
  between 0.42 rho 1.45 ->
  ordinary d 0.001 1000 -> ordinary id 0.001 1000 ->
  ordinary W 1 1000000 -> ordinary legs 0 1000000 ->
  let R := resistanceOhm rho (wireLength W id legs) (crossSectionAreaMm2 d) in
  (0 <? R)%float = true /\ is_finite R = true.
Proof.
  intros Hrho Hd Hi HW Hl R.
  destruct (resistance_between rho d W id legs Hrho Hd Hi HW Hl)
    as [(_ & Hn & L1) (_ & _ & L2)].
  destruct resistance_bounds_positive_finite as [P F].
  apply positive_finite; [exact Hn |]. fold R in L1, L2. lia.
Qed.

Lemma Fin_is_finite (x : number) : Fin x -> is_finite x = true.
Proof.
  unfold Fin. rewrite is_finite_spec.
  destruct (Prim2SF x) as [[] | [] | | [] m e]; cbn; tauto.
Qed.

(** Dividing a voltage of ordinary magnitude by [epsilon] does not
    overflow. *)
Lemma current_at_epsilon_finite (V : number) :
  ordinary V 0 1e300 -> is_finite (V / epsilon) = true.
Proof.
  intros H. apply ordinary_bounds in H. destruct H as [H0 H1].
  destruct (leb_zero_cases V H0) as [Hn | Hz].
  - assert (L : le_nn V 1e300) by (apply le_nn_of_leb_r; trivial; nonneg_const).
    assert (Le : le_nn epsilon epsilon) by (apply le_nn_refl; nonneg_const).
    pose proof (le_nn_div_fin V 1e300 epsilon epsilon L Le
                  ltac:(finite_const) ltac:(finite_const) ltac:(lt_const))
      as (Hq & _ & Hv).
    apply Fin_is_finite. apply Fin_lt_INF; [exact Hq |].
    assert (fval (1e300 / epsilon) < INF)%Z by lt_const. lia.
  - rewrite is_finite_spec, div_spec, Hz.
    replace (Prim2SF epsilon) with (S754_finite false 4722366482869645 (-72))
      by (vm_compute; reflexivity).
    reflexivity.
Qed.

End ResistanceFacts.


(** ** Numbers printed with a fixed number of decimals *)

Module TextFacts.

Import FloatFacts.










End TextFacts.

(** * The claims *)

(** ** The wrap search *)

(** C1. For every material of the catalog and [maxWraps = 60] (the
    default), whatever the wire diameter, inner diameter, leg length and
    target (so in particular for positive diameters, non-negative legs and
    a positive target), [findWrapsForTarget] returns normally.  Its result
    carries the resistance computed at the returned wrap count, and either
    it is the smallest wrap count in [1..60] whose resistance is [>=] the
    target, or no wrap count in [1..60] reaches the target and the result
    is the saturated one, [{wraps: 60, resistance: resistance at 60}]. *)
Theorem findWrapsForTarget_first_crossing
  (key : string) (d id legs target : number) :
  In key material_keys ->
  exists sol,
    findWrapsForTarget key d id legs target default_maxWraps = Normal sol
    /\ computeResistanceOhm key d (of_Z (wraps sol)) id legs
       = Normal (resistance sol)
    /\ (((1 <= wraps sol <= 60)%Z
         /\ ge (resistance sol) target = true
         /\ forall w r,
              (1 <= w < wraps sol)%Z ->
              computeResistanceOhm key d (of_Z w) id legs = Normal r ->
              ge r target = false)
        \/ (wraps sol = 60%Z
            /\ forall w r,
                 (1 <= w <= 60)%Z ->
                 computeResistanceOhm key d (of_Z w) id legs = Normal r ->
                 ge r target = false)).
Proof.
  intros Hin. destruct (own_property_of_key key Hin) as [m Hm].
  destruct (findWrapsForTarget_spec key m Hm d id legs target default_maxWraps)
    as (sol & Hsol & Hres & Hrange & Hcases); [unfold default_maxWraps; lia |].
  exists sol. split; [exact Hsol |]. split.
  - rewrite (computeResistanceOhm_entry _ _ _ _ _ _ Hm). now rewrite Hres.
  - unfold default_maxWraps in *.
    destruct Hcases as [[Hhit Hbefore] | [Hsat Hall]]; [left | right].
    + repeat split; try lia; trivial. intros w r Hw Hr.
      rewrite (computeResistanceOhm_entry _ _ _ _ _ _ Hm) in Hr.
      injection Hr as <-. now apply Hbefore.
    + split; [exact Hsat |]. intros w r Hw Hr.
      rewrite (computeResistanceOhm_entry _ _ _ _ _ _ Hm) in Hr.
      injection Hr as <-. now apply Hall.
Qed.

Lemma findWrapsForTarget_first_crossing_SS316L :
  exists sol,
    findWrapsForTarget "SS316L" 0.405 3 6 0.25 default_maxWraps = Normal sol
    /\ computeResistanceOhm "SS316L" 0.405 (of_Z (wraps sol)) 3 6
       = Normal (resistance sol)
    /\ (((1 <= wraps sol <= 60)%Z
         /\ ge (resistance sol) 0.25 = true
         /\ forall w r,
              (1 <= w < wraps sol)%Z ->
              computeResistanceOhm "SS316L" 0.405 (of_Z w) 3 6 = Normal r ->
              ge r 0.25 = false)
        \/ (wraps sol = 60%Z
            /\ forall w r,
                 (1 <= w <= 60)%Z ->
                 computeResistanceOhm "SS316L" 0.405 (of_Z w) 3 6 = Normal r ->
                 ge r 0.25 = false)).
Proof.
  apply (findWrapsForTarget_first_crossing "SS316L" 0.405 3 6 0.25).
  simpl. tauto.
Defined.



(** ** The cross-section area *)

(** C2 fails on the code: at diameter 0 (and at a negative diameter) the
    area computation returns a number, it does not fail. *)
Lemma areaMm2_of_zero_returns :
  (0 <=? 0)%float = true
  /\ areaMm2 0 = Normal 0%float
  /\ (-0.405 <=? 0)%float = true
  /\ areaMm2 (-0.405) = areaMm2 0.405
  /\ ~ throws (areaMm2 0).
Proof.
  repeat split. intros [e He]. discriminate He.
Qed.

(** C2, amended. For every diameter, zero and negative ones included, the
    cross-sectional-area computation returns a number and never fails (the
    code has no InvalidDimension error): the number is
    [pi * (diameterMm/2)^2], it is never negative, and it is 0 at
    diameter 0. *)
Theorem areaMm2_total (diameterMm : number) :
  areaMm2 diameterMm = Normal (crossSectionAreaMm2 diameterMm)
  /\ ~ throws (areaMm2 diameterMm)
  /\ (crossSectionAreaMm2 diameterMm <? 0)%float = false
  /\ areaMm2 0 = Normal 0%float.
Proof.
  repeat split.
  - intros [e He]. discriminate He.
  - apply FloatFacts.not_negative_ltb, ResistanceFacts.area_not_negative.
Qed.

(** ** Current and power *)

(** C4 fails on the code: the guard replaces a resistance only when it is
    falsy; a resistance between 0 and epsilon is used as it is, so the
    current is not [voltage / max(R, epsilon)]; and at [R = 0] the power is
    [current^2 * epsilon], not [current^2 * 0]. *)
Lemma currentAtTarget_is_not_max_guarded :
  currentAtTarget 7.4 1e-7 = 74000000%float
  /\ (7.4 / Math_max 1e-7 epsilon)%float = 7400000.0000000009%float
  /\ powerAtTarget 7.4 0 = 54760000.000000015%float
  /\ (Math_pow2 (currentAtTarget 7.4 0) * 0)%float = 0%float.
Proof. repeat split. Qed.

(** C4, amended. The derivation is made of arithmetic only, so it never
    fails.  With [R' = R] when [R] is neither zero nor NaN and
    [R' = 0.000001] otherwise: the current is [voltage / R'], the power is
    [current^2 * R'], and the safety limit is exceeded exactly when
    [current > safetyLimitAmp].  At [R = 0] no division error is raised
    and the current is [voltage / 0.000001]: 7400000 for 7.4 V, and a
    finite number for every voltage from 0 to 1e300. *)
Theorem derive_guarded (voltage R safetyLimitAmp : number) :
  currentAtTarget voltage R = (voltage / guardedResistance R)%float
  /\ powerAtTarget voltage R
     = (currentAtTarget voltage R * currentAtTarget voltage R
        * guardedResistance R)%float
  /\ exceedsSafetyLimit voltage R safetyLimitAmp
     = (safetyLimitAmp <? currentAtTarget voltage R)%float
  /\ currentAtTarget voltage 0 = (voltage / 0.000001)%float
  /\ currentAtTarget 7.4 0 = 7400000.0000000009%float
  /\ (in_range voltage 0 1e300 = true ->
      is_finite (currentAtTarget voltage 0) = true).
Proof.
  assert (Hg : or_else R epsilon = guardedResistance R).
  { unfold or_else, ToBoolean, guardedResistance.
    now destruct (is_zero R || is_nan R). }
  repeat split.
  - unfold currentAtTarget. now rewrite Hg.
  - unfold powerAtTarget, Math_pow2. now rewrite Hg.
  - apply ResistanceFacts.current_at_epsilon_finite.
Qed.

(** ** A zero wire diameter *)

(** C5 fails on the code: no epsilon replaces a zero diameter; the area is
    0 and the resistance is the quotient by 0, [Infinity]. *)
Lemma resistance_at_zero_diameter_is_infinite :
  areaMm2 0 = Normal 0%float
  /\ computeResistanceOhm "SS316L" 0 5 3 6 = Normal infinity
  /\ is_finite infinity = false.
Proof. repeat split. Qed.

(** C5, amended. For every material of the catalog, wraps, inner diameter
    and leg length, computing the resistance with a zero wire diameter
    raises no error, and nothing is substituted for the diameter: the area
    is 0 and the result is the binary64 quotient by it, which is never
    finite ([Infinity], [-Infinity] or NaN). *)
Theorem resistance_at_zero_diameter (key : string) (w id legs : number) :
  In key material_keys ->
  areaMm2 0 = Normal 0%float
  /\ exists r,
       computeResistanceOhm key 0 w id legs = Normal r
       /\ is_finite r = false
       /\ (r = infinity \/ r = neg_infinity \/ r = nan).
Proof.
  intros Hin. destruct (own_property_of_key key Hin) as [m Hm].
  split; [reflexivity |].
  rewrite (computeResistanceOhm_entry _ _ _ _ _ _ Hm).
  eexists. split; [reflexivity |].
  unfold resistanceOhm.
  change (crossSectionAreaMm2 0) with 0%float.
  split; [apply FloatFacts.div_zero_not_finite | apply FloatFacts.div_zero_cases].
Qed.

Lemma resistance_at_zero_diameter_Ni200 :
  areaMm2 0 = Normal 0%float
  /\ exists r,
       computeResistanceOhm "Ni200" 0 5 3 6 = Normal r
       /\ is_finite r = false
       /\ (r = infinity \/ r = neg_infinity \/ r = nan).
Proof.
  apply (resistance_at_zero_diameter "Ni200" 5 3 6). simpl. tauto.
Defined.

(** ** Materials that are not in the catalog *)

(** C6 fails on the code: [materials] is an object literal, so an id such
    as ["toString"], which is not a key of the catalog, still reads a
    member inherited from [Object.prototype]; nothing is thrown and the
    resistance is NaN. *)
Lemma lookup_of_inherited_name_does_not_fail :
  ~ In "toString" material_keys
  /\ materials_get "toString" = Inherited
  /\ computeResistanceOhm "toString" 0.405 5 3 6 = Normal nan.
Proof.
  repeat split. cbn. intros H.
  repeat destruct H as [H | H]; try discriminate H. exact H.
Qed.

(** C6, amended. For every id that is neither a key of the catalog nor a
    property name of [Object.prototype], the lookup gives [undefined] and
    every computation that uses it (the resistance, the wrap search, the
    profile) fails with a TypeError, surfaced to the caller, no default
    material being substituted; the code has no error of its own named
    UnknownMaterial.  For every id that is a key, the lookup returns that
    material's entry unchanged.  (For the property names of
    [Object.prototype] the resistance computation does not fail and
    returns NaN.) *)
Theorem material_lookup (key : string) :
  (forall m, In (key, m) materials ->
     materials_get key = Entry m
     /\ get_rho (materials_get key) = Normal (rho_mm2_per_m m)
     /\ get_note (materials_get key) = Normal (note m))
  /\ (~ In key material_keys -> ~ In key Object_prototype_names ->
      materials_get key = Undefined
      /\ (forall d w id legs,
            computeResistanceOhm key d w id legs = Throw TypeError)
      /\ (forall d id legs target maxWraps,
            findWrapsForTarget key d id legs target maxWraps = Throw TypeError)
      /\ (forall p R, buildProfile key p R = Throw TypeError))
  /\ (In key Object_prototype_names ->
      forall d w id legs, computeResistanceOhm key d w id legs = Normal nan).
Proof.
  split; [| split].
  - intros m Hin. apply own_property_In in Hin.
    rewrite (materials_get_entry _ _ Hin). repeat split.
  - intros Hk Hp. pose proof (materials_get_undefined key Hk Hp) as Hu.
    split; [exact Hu |]. split; [| split].
    + intros. unfold computeResistanceOhm. now rewrite Hu.
    + intros. unfold findWrapsForTarget.
      destruct (Z.to_nat maxWraps) as [| n].
      * cbn [scan_wraps bind]. unfold computeResistanceOhm. now rewrite Hu.
      * now rewrite scan_wraps_undefined.
    + intros. unfold buildProfile. now rewrite Hu.
  - intros Hp d w id legs. unfold computeResistanceOhm.
    rewrite (materials_get_inherited _ Hp). cbn [get_rho bind].
    unfold computeLengthMeters, mmToMeters, areaMm2. cbn [bind].
    f_equal. apply Prim2SF_inj.
    rewrite div_spec, mul_spec. reflexivity.
Qed.

(** ** The profile *)

(** C8. For every material of the catalog and every power [p], the profile
    is built without failure; its mode is ["TC-SS"] exactly when the
    material is SS316L, Ni200 or has "Ti" in its name, and ["Power"]
    otherwise; its temperature is present, with the value 220, exactly for
    SS316L and absent for every other material; [Power] is
    [min(50, round(p))], [PreheatPower] is [round(clamp(p * 1.4, 20, 80))],
    [PreheatTime] is 1 and [Cutoff] is 8.  For "Kanthal A1" the mode is
    ["Power"] and there is no temperature. *)
Theorem buildProfile_fields (key : string) (p R : number) :
  In key material_keys ->
  exists prof,
    buildProfile key p R = Normal prof
    /\ (Mode prof = "TC-SS"
        <-> key = "SS316L" \/ key = "Ni200" \/ String_includes key "Ti" = true)
    /\ (Mode prof <> "TC-SS" -> Mode prof = "Power")
    /\ (Temperature prof = Some 220%float <-> key = "SS316L")
    /\ (key <> "SS316L" -> Temperature prof = None)
    /\ (key = "Kanthal A1" -> Mode prof = "Power" /\ Temperature prof = None)
    /\ Power prof = Math_min 50 (Math_round p)
    /\ PreheatPower prof = Math_round (clamp (p * 1.4)%float 20 80)
    /\ PreheatTime prof = 1%float
    /\ Cutoff prof = 8%float.
Proof.
  intros Hin. apply catalog_key_cases in Hin.
  destruct Hin as [-> | [-> | [-> | [-> | ->]]]];
    (eexists; split; [reflexivity |]);
    cbn -[Math_min Math_max Math_round PrimFloat.mul];
    repeat split; try reflexivity; try discriminate; try congruence;
    try (intros; exfalso; congruence); auto;
    try (intros [H | [H | H]]; discriminate H).
Qed.

Lemma buildProfile_fields_SS316L :
  exists prof,
    buildProfile "SS316L" 219.04 0.3093 = Normal prof
    /\ (Mode prof = "TC-SS"
        <-> "SS316L" = "SS316L" \/ "SS316L" = "Ni200"
            \/ String_includes "SS316L" "Ti" = true)
    /\ (Mode prof <> "TC-SS" -> Mode prof = "Power")
    /\ (Temperature prof = Some 220%float <-> "SS316L" = "SS316L")
    /\ ("SS316L" <> "SS316L" -> Temperature prof = None)
    /\ ("SS316L" = "Kanthal A1" -> Mode prof = "Power" /\ Temperature prof = None)
    /\ Power prof = Math_min 50 (Math_round 219.04)
    /\ PreheatPower prof = Math_round (clamp (219.04 * 1.4)%float 20 80)
    /\ PreheatTime prof = 1%float
    /\ Cutoff prof = 8%float.
Proof.
  apply (buildProfile_fields "SS316L" 219.04 0.3093). simpl. tauto.
Defined.


(** ** Resistance, length and wraps *)

(** C3 fails on the code: with a wire diameter of 1e200 the area overflows
    to [Infinity] and the resistance is 0, not a strictly positive
    number. *)
Lemma resistance_not_strictly_positive :
  (0 <? 1e200)%float = true
  /\ (1 <=? 5)%float = true /\ (0 <? 3)%float = true /\ (0 <=? 6)%float = true
  /\ areaMm2 1e200 = Normal infinity
  /\ computeResistanceOhm "SS316L" 1e200 5 3 6 = Normal 0%float
  /\ (0 <? 0)%float = false.
Proof. repeat split. Qed.

(** C3, amended. For every catalog material with resistivity [rho], wire
    diameter [d > 0], wraps [w >= 1], inner diameter [ID > 0] and leg
    length [legs >= 0], the computed wire length is
    [(pi * ID * w + legs) / 1000] and the computed resistance is
    [rho * length / (pi * (d/2)^2)], each operation rounded to binary64.
    The resistance is never negative.  It is a strictly positive finite
    number when the diameters are between 0.001 and 1000 mm, the wraps
    between 1 and 1000000 and the legs between 0 and 1000000 mm. *)
Theorem resistance_formula
  (key : string) (m : Material) (d w id legs : number) :
  In (key, m) materials ->
  (0 <? d)%float = true -> (1 <=? w)%float = true ->
  (0 <? id)%float = true -> (0 <=? legs)%float = true ->
  let length := wireLength w id legs in
  let R := resistanceOhm (rho_mm2_per_m m) length (crossSectionAreaMm2 d) in
  computeLengthMeters w id legs = Normal length
  /\ computeResistanceOhm key d w id legs = Normal R
  /\ (R <? 0)%float = false
  /\ (in_range d 0.001 1000 = true -> in_range id 0.001 1000 = true ->
      in_range w 1 1000000 = true -> in_range legs 0 1000000 = true ->
      (0 <? R)%float = true /\ is_finite R = true).
Proof.
  intros Hin Hd Hw Hid Hlegs length R.
  pose proof (ResistanceFacts.catalog_rho_between key m Hin) as Hrho.
  assert (HW : FloatFacts.Nonneg w).
  { apply (FloatFacts.leb_Nonneg 1 w); [vm_compute | vm_compute |]; trivial. }
  split; [reflexivity |]. split.
  - apply computeResistanceOhm_entry. now apply own_property_In.
  - split.
    + apply FloatFacts.not_negative_ltb.
      apply ResistanceFacts.resistance_not_negative; trivial. apply Hrho.
    + intros. now apply ResistanceFacts.resistance_positive_finite.
Qed.

Lemma resistance_formula_SS316L :
  let length := wireLength 5 3 6 in
  let R := resistanceOhm 0.75 length (crossSectionAreaMm2 0.405) in
  computeLengthMeters 5 3 6 = Normal length
  /\ computeResistanceOhm "SS316L" 0.405 5 3 6 = Normal R
  /\ (R <? 0)%float = false
  /\ (in_range 0.405 0.001 1000 = true -> in_range 3 0.001 1000 = true ->
      in_range 5 1 1000000 = true -> in_range 6 0 1000000 = true ->
      (0 <? R)%float = true /\ is_finite R = true).
Proof.
  apply (resistance_formula "SS316L"
           (mkMaterial 0.75 "Stainless Steel 316L — works with TC and VW")
           0.405 5 3 6); try reflexivity.
  simpl. tauto.
Defined.




(** ** The exported text *)


(** The text exported for SS316L at 7.4 V and the default geometry. *)
Example serialize_SS316L :
  bind (buildProfile "SS316L" 177.05568019364574 0.30927954855240497)
    (fun prof => Normal (serialize prof))
  = Normal
      (unlines
         [ "; Generated by trhacknon Coil Builder";
           "[ProfileCustom]";
           "Name=DAB-CUSTOM";
           "Mode=TC-SS";
           "Temperature=220";
           "Power=50";
           "PreheatPower=80";
           "PreheatTime=1";
           "Cutoff=8";
           "; EstimatedResistance=0.3093" ]).
Proof. vm_compute. reflexivity. Qed.


(** * Further properties of the calculation *)

Module DesignFacts.

Import FloatFacts.
Import ResistanceFacts.

(** ** Ordinary magnitudes, step by step *)

Lemma ordinary_between (x lo hi : number) :
  Nonneg lo -> (0 < fval lo)%Z -> Nonneg hi ->
  ordinary x lo hi -> between lo x hi.
Proof.
  intros Hlo Hpos Hhi H. apply ordinary_bounds in H. destruct H as [H1 H2].
  now apply between_of_leb.
Qed.

Lemma between_not_nan (lo x hi : number) : between lo x hi -> is_nan x = false.
Proof. intros [(_ & H & _) _]. now apply Nonneg_not_nan. Qed.

Lemma ordinary_resistance_not_nan (rho d W id legs : number) :
  between 0.42 rho 1.45 ->
  ordinary d 0.001 1000 -> ordinary id 0.001 1000 ->
  ordinary W 1 1000000 -> ordinary legs 0 1000000 ->
  is_nan (resistanceOhm rho (wireLength W id legs) (crossSectionAreaMm2 d))
  = false.
Proof.
  intros Hrho Hd Hi HW Hl.
  eapply between_not_nan. apply resistance_between; eassumption.
Qed.

(** ** The resistance is monotone in each of its arguments

    A larger resistivity, more wraps, a wider coil, longer legs or a
    thinner wire never give a smaller resistance, as long as neither
    resistance is NaN. *)

Lemma length_le (W W' id id' legs legs' : number) :
  le_nn W W' -> le_nn id id' ->
  (0 <=? legs)%float = true -> (legs <=? legs')%float = true ->
  is_nan (wireLength W id legs) = false ->
  is_nan (wireLength W' id' legs') = false ->
  le_nn (wireLength W id legs) (wireLength W' id' legs').
Proof.
  intros HW Hi Hl Hll N1 N2. unfold wireLength in *.
  destruct (div_not_nan _ _ N1) as [Ns1 _].
  destruct (div_not_nan _ _ N2) as [Ns2 _].
  destruct (add_not_nan _ _ Ns1) as [Np1 _].
  destruct (add_not_nan _ _ Ns2) as [Np2 _].
  destruct (mul_not_nan _ _ Np1) as [Nc1 _].
  destruct (mul_not_nan _ _ Np2) as [Nc2 _].
  apply le_nn_div; trivial; [| apply le_nn_refl; nonneg_const].
  apply le_nn_add_legs_le; trivial.
  apply le_nn_mul; trivial.
  apply le_nn_mul; trivial. apply le_nn_refl, Nonneg_PI.
Qed.

Lemma area_le (d d' : number) :
  le_nn d' d ->
  is_nan (crossSectionAreaMm2 d) = false ->
  is_nan (crossSectionAreaMm2 d') = false ->
  le_nn (crossSectionAreaMm2 d') (crossSectionAreaMm2 d).
Proof.
  intros Hd N N'. unfold crossSectionAreaMm2, Math_pow2 in *.
  destruct (mul_not_nan _ _ N) as [_ Ns].
  destruct (mul_not_nan _ _ N') as [_ Ns'].
  destruct (mul_not_nan _ _ Ns) as [Nh _].
  destruct (mul_not_nan _ _ Ns') as [Nh' _].
  assert (Hh : le_nn (d' / 2) (d / 2)).
  { apply le_nn_div; trivial. apply le_nn_refl. nonneg_const. }
  apply le_nn_mul; trivial; [apply le_nn_refl, Nonneg_PI |].
  now apply le_nn_mul.
Qed.

Lemma resistance_le (rho rho' d d' W W' id id' legs legs' : number) :
  le_nn rho rho' -> le_nn d' d -> le_nn W W' -> le_nn id id' ->
  (0 <=? legs)%float = true -> (legs <=? legs')%float = true ->
  is_nan (resistanceOhm rho (wireLength W id legs) (crossSectionAreaMm2 d))
  = false ->
  is_nan (resistanceOhm rho' (wireLength W' id' legs') (crossSectionAreaMm2 d'))
  = false ->
  le_nn (resistanceOhm rho (wireLength W id legs) (crossSectionAreaMm2 d))
    (resistanceOhm rho' (wireLength W' id' legs') (crossSectionAreaMm2 d')).
Proof.
  intros Hrho Hd HW Hi Hl Hll N N'. unfold resistanceOhm in *.
  destruct (div_not_nan _ _ N) as [Nn NA].
  destruct (div_not_nan _ _ N') as [Nn' NA'].
  destruct (mul_not_nan _ _ Nn) as [_ NL].
  destruct (mul_not_nan _ _ Nn') as [_ NL'].
  apply le_nn_div; trivial.
  - apply le_nn_mul; trivial. now apply length_le.
  - now apply area_le.
Qed.

(** The same under the source's comparisons, for ordinary magnitudes. *)
Lemma ordinary_le (x y lo hi : number) :
  Nonneg lo -> (0 < fval lo)%Z -> Nonneg hi ->
  ordinary x lo hi -> ordinary y lo hi -> (x <=? y)%float = true ->
  le_nn x y.
Proof.
  intros Hlo Hpos Hhi Hx Hy H.
  apply (ordinary_between _ _ _ Hlo Hpos Hhi) in Hx, Hy.
  apply le_nn_of_leb_r; [apply Hx | apply Hy | exact H].
Qed.

Lemma ordinary_resistance_le
  (rho rho' d d' W W' id id' legs legs' : number) :
  between 0.42 rho 1.45 -> between 0.42 rho' 1.45 -> le_nn rho rho' ->
  ordinary d 0.001 1000 -> ordinary d' 0.001 1000 ->
  ordinary W 1 1000000 -> ordinary W' 1 1000000 ->
  ordinary id 0.001 1000 -> ordinary id' 0.001 1000 ->
  ordinary legs 0 1000000 -> ordinary legs' 0 1000000 ->
  (d' <=? d)%float = true -> (W <=? W')%float = true ->
  (id <=? id')%float = true -> (legs <=? legs')%float = true ->
  le_nn (resistanceOhm rho (wireLength W id legs) (crossSectionAreaMm2 d))
    (resistanceOhm rho' (wireLength W' id' legs') (crossSectionAreaMm2 d')).
Proof.
  intros Br Br' Lr Hd Hd' HW HW' Hi Hi' Hl Hl' Ld LW Li Ll.
  apply resistance_le; trivial.
  - apply (ordinary_le d' d 0.001 1000); trivial;
      first [nonneg_const | lt_const].
  - apply (ordinary_le W W' 1 1000000); trivial;
      first [nonneg_const | lt_const].
  - apply (ordinary_le id id' 0.001 1000); trivial;
      first [nonneg_const | lt_const].
  - apply ordinary_bounds in Hl. apply Hl.
  - now apply ordinary_resistance_not_nan.
  - now apply ordinary_resistance_not_nan.
Qed.

Lemma leb_refl (x : number) : is_nan x = false -> (x <=? x)%float = true.
Proof.
  intros N. rewrite leb_spec. unfold SFleb.
  rewrite SFcompare_refl; [reflexivity | now apply is_nan_false].
Qed.

Lemma ordinary_leb_refl (x lo hi : number) :
  in_range x lo hi = true -> (x <=? x)%float = true.
Proof.
  intros H. apply ordinary_bounds in H. destruct H as [H _].
  apply leb_not_nan in H. now apply leb_refl.
Qed.

(** ** The loop counter as a number *)

Lemma of_Z_mono (a b : Z) : (0 <= a <= b)%Z -> le_nn (of_Z a) (of_Z b).
Proof. exact (float_of_Z_mono a b). Qed.

Lemma of_Z_ordinary (w : Z) :
  (1 <= w <= 1000000)%Z -> ordinary (of_Z w) 1 1000000.
Proof.
  intros H. unfold ordinary, in_range. apply andb_true_intro. split.
  - change 1%float with (of_Z 1). apply le_nn_leb, of_Z_mono. lia.
  - change 1000000%float with (of_Z 1000000). apply le_nn_leb, of_Z_mono. lia.
Qed.

(** ** The guard, the current and the safety limit *)

Lemma finite_Fin (x : number) : Nonneg x -> is_finite x = true -> Fin x.
Proof.
  unfold Nonneg, Fin. rewrite is_finite_spec.
  destruct (Prim2SF x) as [[] | [] | | [] m e]; cbn; intros H1 H2;
    try contradiction; try discriminate; exact I.
Qed.

(** A positive resistance is used as it is. *)
Lemma or_else_positive (R : number) :
  (0 <? R)%float = true -> or_else R epsilon = R.
Proof.
  intros H. destruct (positive_truthy R H) as [Z N].
  unfold or_else, ToBoolean. now rewrite Z, N.
Qed.

(** A larger positive resistance and a smaller voltage give a smaller
    current. *)
Lemma current_le (V V' R R' : number) :
  le_nn V V' -> Fin V' -> (0 <? R')%float = true ->
  (R' <=? R)%float = true ->
  le_nn (currentAtTarget V R) (currentAtTarget V' R').
Proof.
  intros HV FV' HR' HRR.
  destruct (positive_Nonneg R' HR') as [Hn' Hp'].
  pose proof (le_nn_of_leb R' R Hn' Hp' HRR) as LR.
  assert (HR : (0 <? R)%float = true).
  { destruct LR as (_ & Hn & L). rewrite ltb_fval; [| reflexivity | exact Hn].
    change (fval 0) with 0%Z. apply Z.ltb_lt. lia. }
  unfold currentAtTarget. rewrite !or_else_positive by assumption.
  pose proof (Fin_le _ _ HV FV') as FV.
  apply le_nn_div; trivial.
  - apply div_Fin_positive_not_nan; trivial; [apply LR |].
    destruct LR as (_ & _ & L). lia.
  - now apply div_Fin_positive_not_nan.
Qed.

(** ** The gauge table *)

Lemma cons_eq_inv {A : Type} (x y : A) (l l' : list A) :
  x :: l = y :: l' -> x = y /\ l = l'.
Proof. intros H. injection H as H1 H2. now split. Qed.

(** The texts of the gauges are the keys of the table. *)
Lemma awgGauges_keys : map Number_toString awgGauges = awgTable_keys.
Proof. vm_compute. reflexivity. Qed.

Lemma awgTable_get_values :
  map (fun g => (g, awgTable_get g)) awgGauges
  = [ (20, 0.8128); (22, 0.6438); (24, 0.511); (26, 0.405); (28, 0.321);
      (30, 0.255); (32, 0.202) ]%float.
Proof.
  pose proof awgGauges_keys as K.
  unfold awgGauges, awgTable_keys, awgTable in K. cbn [map fst] in K.
  unfold awgGauges. cbn [map]. unfold awgTable_get.
  repeat (apply cons_eq_inv in K;
          let E := fresh "E" in destruct K as [E K]; rewrite E).
  reflexivity.
Qed.

Lemma awgTable_get_cases (g : number) :
  In g awgGauges ->
  In (g, awgTable_get g)
    [ (20, 0.8128); (22, 0.6438); (24, 0.511); (26, 0.405); (28, 0.321);
      (30, 0.255); (32, 0.202) ]%float.
Proof.
  intros H. rewrite <- awgTable_get_values.
  apply (in_map (fun g => (g, awgTable_get g))). exact H.
Qed.

(** The gauges of the table select diameters of ordinary magnitude, the
    thinner the higher the gauge. *)
Lemma awgTable_get_ordinary (g : number) :
  In g awgGauges -> ordinary (awgTable_get g) 0.001 1000.
Proof.
  intros H. apply awgTable_get_cases in H. cbn [In] in H.
  repeat destruct H as [[= <- <-] | H]; try contradiction; reflexivity.
Qed.

Lemma awgTable_get_antitone (g g' : number) :
  In g awgGauges -> In g' awgGauges -> (g <=? g')%float = true ->
  (awgTable_get g' <=? awgTable_get g)%float = true.
Proof.
  intros H H' L. apply awgTable_get_cases in H, H'. cbn [In] in H, H'.
  repeat destruct H as [[= <- <-] | H]; try contradiction;
    repeat destruct H' as [[= <- <-] | H']; try contradiction;
    first [reflexivity | discriminate L].
Qed.

(** The entry read is the one stored under the text of the gauge. *)
Lemma awgTable_get_entry (g : number) :
  In g awgGauges -> In (Number_toString g, awgTable_get g) awgTable.
Proof.
  intros H.
  assert (K : In (Number_toString g) awgTable_keys).
  { rewrite <- awgGauges_keys. now apply in_map. }
  unfold awgTable_get. unfold awgTable_keys, awgTable in K |- *.
  cbn [map fst In] in K. cbn [own_number In].
  repeat destruct K as [<- | K]; try contradiction; cbn; auto 8.
Qed.

(** ** [Math.min], [Math.max] and [Math.round] on numbers *)

Lemma Math_min_cases (a b : number) :
  is_nan a = false -> is_nan b = false ->
  Math_min a b = a \/ Math_min a b = b.
Proof.
  intros Na Nb. unfold Math_min. rewrite Na, Nb. cbn [orb].
  destruct (b <? a)%float; [now right |].
  destruct (a <? b)%float; [now left |].
  destruct (get_sign a); auto.
Qed.

Lemma Math_max_cases (a b : number) :
  is_nan a = false -> is_nan b = false ->
  Math_max a b = a \/ Math_max a b = b.
Proof.
  intros Na Nb. unfold Math_max. rewrite Na, Nb. cbn [orb].
  destruct (a <? b)%float; [now right |].
  destruct (b <? a)%float; [now left |].
  destruct (get_sign a); auto.
Qed.

Lemma Math_min_le (a b : number) :
  is_nan a = false -> is_nan b = false -> (Math_min a b <=? a)%float = true.
Proof.
  intros Na Nb. unfold Math_min. rewrite Na, Nb. cbn [orb].
  destruct (b <? a)%float eqn:E1; [now apply ltb_leb |].
  destruct (a <? b)%float eqn:E2; [now apply leb_refl |].
  destruct (get_sign a); [now apply leb_refl | now apply leb_total].
Qed.

Lemma Math_max_ge (a b : number) :
  is_nan a = false -> is_nan b = false -> (a <=? Math_max a b)%float = true.
Proof.
  intros Na Nb. unfold Math_max. rewrite Na, Nb. cbn [orb].
  destruct (a <? b)%float eqn:E1; [now apply ltb_leb |].
  destruct (b <? a)%float eqn:E2; [now apply leb_refl |].
  destruct (get_sign a); [now apply leb_total | now apply leb_refl].
Qed.

Lemma Math_round_not_nan (x : number) :
  is_nan x = false -> is_nan (Math_round x) = false.
Proof.
  intros N. unfold Math_round.
  destruct (Prim2SF x) as [s | s | | s m e]; trivial.
  destruct (0 <=? e)%Z; trivial. cbv zeta.
  match goal with |- context [(?n =? 0)%Z] => destruct (n =? 0)%Z end.
  - now destruct s.
  - apply float_of_Z_not_nan.
Qed.

(** A number between 20 and 80 is rounded to an integer between 20 and
    80. *)
Lemma Math_round_20_80 (c : number) :
  le_nn 20 c -> le_nn c 80 ->
  exists n, (20 <= n <= 80)%Z /\ Math_round c = of_Z n.
Proof.
  intros (_ & Hc & L1) (_ & _ & L2).
  assert (V20 : fval 20 = (20 * 2 ^ 1074)%Z) by (vm_compute; reflexivity).
  assert (V80 : fval 80 = (80 * 2 ^ 1074)%Z) by (vm_compute; reflexivity).
  rewrite V20 in L1. rewrite V80 in L2. clear V20 V80.
  pose proof (pow2_pos 1074 ltac:(lia)) as P1074.
  unfold Math_round. unfold Nonneg, fval in *.
  pose proof (Prim2SF_valid c) as Vc.
  destruct (Prim2SF c) as [[] | [] | | [] m e]; cbn [nonneg has_sign] in Hc;
    try contradiction; try discriminate; cbn [ival] in L1, L2.
  apply valid_finite in Vc. destruct Vc as (He & Hm & Hn & _).
  destruct (Z.leb_spec 0 e) as [H0 | H0].
  - exfalso. specialize (Hn ltac:(lia)).
    assert (2 ^ 1074 <= 2 ^ (e + 1074))%Z by (apply pow2_le; lia).
    assert (80 < 2 ^ 52)%Z by (vm_compute; reflexivity). nia.
  - cbv zeta. rewrite Z.shiftl_1_l.
    set (den := (2 ^ (- e))%Z) in *. set (P := (2 ^ (e + 1074))%Z) in *.
    assert (Hden : (0 < den)%Z) by (apply pow2_pos; lia).
    assert (HP : (0 < P)%Z) by (apply pow2_pos; lia).
    assert (E : (2 ^ 1074 = den * P)%Z).
    { unfold den, P. rewrite <- Z.pow_add_r by lia. f_equal. lia. }
    rewrite E in L1, L2.
    assert (B1 : (20 * den <= Z.pos m)%Z) by nia.
    assert (B2 : (Z.pos m <= 80 * den)%Z) by nia.
    set (n := ((2 * Z.pos m + den) / (2 * den))%Z).
    assert (N1 : (20 <= n)%Z) by (apply Z.div_le_lower_bound; lia).
    assert (N2 : (n < 81)%Z) by (apply Z.div_lt_upper_bound; lia).
    exists n. split; [lia |].
    destruct (Z.eqb_spec n 0) as [Hz | _]; [lia | reflexivity].
Qed.

(** The clamp of the source: between its bounds whenever its argument is
    a number. *)
Lemma clamp_20_80 (y : number) :
  is_nan y = false ->
  le_nn 20 (Math_min 80 (Math_max 20 y))
  /\ le_nn (Math_min 80 (Math_max 20 y)) 80.
Proof.
  intros Ny.
  assert (N20 : is_nan 20 = false) by reflexivity.
  assert (N80 : is_nan 80 = false) by reflexivity.
  assert (Nm : is_nan (Math_max 20 y) = false).
  { destruct (Math_max_cases 20 y N20 Ny) as [-> | ->]; assumption. }
  pose proof (Math_max_ge 20 y N20 Ny) as G.
  pose proof (Math_min_le 80 (Math_max 20 y) N80 Nm) as Lmin.
  assert (L : le_nn 20 (Math_min 80 (Math_max 20 y))).
  { apply le_nn_of_leb; [reflexivity | vm_compute; reflexivity |].
    destruct (Math_min_cases 80 (Math_max 20 y) N80 Nm) as [-> | ->];
      [reflexivity | exact G]. }
  split; [exact L |].
  apply le_nn_of_leb_r; [apply L | reflexivity | exact Lmin].
Qed.

(** ** The exported text *)

Lemma serialize_unlines (p : Profile) : serialize p = unlines (profile_lines p).
Proof.
  unfold serialize, profile_lines, temperature_text, temperature_lines.
  destruct (Temperature p) as [v |]; [destruct (ToBoolean v) |];
    cbn [app unlines]; now rewrite ?append_assoc.
Qed.

Lemma constant_texts :
  Number_toString 1 = "1" /\ Number_toString 8 = "8"
  /\ Number_toString 220 = "220".
Proof. vm_compute. repeat split. Qed.

(** The lines exported for a material of the catalog. *)
Definition exported_lines (key : string) (power R : number) : list string :=
  [ "; Generated by trhacknon Coil Builder";
    "[ProfileCustom]";
    "Name=DAB-CUSTOM";
    "Mode=" ++ (if String.eqb key "SS316L" || String.eqb key "Ni200"
                   || String.eqb key "Titanium (Ti)"
                then "TC-SS" else "Power") ]
  ++ (if String.eqb key "SS316L" then ["Temperature=220"] else [])
  ++ [ "Power=" ++ Number_toString (Math_min 50 (Math_round power));
       "PreheatPower="
       ++ Number_toString
            (Math_round (Math_min 80 (Math_max 20 (power * 1.4)%float)));
       "PreheatTime=1";
       "Cutoff=8";
       "; EstimatedResistance=" ++ toFixed R 4 ].

Lemma buildProfile_lines (key : string) (power R : number) :
  In key material_keys ->
  bind (buildProfile key power R) (fun profile => Normal (serialize profile))
  = Normal (unlines (exported_lines key power R)).
Proof.
  intros Hin. apply catalog_key_cases in Hin.
  destruct constant_texts as (T1 & T8 & T220).
  destruct Hin as [-> | [-> | [-> | [-> | ->]]]];
    cbn -[Math_min Math_max Math_round PrimFloat.mul Number_toString toFixed
          serialize unlines exported_lines];
    rewrite serialize_unlines; unfold profile_lines, temperature_lines;
    cbn [Name Mode Temperature Power PreheatPower PreheatTime Cutoff
         Resistance];
    try change (ToBoolean 220) with true;
    rewrite T1, T8, ?T220; reflexivity.
Qed.

(** A name outside the catalog has no note to read. *)
Lemma get_note_not_key (key : string) :
  ~ In key material_keys -> get_note (materials_get key) = Throw TypeError.
Proof.
  intros H. unfold materials_get. rewrite (own_property_not_key key H).
  now destruct (existsb (String.eqb key) Object_prototype_names).
Qed.

(** ** Resistances that are not numbers *)

Lemma nonneg_guard (R : number) :
  (R <? 0)%float = false -> Nonneg (or_else R epsilon).
Proof.
  rewrite ltb_spec. change (Prim2SF 0) with (S754_zero false).
  unfold or_else, ToBoolean. rewrite is_zero_spec, is_nan_spec.
  unfold Nonneg, SFltb.
  destruct (Prim2SF R) as [[] | [] | | [] m e] eqn:E; cbn;
    intros H; try discriminate; try reflexivity; rewrite E; reflexivity.
Qed.

(** The wire length for ordinary geometry. *)
Lemma length_between (W id legs : number) :
  ordinary id 0.001 1000 -> ordinary W 1 1000000 ->
  ordinary legs 0 1000000 ->
  between (wireLength 1 0.001 0) (wireLength W id legs)
    (wireLength 1000000 1000 1000000).
Proof.
  intros Hi HW Hl.
  apply ordinary_bounds in Hl. destruct Hl as [Hl1 Hl2].
  assert (Bi : between 0.001 id 1000)
    by (apply ordinary_between; trivial; first [nonneg_const | lt_const]).
  assert (BW : between 1 W 1000000)
    by (apply ordinary_between; trivial; first [nonneg_const | lt_const]).
  unfold wireLength.
  apply between_div;
    [| apply between_const; nonneg_const | finite_const | finite_const
     | lt_const].
  apply between_add_legs; [| exact Hl1 | exact Hl2 | nonneg_const].
  apply between_mul; [| exact BW | finite_const | finite_const].
  apply between_mul;
    [apply between_const; apply Nonneg_PI | exact Bi | finite_const
    | finite_const].
Qed.

(** The product of resistivity and length is positive and finite for
    ordinary geometry. *)
Lemma numerator_positive (rho W id legs : number) :
  between 0.42 rho 1.45 ->
  ordinary id 0.001 1000 -> ordinary W 1 1000000 ->
  ordinary legs 0 1000000 ->
  Nonneg (rho * wireLength W id legs)
  /\ (0 < fval (rho * wireLength W id legs))%Z.
Proof.
  intros Hrho Hi HW Hl.
  assert (B : between (0.42 * wireLength 1 0.001 0)
                (rho * wireLength W id legs)
                (1.45 * wireLength 1000000 1000 1000000)).
  { apply between_mul; [exact Hrho | | finite_const | finite_const].
    now apply length_between. }
  destruct B as [(_ & Hn & L) _]. split; [exact Hn |].
  assert (0 < fval (0.42 * wireLength 1 0.001 0)%float)%Z by lt_const. lia.
Qed.

(** The wire is at least as long as its legs. *)
Lemma add_zero_l (a : number) : Nonneg a -> (0 + a)%float = a.
Proof.
  intros Ha. apply Prim2SF_inj. rewrite add_spec.
  change (Prim2SF 0) with (S754_zero false). unfold Nonneg in Ha.
  destruct (Prim2SF a) as [[] | [] | | [] m e]; cbn in *; try contradiction;
    try discriminate; reflexivity.
Qed.

Lemma length_at_least_legs (W id legs : number) :
  ordinary id 0.001 1000 -> ordinary W 1 1000000 ->
  ordinary legs 0 1000000 ->
  (legs / 1000 <=? wireLength W id legs)%float = true.
Proof.
  intros Hi HW Hl.
  pose proof (length_between W id legs Hi HW Hl) as [(_ & HL & _) Hup].
  assert (NL : is_nan (wireLength W id legs) = false)
    by now apply Nonneg_not_nan.
  apply ordinary_bounds in Hl. destruct Hl as [Hl1 Hl2].
  destruct (leb_zero_cases legs Hl1) as [Hn | Hz].
  - apply le_nn_leb. unfold wireLength in *.
    destruct (div_not_nan _ _ NL) as [Ns _].
    destruct (add_not_nan _ _ Ns) as [Np _].
    destruct (mul_not_nan _ _ Np) as [Nc _].
    assert (Hp : Nonneg (Math_PI * id * W)).
    { assert (Bi : between 0.001 id 1000)
        by (apply ordinary_between; trivial; first [nonneg_const | lt_const]).
      assert (BW : between 1 W 1000000)
        by (apply ordinary_between; trivial; first [nonneg_const | lt_const]).
      apply mul_Nonneg; trivial; [| apply BW].
      apply mul_Nonneg; trivial; [apply Nonneg_PI | apply Bi]. }
    assert (Ls : le_nn legs (Math_PI * id * W + legs)).
    { rewrite <- (add_zero_l legs) at 1 by assumption.
      apply le_nn_add; [now apply le_nn_zero | now apply le_nn_refl]. }
    apply le_nn_div; trivial; [apply le_nn_refl; nonneg_const |].
    apply div_Fin_positive_not_nan; [| nonneg_const | lt_const].
    apply (Fin_le legs 1000000); [| finite_const].
    apply le_nn_of_leb_r; trivial. nonneg_const.
  - apply leb_nonpositive; [| exact HL].
    rewrite leb_spec, div_spec, Hz. reflexivity.
Qed.

Lemma own_number_not_key (key : string) (props : list (string * number)) :
  ~ In key (map fst props) -> own_number key props = None.
Proof.
  induction props as [| [k v] rest IH]; cbn [own_number map fst In];
    [reflexivity |].
  intros H. destruct (String.eqb_spec key k) as [-> | Hne].
  - exfalso. apply H. now left.
  - apply IH. intros Hin. apply H. now right.
Qed.

End DesignFacts.

(** ** Resistance and geometry *)

(** X1. For a material of the catalog and magnitudes in the ordinary
    ranges (diameters between 0.001 and 1000 mm, 1 to 1000000 wraps, legs
    up to 1000000 mm), a thinner wire, more wraps, a wider coil and longer
    legs, together or one at a time, never give a smaller resistance:
    [computeResistanceOhm] is non-increasing in the wire diameter and
    non-decreasing in the wrap count, the inner diameter and the leg
    length. *)
Theorem resistance_monotone_in_geometry
  (key : string) (d d' W W' id id' legs legs' r r' : number) :
  In key material_keys ->
  in_range d 0.001 1000 = true -> in_range d' 0.001 1000 = true ->
  in_range W 1 1000000 = true -> in_range W' 1 1000000 = true ->
  in_range id 0.001 1000 = true -> in_range id' 0.001 1000 = true ->
  in_range legs 0 1000000 = true -> in_range legs' 0 1000000 = true ->
  (d' <=? d)%float = true -> (W <=? W')%float = true ->
  (id <=? id')%float = true -> (legs <=? legs')%float = true ->
  computeResistanceOhm key d W id legs = Normal r ->
  computeResistanceOhm key d' W' id' legs' = Normal r' ->
  ge r' r = true.
Proof.
  intros Hin Hd Hd' HW HW' Hi Hi' Hl Hl' Ld LW Li Ll E E'.
  destruct (own_property_of_key key Hin) as [m Hm].
  rewrite (computeResistanceOhm_entry _ _ _ _ _ _ Hm) in E.
  rewrite (computeResistanceOhm_entry _ _ _ _ _ _ Hm) in E'.
  injection E as <-. injection E' as <-.
  pose proof (ResistanceFacts.catalog_rho_between key m
                (proj1 (own_property_In key m) Hm)) as Hrho.
  unfold ge. apply FloatFacts.le_nn_leb.
  apply DesignFacts.ordinary_resistance_le; trivial.
  apply FloatFacts.le_nn_refl. apply Hrho.
Qed.

Lemma resistance_monotone_in_geometry_SS316L :
  ge (resistanceOhm 0.75 (wireLength 6 3.5 8) (crossSectionAreaMm2 0.321))
     (resistanceOhm 0.75 (wireLength 5 3 6) (crossSectionAreaMm2 0.405))
  = true.
Proof.
  apply (resistance_monotone_in_geometry "SS316L" 0.405 0.321 5 6 3 3.5 6 8);
    try reflexivity.
  simpl. tauto.
Defined.

(** X2. A material of higher resistivity never gives a smaller
    resistance: for two materials of the catalog and the same geometry, in
    the ordinary ranges, the resistances computed are ordered as the
    resistivities are.  (The catalog lists its materials by decreasing
    resistivity: Kanthal A1, Nichrome, SS316L, Ni200, Titanium.) *)
Theorem resistance_monotone_in_resistivity
  (key key' : string) (m m' : Material) (d W id legs r r' : number) :
  In (key, m) materials -> In (key', m') materials ->
  (rho_mm2_per_m m <=? rho_mm2_per_m m')%float = true ->
  in_range d 0.001 1000 = true -> in_range W 1 1000000 = true ->
  in_range id 0.001 1000 = true -> in_range legs 0 1000000 = true ->
  computeResistanceOhm key d W id legs = Normal r ->
  computeResistanceOhm key' d W id legs = Normal r' ->
  ge r' r = true.
Proof.
  intros Hm Hm' Lrho Hd HW Hi Hl E E'.
  pose proof (ResistanceFacts.catalog_rho_between _ _ Hm) as B.
  pose proof (ResistanceFacts.catalog_rho_between _ _ Hm') as B'.
  apply own_property_In in Hm, Hm'.
  rewrite (computeResistanceOhm_entry _ _ _ _ _ _ Hm) in E.
  rewrite (computeResistanceOhm_entry _ _ _ _ _ _ Hm') in E'.
  injection E as <-. injection E' as <-.
  unfold ge. apply FloatFacts.le_nn_leb.
  apply DesignFacts.ordinary_resistance_le; trivial;
    try (eapply DesignFacts.ordinary_leb_refl; eassumption).
  apply FloatFacts.le_nn_of_leb_r; [apply B | apply B' | exact Lrho].
Qed.

Lemma resistance_monotone_in_resistivity_Ni200_SS316L :
  ge (resistanceOhm 0.75 (wireLength 5 3 6) (crossSectionAreaMm2 0.405))
     (resistanceOhm 0.70 (wireLength 5 3 6) (crossSectionAreaMm2 0.405))
  = true.
Proof.
  apply (resistance_monotone_in_resistivity "Ni200" "SS316L"
           (mkMaterial 0.70 "Nickel 200 — TC only, fragile")
           (mkMaterial 0.75 "Stainless Steel 316L — works with TC and VW")
           0.405 5 3 6);
    try reflexivity; simpl; tauto.
Defined.

(** X3. The gauge selector.  The gauges 20, 22, ..., 32 are the numbers
    whose texts are the keys of [awgTable]; with the selector in use the
    wire diameter is the table's entry, whatever the manual entry holds;
    and for a material of the catalog and ordinary geometry a higher
    gauge, which is a thinner wire, never gives a smaller resistance. *)
Theorem higher_gauge_resistance
  (key : string) (g g' manual manual' W id legs r r' : number) :
  In key material_keys ->
  In g awgGauges -> In g' awgGauges -> (g <=? g')%float = true ->
  in_range W 1 1000000 = true ->
  in_range id 0.001 1000 = true -> in_range legs 0 1000000 = true ->
  computeResistanceOhm key (wireDiameter true g manual) W id legs = Normal r ->
  computeResistanceOhm key (wireDiameter true g' manual') W id legs
  = Normal r' ->
  map Number_toString awgGauges = awgTable_keys
  /\ In (Number_toString g, wireDiameter true g manual) awgTable
  /\ ge r' r = true.
Proof.
  intros Hin Hg Hg' L HW Hi Hl E E'.
  split; [exact DesignFacts.awgGauges_keys |]. split.
  - now apply DesignFacts.awgTable_get_entry.
  - cbn [wireDiameter] in E, E'.
    destruct (own_property_of_key key Hin) as [m Hm].
    rewrite (computeResistanceOhm_entry _ _ _ _ _ _ Hm) in E.
    rewrite (computeResistanceOhm_entry _ _ _ _ _ _ Hm) in E'.
    injection E as <-. injection E' as <-.
    pose proof (ResistanceFacts.catalog_rho_between key m
                  (proj1 (own_property_In key m) Hm)) as Hrho.
    unfold ge. apply FloatFacts.le_nn_leb.
    apply DesignFacts.ordinary_resistance_le; trivial;
      try (eapply DesignFacts.ordinary_leb_refl; eassumption).
    + apply FloatFacts.le_nn_refl. apply Hrho.
    + now apply DesignFacts.awgTable_get_ordinary.
    + now apply DesignFacts.awgTable_get_ordinary.
    + now apply DesignFacts.awgTable_get_antitone.
Qed.

Lemma higher_gauge_resistance_26_28 :
  map Number_toString awgGauges = awgTable_keys
  /\ In (Number_toString 26, wireDiameter true 26 0) awgTable
  /\ ge (resistanceOhm 0.75 (wireLength 5 3 6)
           (crossSectionAreaMm2 (wireDiameter true 28 0)))
        (resistanceOhm 0.75 (wireLength 5 3 6)
           (crossSectionAreaMm2 (wireDiameter true 26 0)))
     = true.
Proof.
  apply (higher_gauge_resistance "SS316L" 26 28 0 0 5 3 6).
  - simpl. tauto.
  - simpl. tauto.
  - simpl. tauto.
  - reflexivity.
  - reflexivity.
  - reflexivity.
  - reflexivity.
  - exact (computeResistanceOhm_entry "SS316L"
             (mkMaterial 0.75 "Stainless Steel 316L — works with TC and VW")
             _ _ _ _ eq_refl).
  - exact (computeResistanceOhm_entry "SS316L"
             (mkMaterial 0.75 "Stainless Steel 316L — works with TC and VW")
             _ _ _ _ eq_refl).
Defined.

(** ** Current and the safety limit *)

(** X4. The estimated current grows with the voltage and falls as the
    resistance grows: for positive voltages, the larger one finite, and
    positive resistances, a voltage not smaller over a resistance not
    larger gives a current not smaller.  (A positive resistance is used
    as it is; the guard [|| 0.000001] does not apply.) *)
Theorem current_monotone (V V' R R' : number) :
  (0 <? V)%float = true -> (V <=? V')%float = true -> is_finite V' = true ->
  (0 <? R')%float = true -> (R' <=? R)%float = true ->
  currentAtTarget V' R' = (V' / R')%float
  /\ (currentAtTarget V R <=? currentAtTarget V' R')%float = true.
Proof.
  intros HV HVV FV' HR' HRR.
  split; [unfold currentAtTarget; now rewrite DesignFacts.or_else_positive |].
  destruct (FloatFacts.positive_Nonneg V HV) as [Hn Hp].
  pose proof (FloatFacts.le_nn_of_leb V V' Hn Hp HVV) as LV.
  apply FloatFacts.le_nn_leb. apply DesignFacts.current_le; trivial.
  apply DesignFacts.finite_Fin; [apply LV | exact FV'].
Qed.

Lemma current_monotone_example :
  currentAtTarget 7.4 0.25 = (7.4 / 0.25)%float
  /\ (currentAtTarget 3.7 0.5 <=? currentAtTarget 7.4 0.25)%float = true.
Proof. apply (current_monotone 3.7 7.4 0.5 0.25); reflexivity. Defined.

(** X5. A design within the safety limit stays within it when wire is
    added or thinned: for a material of the catalog, ordinary geometry
    and a positive finite voltage, if the current of a design does not
    exceed the limit, neither does the current of a design with a wire
    not thicker, wraps not fewer, a coil not narrower and legs not
    shorter.  This holds for every limit, NaN included. *)
Theorem safety_limit_kept
  (key : string) (d d' W W' id id' legs legs' V limit r r' : number) :
  In key material_keys ->
  in_range d 0.001 1000 = true -> in_range d' 0.001 1000 = true ->
  in_range W 1 1000000 = true -> in_range W' 1 1000000 = true ->
  in_range id 0.001 1000 = true -> in_range id' 0.001 1000 = true ->
  in_range legs 0 1000000 = true -> in_range legs' 0 1000000 = true ->
  (d' <=? d)%float = true -> (W <=? W')%float = true ->
  (id <=? id')%float = true -> (legs <=? legs')%float = true ->
  (0 <? V)%float = true -> is_finite V = true ->
  computeResistanceOhm key d W id legs = Normal r ->
  computeResistanceOhm key d' W' id' legs' = Normal r' ->
  exceedsSafetyLimit V r limit = false ->
  exceedsSafetyLimit V r' limit = false.
Proof.
  intros Hin Hd Hd' HW HW' Hi Hi' Hl Hl' Ld LW Li Ll HV FV E E' Hsafe.
  destruct (own_property_of_key key Hin) as [m Hm].
  rewrite (computeResistanceOhm_entry _ _ _ _ _ _ Hm) in E.
  rewrite (computeResistanceOhm_entry _ _ _ _ _ _ Hm) in E'.
  injection E as <-. injection E' as <-.
  pose proof (ResistanceFacts.catalog_rho_between key m
                (proj1 (own_property_In key m) Hm)) as Hrho.
  pose proof (DesignFacts.ordinary_resistance_le (rho_mm2_per_m m)
                (rho_mm2_per_m m) d d' W W' id id' legs legs' Hrho Hrho
                (FloatFacts.le_nn_refl _ (proj1 (proj2 (proj1 Hrho))))
                Hd Hd' HW HW' Hi Hi' Hl Hl' Ld LW Li Ll) as L.
  destruct (ResistanceFacts.resistance_positive_finite (rho_mm2_per_m m)
              d W id legs Hrho Hd Hi HW Hl) as [Hpos _].
  destruct (FloatFacts.positive_Nonneg V HV) as [Hn Hp].
  pose proof (DesignFacts.current_le V V _ _
                (FloatFacts.le_nn_refl V Hn) (DesignFacts.finite_Fin V Hn FV)
                Hpos (FloatFacts.le_nn_leb _ _ L)) as LI.
  unfold exceedsSafetyLimit, gt in *.
  match goal with
  | |- ?b = false => destruct b eqn:Ex; [| reflexivity]
  end.
  rewrite (FloatFacts.ltb_le_nn _ _ _ Ex LI) in Hsafe. discriminate Hsafe.
Qed.

Lemma safety_limit_kept_SS316L :
  exceedsSafetyLimit 7.4
    (resistanceOhm 0.75 (wireLength 6 3.5 8) (crossSectionAreaMm2 0.321)) 30
  = false.
Proof.
  apply (safety_limit_kept "SS316L" 0.405 0.321 5 6 3 3.5 6 8 7.4 30
           (resistanceOhm 0.75 (wireLength 5 3 6) (crossSectionAreaMm2 0.405)));
    try reflexivity.
  simpl. tauto.
Defined.

(** ** The wrap search *)

(** X6. When the search succeeds, the wrap count it returns is a
    threshold: for a material of the catalog, ordinary diameters and legs
    and [maxWraps] between 1 and 1000000, if the resistance returned
    reaches the target then a wrap count of the searched range reaches
    the target exactly when it is at least the returned one. *)
Theorem findWrapsForTarget_threshold
  (key : string) (d id legs target : number) (maxWraps : Z)
  (sol : WrapSolution) :
  In key material_keys ->
  in_range d 0.001 1000 = true -> in_range id 0.001 1000 = true ->
  in_range legs 0 1000000 = true ->
  (1 <= maxWraps <= 1000000)%Z ->
  findWrapsForTarget key d id legs target maxWraps = Normal sol ->
  ge (resistance sol) target = true ->
  forall w r,
    (1 <= w <= maxWraps)%Z ->
    computeResistanceOhm key d (of_Z w) id legs = Normal r ->
    (ge r target = true <-> (wraps sol <= w)%Z).
Proof.
  intros Hin Hd Hi Hl Hmax Hsol Hge w r Hw E.
  destruct (own_property_of_key key Hin) as [m Hm].
  rewrite (computeResistanceOhm_entry _ _ _ _ _ _ Hm) in E.
  injection E as <-.
  pose proof (ResistanceFacts.catalog_rho_between key m
                (proj1 (own_property_In key m) Hm)) as Hrho.
  destruct (findWrapsForTarget_spec key m Hm d id legs target maxWraps
              ltac:(lia)) as (sol' & Hs & HR & Hrange & Hcases).
  rewrite Hs in Hsol. injection Hsol as ->.
  destruct Hcases as [[_ Hbefore] | [Heq Hall]].
  - split.
    + intros Hr. destruct (Z_lt_le_dec w (wraps sol)) as [Hlt | Hle];
        [| exact Hle].
      rewrite Hbefore in Hr by lia. discriminate Hr.
    + intros Hle. unfold ge in *. rewrite HR in Hge.
      apply (FloatFacts.leb_le_nn _ _ _ Hge).
      apply DesignFacts.ordinary_resistance_le; trivial;
        try (eapply DesignFacts.ordinary_leb_refl; eassumption);
        try (apply DesignFacts.of_Z_ordinary; lia).
      * apply FloatFacts.le_nn_refl. apply Hrho.
      * apply FloatFacts.le_nn_leb. apply DesignFacts.of_Z_mono. lia.
  - rewrite HR, Hall in Hge by lia. discriminate Hge.
Qed.

Lemma findWrapsForTarget_threshold_SS316L :
  ge (resistanceOhm 0.75 (wireLength (of_Z 7) 3 6) (crossSectionAreaMm2 0.405))
     0.25 = true
  <-> (4 <= 7)%Z.
Proof.
  apply (findWrapsForTarget_threshold "SS316L" 0.405 3 6 0.25 60
           {| wraps := 4; resistance := 0.25440986405309085 |});
    try reflexivity; try lia.
  simpl. tauto.
Defined.



(** X8. A target that is zero or negative is reached at once: for a
    material of the catalog, a positive inner diameter, legs that are not
    negative and [maxWraps >= 1], if the resistance at one wrap is a
    number, the search returns one wrap with that resistance. *)
Theorem findWrapsForTarget_nonpositive_target
  (key : string) (d id legs target r1 : number) (maxWraps : Z) :
  In key material_keys ->
  (0 <? id)%float = true -> (0 <=? legs)%float = true ->
  (target <=? 0)%float = true -> (1 <= maxWraps)%Z ->
  computeResistanceOhm key d (of_Z 1) id legs = Normal r1 ->
  is_nan r1 = false ->
  findWrapsForTarget key d id legs target maxWraps
  = Normal {| wraps := 1; resistance := r1 |}.
Proof.
  intros Hin Hid Hlegs Ht Hmax E Hnan.
  destruct (own_property_of_key key Hin) as [m Hm].
  pose proof (ResistanceFacts.catalog_rho_between key m
                (proj1 (own_property_In key m) Hm)) as Hrho.
  unfold findWrapsForTarget.
  destruct (Z.to_nat maxWraps) as [| n] eqn:En; [lia |].
  cbn [scan_wraps]. rewrite E. cbn [bind].
  rewrite (computeResistanceOhm_entry _ _ _ _ _ _ Hm) in E.
  injection E as <-.
  assert (Hr : FloatFacts.Nonneg
                 (resistanceOhm (rho_mm2_per_m m) (wireLength (of_Z 1) id legs)
                    (crossSectionAreaMm2 d))).
  { destruct (ResistanceFacts.resistance_not_negative (rho_mm2_per_m m) id legs
                (proj1 (proj2 (proj1 Hrho))) Hid Hlegs d (of_Z 1)
                ltac:(vm_compute; reflexivity)) as [H | H];
      [exact H | congruence]. }
  unfold ge. now rewrite (FloatFacts.leb_nonpositive _ _ Ht Hr).
Qed.

Lemma findWrapsForTarget_nonpositive_target_SS316L :
  findWrapsForTarget "SS316L" 0.405 3 6 (-1) 60
  = Normal {| wraps := 1;
              resistance :=
                resistanceOhm 0.75 (wireLength 1 3 6)
                  (crossSectionAreaMm2 0.405) |}.
Proof.
  apply (findWrapsForTarget_nonpositive_target "SS316L" 0.405 3 6 (-1));
    try reflexivity; try lia.
  simpl. tauto.
Defined.

(** ** The exported profile *)

(** X9. The power fields stay within the device's limits: for every
    profile the code builds from a power [p] that is a number (negative,
    infinite or huge included), [Power] is at most 50 and [PreheatPower]
    is an integer from 20 to 80; from a power that is NaN, both fields are
    NaN. *)
Theorem buildProfile_power_limits
  (key : string) (p R : number) (prof : Profile) :
  buildProfile key p R = Normal prof ->
  (is_nan p = false ->
   (Power prof <=? 50)%float = true
   /\ exists n, (20 <= n <= 80)%Z /\ PreheatPower prof = of_Z n)
  /\ (is_nan p = true ->
      is_nan (Power prof) = true /\ is_nan (PreheatPower prof) = true).
Proof.
  intros H. unfold buildProfile in H.
  destruct (get_note (materials_get key)) as [n | e]; [| discriminate H].
  cbn [bind] in H. injection H as <-. cbn [Power PreheatPower]. split.
  - intros N. split.
    + apply DesignFacts.Math_min_le; [reflexivity |].
      now apply DesignFacts.Math_round_not_nan.
    + assert (Ny : is_nan (p * 1.4)%float = false).
      { apply FloatFacts.mul_finite_not_nan; trivial; vm_compute; trivial. }
      destruct (DesignFacts.clamp_20_80 _ Ny) as [L1 L2].
      now apply DesignFacts.Math_round_20_80.
  - intros N. apply FloatFacts.is_nan_eq in N. subst p. split; reflexivity.
Qed.

Lemma buildProfile_power_limits_SS316L :
  (is_nan 1e6 = false ->
   (Math_min 50 (Math_round 1e6) <=? 50)%float = true
   /\ exists n,
        (20 <= n <= 80)%Z
        /\ Math_round (Math_min 80 (Math_max 20 (1e6 * 1.4)%float)) = of_Z n)
  /\ (is_nan 1e6 = true ->
      is_nan (Math_min 50 (Math_round 1e6)) = true
      /\ is_nan (Math_round (Math_min 80 (Math_max 20 (1e6 * 1.4)%float)))
         = true).
Proof.
  exact (buildProfile_power_limits "SS316L" 1e6 0.25
           {| Name := "DAB-CUSTOM"; Mode := "TC-SS";
              Temperature := Some 220%float;
              Power := Math_min 50 (Math_round 1e6);
              PreheatPower :=
                Math_round (Math_min 80 (Math_max 20 (1e6 * 1.4)%float));
              PreheatTime := 1; Cutoff := 8; Resistance := fmt 0.25 4 |}
           eq_refl).
Defined.

(** X10. The text exported for a material of the catalog, from the
    voltage and the computed resistance, whatever they are: the header
    and section lines, [Name=DAB-CUSTOM], the mode ([TC-SS] for SS316L,
    Ni200 and Titanium, [Power] for the others), [Temperature=220] for
    SS316L only, [Power=] and [PreheatPower=] computed from the power
    [current^2 * resistance], [PreheatTime=1], [Cutoff=8] and the
    resistance with four decimals, each line ended by a line feed. *)
Theorem exportText_catalog (key : string) (V R : number) :
  In key material_keys ->
  exportText key V R
  = Normal
      (unlines
         ([ "; Generated by trhacknon Coil Builder";
            "[ProfileCustom]";
            "Name=DAB-CUSTOM";
            "Mode=" ++ (if String.eqb key "SS316L" || String.eqb key "Ni200"
                           || String.eqb key "Titanium (Ti)"
                        then "TC-SS" else "Power") ]
          ++ (if String.eqb key "SS316L" then ["Temperature=220"] else [])
          ++ [ "Power="
               ++ Number_toString
                    (Math_min 50 (Math_round (powerAtTarget V R)));
               "PreheatPower="
               ++ Number_toString
                    (Math_round
                       (Math_min 80
                          (Math_max 20 (powerAtTarget V R * 1.4)%float)));
               "PreheatTime=1";
               "Cutoff=8";
               "; EstimatedResistance=" ++ toFixed R 4 ])).
Proof.
  intros Hin. unfold exportText.
  exact (DesignFacts.buildProfile_lines key (powerAtTarget V R) R Hin).
Qed.

Lemma exportText_catalog_Kanthal :
  exportText "Kanthal A1" 7.4 0.25
  = Normal
      (unlines
         ([ "; Generated by trhacknon Coil Builder";
            "[ProfileCustom]";
            "Name=DAB-CUSTOM";
            "Mode=" ++ (if String.eqb "Kanthal A1" "SS316L"
                           || String.eqb "Kanthal A1" "Ni200"
                           || String.eqb "Kanthal A1" "Titanium (Ti)"
                        then "TC-SS" else "Power") ]
          ++ (if String.eqb "Kanthal A1" "SS316L"
              then ["Temperature=220"] else [])
          ++ [ "Power="
               ++ Number_toString
                    (Math_min 50 (Math_round (powerAtTarget 7.4 0.25)));
               "PreheatPower="
               ++ Number_toString
                    (Math_round
                       (Math_min 80
                          (Math_max 20 (powerAtTarget 7.4 0.25 * 1.4)%float)));
               "PreheatTime=1";
               "Cutoff=8";
               "; EstimatedResistance=" ++ toFixed 0.25 4 ])).
Proof. apply (exportText_catalog "Kanthal A1" 7.4 0.25). simpl. tauto. Defined.

(** X11. Exporting fails for every name outside the catalog: reading the
    note throws a TypeError, also for the names inherited from
    [Object.prototype], for which the resistance is computed without
    failure (and is NaN). *)
Theorem exportText_unknown_material (key : string) (V R : number) :
  ~ In key material_keys ->
  exportText key V R = Throw TypeError
  /\ (In key Object_prototype_names ->
      forall d W id legs,
        computeResistanceOhm key d W id legs = Normal nan).
Proof.
  intros Hnot. split.
  - unfold exportText, buildProfile.
    now rewrite (DesignFacts.get_note_not_key key Hnot).
  - intros Hp d W id legs. unfold computeResistanceOhm.
    rewrite (materials_get_inherited key Hp).
    unfold computeLengthMeters, areaMm2, mmToMeters. cbn [get_rho bind].
    f_equal. apply FloatFacts.is_nan_eq.
    apply FloatFacts.div_nan_l, FloatFacts.mul_nan_l. reflexivity.
Qed.

Lemma exportText_unknown_material_toString :
  exportText "toString" 7.4 0.25 = Throw TypeError
  /\ (In "toString" Object_prototype_names ->
      forall d W id legs,
        computeResistanceOhm "toString" d W id legs = Normal nan).
Proof.
  apply (exportText_unknown_material "toString" 7.4 0.25).
  simpl. intros H. repeat destruct H as [H | H]; try discriminate H. exact H.
Defined.

(** ** Diameters that are zero or not numbers *)

(** X12. A zero wire diameter, end to end: for a material of the catalog
    and ordinary wraps, inner diameter and legs, the resistance is
    [Infinity]; then, for a positive finite voltage, the current is 0,
    the power is NaN, the safety limit (if it is not negative) is not
    exceeded, and the exported text carries [Power=NaN],
    [PreheatPower=NaN] and [EstimatedResistance=Infinity]. *)
Theorem zero_diameter_design
  (key : string) (W id legs V limit : number) :
  In key material_keys ->
  in_range W 1 1000000 = true -> in_range id 0.001 1000 = true ->
  in_range legs 0 1000000 = true ->
  (0 <? V)%float = true -> is_finite V = true ->
  (0 <=? limit)%float = true ->
  computeResistanceOhm key 0 W id legs = Normal infinity
  /\ currentAtTarget V infinity = 0%float
  /\ is_nan (powerAtTarget V infinity) = true
  /\ exceedsSafetyLimit V infinity limit = false
  /\ exportText key V infinity
     = Normal
         (unlines
            ([ "; Generated by trhacknon Coil Builder";
               "[ProfileCustom]";
               "Name=DAB-CUSTOM";
               "Mode=" ++ (if String.eqb key "SS316L" || String.eqb key "Ni200"
                              || String.eqb key "Titanium (Ti)"
                           then "TC-SS" else "Power") ]
             ++ (if String.eqb key "SS316L" then ["Temperature=220"] else [])
             ++ [ "Power=NaN";
                  "PreheatPower=NaN";
                  "PreheatTime=1";
                  "Cutoff=8";
                  "; EstimatedResistance=Infinity" ])).
Proof.
  intros Hin HW Hi Hl HV FV Hlim.
  destruct (own_property_of_key key Hin) as [m Hm].
  pose proof (ResistanceFacts.catalog_rho_between key m
                (proj1 (own_property_In key m) Hm)) as Hrho.
  destruct (FloatFacts.positive_Nonneg V HV) as [Hn Hp].
  assert (Hcur : currentAtTarget V infinity = 0%float).
  { unfold currentAtTarget. change (or_else infinity epsilon) with infinity.
    apply FloatFacts.div_Fin_by_infinity.
    now apply DesignFacts.finite_Fin. }
  assert (Hpow : powerAtTarget V infinity = nan).
  { unfold powerAtTarget. rewrite Hcur. reflexivity. }
  split; [| split; [| split; [| split]]].
  - rewrite (computeResistanceOhm_entry _ _ _ _ _ _ Hm).
    unfold resistanceOhm. change (crossSectionAreaMm2 0) with 0%float.
    destruct (DesignFacts.numerator_positive (rho_mm2_per_m m) W id legs
                Hrho Hi HW Hl) as [Nn Np].
    now rewrite (FloatFacts.div_positive_by_zero _ Nn Np).
  - exact Hcur.
  - now rewrite Hpow.
  - unfold exceedsSafetyLimit, gt. rewrite Hcur.
    now apply FloatFacts.leb_zero_not_ltb.
  - unfold exportText. rewrite Hpow.
    rewrite (DesignFacts.buildProfile_lines key nan infinity Hin).
    reflexivity.
Qed.

Lemma zero_diameter_design_SS316L :
  computeResistanceOhm "SS316L" 0 5 3 6 = Normal infinity
  /\ currentAtTarget 7.4 infinity = 0%float
  /\ is_nan (powerAtTarget 7.4 infinity) = true
  /\ exceedsSafetyLimit 7.4 infinity 30 = false
  /\ exportText "SS316L" 7.4 infinity
     = Normal
         (unlines
            ([ "; Generated by trhacknon Coil Builder";
               "[ProfileCustom]";
               "Name=DAB-CUSTOM";
               "Mode=" ++ (if String.eqb "SS316L" "SS316L"
                              || String.eqb "SS316L" "Ni200"
                              || String.eqb "SS316L" "Titanium (Ti)"
                           then "TC-SS" else "Power") ]
             ++ (if String.eqb "SS316L" "SS316L"
                 then ["Temperature=220"] else [])
             ++ [ "Power=NaN";
                  "PreheatPower=NaN";
                  "PreheatTime=1";
                  "Cutoff=8";
                  "; EstimatedResistance=Infinity" ])).
Proof.
  apply (zero_diameter_design "SS316L" 5 3 6 7.4 30); try reflexivity.
  simpl. tauto.
Defined.

(** X13. A wire diameter that is not a number, end to end.  The diameter
    in use is NaN when the selector holds a gauge whose text is not a key
    of the table, or when the manual entry is NaN; then, for a material
    of the catalog and whatever the geometry, the voltage and the target,
    the resistance is NaN, the guard replaces it so that the current is
    [voltage / 0.000001], the wrap search saturates at 60 wraps with a
    NaN resistance, and the resistance prints as [NaN]. *)
Theorem nan_diameter_design
  (key : string) (useAwg : bool) (awg manual W id legs V target : number) :
  In key material_keys ->
  (useAwg = true /\ ~ In (Number_toString awg) awgTable_keys)
  \/ (useAwg = false /\ is_nan manual = true) ->
  is_nan (wireDiameter useAwg awg manual) = true
  /\ computeResistanceOhm key (wireDiameter useAwg awg manual) W id legs
     = Normal nan
  /\ currentAtTarget V nan = (V / 0.000001)%float
  /\ findWrapsForTarget key (wireDiameter useAwg awg manual) id legs target
       default_maxWraps
     = Normal {| wraps := 60; resistance := nan |}
  /\ fmt nan 4 = "NaN".
Proof.
  intros Hin Hcase.
  assert (Hd : wireDiameter useAwg awg manual = nan).
  { destruct Hcase as [[-> Hk] | [-> Hm]]; cbn [wireDiameter].
    - unfold awgTable_get.
      now rewrite (DesignFacts.own_number_not_key _ awgTable Hk).
    - now apply FloatFacts.is_nan_eq. }
  rewrite Hd. clear Hd Hcase.
  destruct (own_property_of_key key Hin) as [m Hm].
  assert (HR : forall w,
             resistanceOhm (rho_mm2_per_m m) (wireLength w id legs)
               (crossSectionAreaMm2 nan) = nan).
  { intros w. unfold resistanceOhm. apply FloatFacts.is_nan_eq.
    apply FloatFacts.div_nan_r. reflexivity. }
  split; [reflexivity |]. split; [| split; [reflexivity | split]].
  - rewrite (computeResistanceOhm_entry _ _ _ _ _ _ Hm). now rewrite HR.
  - destruct (findWrapsForTarget_spec key m Hm nan id legs target
                default_maxWraps ltac:(unfold default_maxWraps; lia))
      as (sol & Hs & Hres & Hrange & Hcases).
    rewrite Hs. destruct sol as [ws rs]. cbn [wraps resistance] in *.
    rewrite HR in Hres. subst rs.
    destruct Hcases as [[Hhit _] | [-> _]]; [| reflexivity].
    unfold ge in Hhit.
    rewrite (FloatFacts.leb_nan_r target nan eq_refl) in Hhit.
    discriminate Hhit.
  - reflexivity.
Qed.

Lemma nan_diameter_design_manual :
  is_nan (wireDiameter false 26 nan) = true
  /\ computeResistanceOhm "SS316L" (wireDiameter false 26 nan) 5 3 6
     = Normal nan
  /\ currentAtTarget 7.4 nan = (7.4 / 0.000001)%float
  /\ findWrapsForTarget "SS316L" (wireDiameter false 26 nan) 3 6 0.25
       default_maxWraps
     = Normal {| wraps := 60; resistance := nan |}
  /\ fmt nan 4 = "NaN".
Proof.
  apply (nan_diameter_design "SS316L" false 26 nan 5 3 6 7.4 0.25).
  - simpl. tauto.
  - right. split; reflexivity.
Defined.

(** X14. The estimated power is never negative when the resistance is
    not: for every voltage (negative ones and NaN included) and every
    resistance that is not below zero (zero and NaN included, which the
    guard replaces), the power is not below zero. *)
Theorem power_not_negative (V R : number) :
  (R <? 0)%float = false -> (powerAtTarget V R <? 0)%float = false.
Proof.
  intros H. apply FloatFacts.not_negative_ltb.
  unfold powerAtTarget, Math_pow2.
  apply FloatFacts.not_negative_mul.
  - apply FloatFacts.not_negative_square.
  - left. now apply DesignFacts.nonneg_guard.
Qed.

Lemma power_not_negative_example :
  (powerAtTarget (-7.4) 0.25 <? 0)%float = false.
Proof. apply (power_not_negative (-7.4) 0.25). reflexivity. Defined.

(** ** The length of wire *)

(** X15. The wire length displayed: for ordinary geometry (inner diameter
    between 0.001 and 1000 mm, 1 to 1000000 wraps, legs up to
    1000000 mm), [computeLengthMeters] is non-decreasing in the wrap
    count, the inner diameter and the leg length, and the wire is never
    shorter than its legs, in metres. *)
Theorem computeLengthMeters_monotone
  (W W' id id' legs legs' L L' : number) :
  in_range W 1 1000000 = true -> in_range W' 1 1000000 = true ->
  in_range id 0.001 1000 = true -> in_range id' 0.001 1000 = true ->
  in_range legs 0 1000000 = true -> in_range legs' 0 1000000 = true ->
  (W <=? W')%float = true -> (id <=? id')%float = true ->
  (legs <=? legs')%float = true ->
  computeLengthMeters W id legs = Normal L ->
  computeLengthMeters W' id' legs' = Normal L' ->
  ge L' L = true
  /\ mmToMeters legs = Normal (legs / 1000)%float
  /\ ge L (legs / 1000)%float = true.
Proof.
  intros HW HW' Hi Hi' Hl Hl' LW Li Ll E E'.
  change (computeLengthMeters W id legs)
    with (Normal (wireLength W id legs)) in E.
  change (computeLengthMeters W' id' legs')
    with (Normal (wireLength W' id' legs')) in E'.
  injection E as <-. injection E' as <-.
  split; [| split; [reflexivity |]].
  - unfold ge. apply FloatFacts.le_nn_leb.
    apply DesignFacts.length_le.
    + apply (DesignFacts.ordinary_le W W' 1 1000000); trivial;
        vm_compute; reflexivity.
    + apply (DesignFacts.ordinary_le id id' 0.001 1000); trivial;
        vm_compute; reflexivity.
    + apply ResistanceFacts.ordinary_bounds in Hl. apply Hl.
    + exact Ll.
    + eapply DesignFacts.between_not_nan.
      now apply DesignFacts.length_between.
    + eapply DesignFacts.between_not_nan.
      now apply DesignFacts.length_between.
  - unfold ge. now apply DesignFacts.length_at_least_legs.
Qed.

Lemma computeLengthMeters_monotone_example :
  ge (wireLength 6 3.5 8) (wireLength 5 3 6) = true
  /\ mmToMeters 6 = Normal (6 / 1000)%float
  /\ ge (wireLength 5 3 6) (6 / 1000)%float = true.
Proof.
  apply (computeLengthMeters_monotone 5 6 3 3.5 6 8); reflexivity.
Defined.

(** ** Numbers on display *)


